(** * The armor set optimizer of the loadout builder

    A shallow embedding of [process], [insertIntoSetTracker],
    [compareByStatOrder], [getStatValuesWithMWProcess] and [flattenSets]
    (the module of the loadout builder that processes armor sets), with the
    properties of the search that the specification states.

    Modelling conventions.
    - JavaScript numbers that hold stats, tiers, hashes and counts are
      integers of [Z].
    - A JavaScript exception ([TypeError] on a property read of [undefined])
      is the result [TypeError]; the [while] loop of the combination cap is
      run with fuel, and running out of it is the result [OutOfFuel].
    - Arrays are lists; an in-place update of an array is the new list that
      the function hands back.
    - A value that is only tested for truthiness keeps the shape that
      decides it: an optional string for [equippingLabel], an optional
      number or object for [energy], an optional object for [sockets].
    - What the imported modules provide ([statHashes], [TOTAL_STAT_HASH],
      [getPower], [canTakeSlotIndependantMods], [generateModPermutations],
      the plug-category tables, the energy-meter category style) is a
      field of the record [Imports]. *)

From Stdlib Require Import ZArith List String Bool Lia Permutation.
From Stdlib Require Import DecimalString Relations.
Import ListNotations.

Local Open Scope Z_scope.
Local Open Scope list_scope.

(** ** Results of fallible code *)

Inductive Result (A : Type) : Type :=
| Ok (a : A)
| TypeError
| OutOfFuel.

Arguments Ok {A} a.
Arguments TypeError {A}.
Arguments OutOfFuel {A}.

Definition bind {A B : Type} (r : Result A) (k : A -> Result B) : Result B :=
  match r with
  | Ok a => k a
  | TypeError => TypeError
  | OutOfFuel => OutOfFuel
  end.

Notation "x <- r ;; k" := (bind r (fun x => k))
  (at level 61, r at next level, right associativity).

(** A [for ... of] loop whose body may throw. *)
Fixpoint forOf {A S : Type} (body : A -> S -> Result S) (l : list A) (s : S)
  : Result S :=
  match l with
  | [] => Ok s
  | a :: l' => s' <- body a s ;; forOf body l' s'
  end.

(** ** Data model *)

Inductive StatTypes : Type :=
| Mobility | Resilience | Recovery | Discipline | Intellect | Strength.

(** An object with one field per stat type, [{ [stat in StatTypes]: A }]. *)
Record StatMap (A : Type) : Type := mkStatMap {
  sMobility : A;
  sResilience : A;
  sRecovery : A;
  sDiscipline : A;
  sIntellect : A;
  sStrength : A
}.

Arguments mkStatMap {A}.
Arguments sMobility {A}.
Arguments sResilience {A}.
Arguments sRecovery {A}.
Arguments sDiscipline {A}.
Arguments sIntellect {A}.
Arguments sStrength {A}.

Definition getStat {A : Type} (m : StatMap A) (k : StatTypes) : A :=
  match k with
  | Mobility => sMobility m
  | Resilience => sResilience m
  | Recovery => sRecovery m
  | Discipline => sDiscipline m
  | Intellect => sIntellect m
  | Strength => sStrength m
  end.

Definition setStat {A : Type} (m : StatMap A) (k : StatTypes) (v : A)
  : StatMap A :=
  match k with
  | Mobility => mkStatMap v (sResilience m) (sRecovery m) (sDiscipline m) (sIntellect m) (sStrength m)
  | Resilience => mkStatMap (sMobility m) v (sRecovery m) (sDiscipline m) (sIntellect m) (sStrength m)
  | Recovery => mkStatMap (sMobility m) (sResilience m) v (sDiscipline m) (sIntellect m) (sStrength m)
  | Discipline => mkStatMap (sMobility m) (sResilience m) (sRecovery m) v (sIntellect m) (sStrength m)
  | Intellect => mkStatMap (sMobility m) (sResilience m) (sRecovery m) (sDiscipline m) v (sStrength m)
  | Strength => mkStatMap (sMobility m) (sResilience m) (sRecovery m) (sDiscipline m) (sIntellect m) v
  end.

Record MinMax : Type := mkMinMax { mmMin : Z; mmMax : Z }.

Record MinMaxIgnored : Type := mkMinMaxIgnored {
  min : Z;
  max : Z;
  ignored : bool
}.

(** [plug.stats] is an optional object from stat hash to bonus; a hash it
    does not hold reads as [undefined], here [None]. *)
Record ProcessPlug : Type := mkPlug {
  plugItemHash : Z;
  plugStats : option (Z -> option Z)
}.

Record ProcessSocket : Type := mkSocket { plug : option ProcessPlug }.

Record ProcessSocketCategory : Type := mkCategory {
  categoryStyle : Z;
  categorySockets : list ProcessSocket
}.

Record ProcessSockets : Type := mkSockets {
  sockets : list ProcessSocket;
  categories : list ProcessSocketCategory
}.

(** [item.energy], when it is not [null] or [undefined]. The code only
    tests it for truthiness, and its comment says that it can have the
    value 0. Both shapes that fit are kept: a number, falsy when it is 0,
    and an object that carries the number, truthy whatever it carries. *)
Inductive Energy : Type :=
| EnergyNumber (n : Z)
| EnergyObject (val : Z).

Definition energyValue (e : Energy) : Z :=
  match e with
  | EnergyNumber n => n
  | EnergyObject v => v
  end.

(** Modelled from the spec: the declaration of [ProcessItem] (./types) is
    not among the sources; an armor item has an
    identifier, an exclusivity label, a power, base stats, optional socket
    data and an optional energy indicator, and these are the fields that
    the code reads. [baseStats] has the type
    [{ [statHash: number]: number }]: every read of it yields a number, so
    it is a total function here. *)
Record ProcessItem : Type := mkItem {
  id : string;
  equippingLabel : option string;
  basePower : Z;
  baseStats : Z -> Z;
  itemSockets : option ProcessSockets;
  energy : option Energy
}.

Record IntermediateProcessArmorSet : Type := mkIntermediate {
  armor : list ProcessItem;
  stats : StatMap Z
}.

Record ProcessArmorSet : Type := mkArmorSet {
  armorIds : list string;
  setStats : StatMap Z
}.

(** Truthiness of the values the code tests. *)
Definition truthyString (s : option string) : bool :=
  match s with
  | Some EmptyString => false
  | Some _ => true
  | None => false
  end.

Definition truthyEnergy (e : option Energy) : bool :=
  match e with
  | Some (EnergyNumber n) => negb (n =? 0)
  | Some (EnergyObject _) => true
  | None => false
  end.

(** [obj[k] = v] on an object indexed by stat hash. *)
Definition setHash (f : Z -> Z) (k v : Z) : Z -> Z :=
  fun h => if h =? k then v else f h.

(** ** What the module imports

    [ProcessMod] and [ModPermutations] are the types of a locked mod and of
    what [generateModPermutations] returns; the optimizer only passes their
    values on. *)

Record Imports : Type := mkImports {
  (** [statHashes], the stat hash of each stat type *)
  statHashes : StatTypes -> Z;
  (** [TOTAL_STAT_HASH] *)
  TOTAL_STAT_HASH : Z;
  (** [DestinySocketCategoryStyle.EnergyMeter] *)
  EnergyMeter : Z;
  (** [getPower] of ../utils *)
  getPower : list ProcessItem -> Z;
  (** [armor2PlugCategoryHashesByName.general] *)
  generalPlugCategoryHash : Z;
  raidPlugCategoryHashes : list Z;
  knownModPlugCategoryHashes : list Z;
  ProcessMod : Type;
  ModPermutations : Type;
  generateModPermutations : list ProcessMod -> ModPermutations;
  canTakeSlotIndependantMods :
    ModPermutations -> ModPermutations -> ModPermutations ->
    list ProcessItem -> bool
}.

Section Optimizer.

Variable E : Imports.

(** ** The stat resolver *)

(** [for (const statHash of orderedStatValues) baseStats[statHash] += 2] *)
Definition addFlatMasterwork (orderedStatValues : list Z) (bs : Z -> Z)
  : Z -> Z :=
  fold_left (fun b statHash => setHash b statHash (b statHash + 2))
            orderedStatValues bs.

(** The hashes plugged into the sockets of the energy-meter category:
    [sockets.map(s => s.plug?.plugItemHash ?? NaN).filter(v => !isNaN(v))],
    and [[]] when there is no such category. *)
Definition masterworkSocketHashesOf (s : ProcessSockets) : list Z :=
  match find (fun c => categoryStyle c =? EnergyMeter E) (categories s) with
  | Some c =>
      flat_map (fun so => match plug so with
                          | Some p => [plugItemHash p]
                          | None => []
                          end) (categorySockets c)
  | None => []
  end.

(** The body of the loop over [item.sockets.sockets]. *)
Definition addPlugStats (masterworkSocketHashes orderedStatValues : list Z)
  (bs : Z -> Z) (so : ProcessSocket) : Z -> Z :=
  match plug so with
  | Some p =>
      match plugStats p with
      | Some pstats =>
          if existsb (Z.eqb (plugItemHash p)) masterworkSocketHashes then
            fold_left (fun b statHash =>
                         match pstats statHash with
                         | Some v => if v =? 0 then b
                                     else setHash b statHash (b statHash + v)
                         | None => b
                         end) orderedStatValues bs
          else bs
      | None => bs
      end
  | None => bs
  end.

Definition addMasterworkPlugs (s : ProcessSockets)
  (orderedStatValues : list Z) (bs : Z -> Z) : Z -> Z :=
  let masterworkSocketHashes := masterworkSocketHashesOf s in
  match masterworkSocketHashes with
  | [] => bs
  | _ :: _ =>
      fold_left (addPlugStats masterworkSocketHashes orderedStatValues)
                (sockets s) bs
  end.

Definition getStatValuesWithMWProcess (item : ProcessItem)
  (assumeMasterwork : bool) (orderedStatValues : list Z) : list Z :=
  let baseStats0 := baseStats item in
  let baseStats1 :=
    match itemSockets item with
    | Some s =>
        if truthyEnergy (energy item) then
          if assumeMasterwork || truthyEnergy (energy item) then
            addFlatMasterwork orderedStatValues baseStats0
          else
            addMasterworkPlugs s orderedStatValues baseStats0
        else baseStats0
    | None => baseStats0
    end in
  map (fun statHash => Z.max (baseStats1 statHash) 0) orderedStatValues.

(** The resolver as the specification words it: an item with socket data
    and a defined energy capacity gets the flat bonus when masterwork is
    assumed or the capacity is non-zero, and the bonuses of its
    energy-meter plugs otherwise. *)
Definition getStatValuesWithMW_spec (item : ProcessItem)
  (assumeMasterwork : bool) (orderedStatValues : list Z) : list Z :=
  let baseStats0 := baseStats item in
  let baseStats1 :=
    match itemSockets item, energy item with
    | Some s, Some e =>
        if assumeMasterwork || negb (energyValue e =? 0) then
          addFlatMasterwork orderedStatValues baseStats0
        else
          addMasterworkPlugs s orderedStatValues baseStats0
    | _, _ => baseStats0
    end in
  map (fun statHash => Z.max (baseStats1 statHash) 0) orderedStatValues.

(** Which of the three ways the code takes for an item. *)
Inductive MWBranch : Type := Untouched | FlatBonus | PlugBonus.

Definition mwBranch (item : ProcessItem) (assumeMasterwork : bool)
  : MWBranch :=
  match itemSockets item with
  | Some _ =>
      if truthyEnergy (energy item) then
        if assumeMasterwork || truthyEnergy (energy item) then FlatBonus
        else PlugBonus
      else Untouched
  | None => Untouched
  end.


(** ** The item comparator and the sort *)

Definition Comparator (T : Type) : Type := T -> T -> comparison.

(** Modelled from the spec: [compareBy] of utils/comparators is not among
    the sources; it orders two values by the key [fn] gives them, as the
    doc comment of [compareByStatOrder] uses it. *)
Definition compareBy {T : Type} (fn : T -> Z) : Comparator T :=
  fun a b => if fn a <? fn b then Lt else if fn a >? fn b then Gt else Eq.

(** Modelled from the spec: [chainComparator] of utils/comparators is not
    among the sources; it answers with the first comparator that tells
    the two values apart ("first by ..., and then by ..."). *)
Fixpoint chainComparator {T : Type} (compares : list (Comparator T))
  : Comparator T :=
  fun a b =>
    match compares with
    | [] => Eq
    | c :: cs => match c a b with
                 | Eq => chainComparator cs a b
                 | r => r
                 end
    end.

(** [_.sumBy] *)
Definition sumBy {T : Type} (l : list T) (f : T -> Z) : Z :=
  fold_left (fun acc x => acc + f x) l 0.

Definition compareByStatOrder (orderedConsideredStatHashes : list Z)
  : Comparator ProcessItem :=
  chainComparator
    ([compareBy (fun i =>
                   sumBy orderedConsideredStatHashes
                         (fun h => - baseStats i h))]
       ++ map (fun h => compareBy (fun i : ProcessItem => - baseStats i h))
              orderedConsideredStatHashes
       ++ [compareBy (fun i => - baseStats i (TOTAL_STAT_HASH E))]).

(** [Array.prototype.sort] is stable; the stable insertion sort stands
    for it. *)
Fixpoint insertSorted {T : Type} (cmp : Comparator T) (x : T) (l : list T)
  : list T :=
  match l with
  | [] => [x]
  | y :: l' => match cmp x y with
               | Gt => y :: insertSorted cmp x l'
               | _ => x :: l
               end
  end.

Definition sort {T : Type} (cmp : Comparator T) (l : list T) : list T :=
  fold_right (insertSorted cmp) [] l.

(** ** The cap on the number of combinations *)

Definition combosLimit : Z := 2000000.

Record ArmorLists : Type := mkLists {
  helms : list ProcessItem;
  gaunts : list ProcessItem;
  chests : list ProcessItem;
  legs : list ProcessItem;
  classItems : list ProcessItem
}.

Definition len {T : Type} (l : list T) : Z := Z.of_nat (List.length l).

(** [helms.length * gaunts.length * chests.length * legs.length *
    classItems.length] *)
Definition countCombos (L : ArmorLists) : Z :=
  len (helms L) * len (gaunts L) * len (chests L) * len (legs L)
  * len (classItems L).

Inductive Slot : Type := SHelms | SGaunts | SChests | SLegs.

Definition slotList (L : ArmorLists) (s : Slot) : list ProcessItem :=
  match s with
  | SHelms => helms L
  | SGaunts => gaunts L
  | SChests => chests L
  | SLegs => legs L
  end.

(** [l.pop()] on the list of a slot *)
Definition popSlot (L : ArmorLists) (s : Slot) : ArmorLists :=
  match s with
  | SHelms => mkLists (removelast (helms L)) (gaunts L) (chests L) (legs L) (classItems L)
  | SGaunts => mkLists (helms L) (removelast (gaunts L)) (chests L) (legs L) (classItems L)
  | SChests => mkLists (helms L) (gaunts L) (removelast (chests L)) (legs L) (classItems L)
  | SLegs => mkLists (helms L) (gaunts L) (chests L) (removelast (legs L)) (classItems L)
  end.

Fixpoint lastItem {T : Type} (l : list T) : option T :=
  match l with
  | [] => None
  | [x] => Some x
  | _ :: l' => lastItem l'
  end.

(** [l[l.length - 1].baseStats[TOTAL_STAT_HASH]]: reading [baseStats] of
    the [undefined] that an empty list gives throws. *)
Definition lastTotalStat (l : list ProcessItem) : Result Z :=
  match lastItem l with
  | Some i => Ok (baseStats i (TOTAL_STAT_HASH E))
  | None => TypeError
  end.

(** [_.minBy] on values whose keys are computed: the first value with
    the least key. *)
Fixpoint minByFrom {T : Type} (l : list (T * Z)) (result : T) (computed : Z)
  : T :=
  match l with
  | [] => result
  | (value, current) :: l' =>
      if current <? computed then minByFrom l' value current
      else minByFrom l' result computed
  end.

Definition lowestTotalStat (L : ArmorLists) : Result Slot :=
  h <- lastTotalStat (helms L) ;;
  g <- lastTotalStat (gaunts L) ;;
  c <- lastTotalStat (chests L) ;;
  l <- lastTotalStat (legs L) ;;
  Ok (minByFrom [(SGaunts, g); (SChests, c); (SLegs, l)] SHelms h).

(** [while (combos > combosLimit) { ... }] *)
Fixpoint trimLoop (fuel : nat) (L : ArmorLists) : Result ArmorLists :=
  if countCombos L >? combosLimit then
    match fuel with
    | O => OutOfFuel
    | S fuel' =>
        s <- lowestTotalStat L ;;
        trimLoop fuel' (popSlot L s)
    end
  else Ok L.

(** Fuel that the loop cannot use up: it pops one item each round. *)
Definition trimFuel (L : ArmorLists) : nat :=
  (List.length (helms L) + List.length (gaunts L)
   + List.length (chests L) + List.length (legs L))%nat.

(** ** The set tracker *)

Definition RETURNED_ARMOR_SETS : Z := 200.

Record StatMixGroup : Type := mkMix {
  statMix : string;
  armorSets : list IntermediateProcessArmorSet
}.

Record TierGroup : Type := mkTier {
  tier : Z;
  statMixes : list StatMixGroup
}.

Definition SetTracker : Type := list TierGroup.

(** [a > b] on strings *)
Definition stringGt (a b : string) : bool :=
  match String.compare a b with
  | Gt => true
  | _ => false
  end.

(** The loop over [currentStatMix.armorSets]: its body returns in the
    first round, and [None] says the loop ended without a return. *)
Definition insertArmorSet (armorSet : IntermediateProcessArmorSet)
  (sets : list IntermediateProcessArmorSet)
  : option (list IntermediateProcessArmorSet) :=
  match sets with
  | [] => None
  | first :: _ =>
      if getPower E (armor armorSet) >? getPower E (armor first)
      then Some (armorSet :: sets)
      else Some (sets ++ [armorSet])
  end.

(** The loop over [currentStatMixes], from [statMixIndex] on. *)
Fixpoint insertStatMix (statMix0 : string)
  (armorSet : IntermediateProcessArmorSet) (mixes : list StatMixGroup)
  : option (list StatMixGroup) :=
  match mixes with
  | [] => None
  | currentStatMix :: rest =>
      if stringGt statMix0 (statMix currentStatMix) then
        Some (mkMix statMix0 [armorSet] :: mixes)
      else
        match (if String.eqb (statMix currentStatMix) statMix0
               then insertArmorSet armorSet (armorSets currentStatMix)
               else None) with
        | Some sets' => Some (mkMix (statMix currentStatMix) sets' :: rest)
        | None =>
            match rest with
            | [] => Some [currentStatMix; mkMix statMix0 [armorSet]]
            | _ :: _ =>
                option_map (cons currentStatMix)
                           (insertStatMix statMix0 armorSet rest)
            end
        end
  end.

(** The loop over [setTracker], from [tierIndex] on. *)
Fixpoint insertTier (tier0 : Z) (statMix0 : string)
  (armorSet : IntermediateProcessArmorSet) (tracker : SetTracker)
  : SetTracker :=
  match tracker with
  | [] => []
  | currentTier :: rest =>
      if tier0 >? tier currentTier then
        mkTier tier0 [mkMix statMix0 [armorSet]] :: tracker
      else
        match (if tier0 =? tier currentTier
               then insertStatMix statMix0 armorSet (statMixes currentTier)
               else None) with
        | Some mixes' => mkTier (tier currentTier) mixes' :: rest
        | None =>
            match rest with
            | [] => [currentTier; mkTier tier0 [mkMix statMix0 [armorSet]]]
            | _ :: _ => currentTier :: insertTier tier0 statMix0 armorSet rest
            end
        end
  end.

Definition insertIntoSetTracker (tier0 : Z) (statMix0 : string)
  (armorSet : IntermediateProcessArmorSet) (setTracker : SetTracker)
  : SetTracker :=
  match setTracker with
  | [] => [mkTier tier0 [mkMix statMix0 [armorSet]]]
  | _ :: _ => insertTier tier0 statMix0 armorSet setTracker
  end.

(** [setTracker.map(set => set.statMixes.map(mix => mix.armorSets)).flat(2)] *)
Definition finalSets (setTracker : SetTracker)
  : list IntermediateProcessArmorSet :=
  flat_map (fun set => flat_map armorSets (statMixes set)) setTracker.

Definition flattenSets (l : list IntermediateProcessArmorSet)
  : list ProcessArmorSet :=
  map (fun set => mkArmorSet (map id (armor set)) (stats set)) l.

(** ** One combination *)

(** Modelled from the spec: [statTier] of ../utils is not among the
    sources; the tier of a stat is floor(value / 10). *)
Definition statTier (stat : Z) : Z := stat / 10.

(** [tiers += tier]: the decimal text of an integer. *)
Definition numberToString (n : Z) : string :=
  NilZero.string_of_int (Z.to_int n).

(** What the code does with a combination, kept beside the state so that
    the calls of the mod-compatibility predicate and the insertions can be
    told; the most recent comes first. It is no variable of the code. *)
Inductive Event : Type :=
| ModCheck (armor0 : list ProcessItem)
| Inserted (armor0 : list ProcessItem).

(** The variables of [process] that the loops update. *)
Record State : Type := mkState {
  setTracker : SetTracker;
  lowestTier : Z;
  setCount : Z;
  statRanges : StatMap MinMax;
  trace : list Event
}.

(** [removelast l ++ [x]]: the last element updated in place. *)
Definition setLast {T : Type} (l : list T) (x : T) : list T :=
  removelast l ++ [x].

(** The block under [if (setCount > RETURNED_ARMOR_SETS)], without the
    counter: the tracker after it, and [lowestTier]. *)
Definition dropWorstSet (tracker : SetTracker) (lowestTier0 : Z)
  : Result (SetTracker * Z) :=
  match lastItem tracker with
  | None => TypeError
  | Some lowestTierSet =>
      match lastItem (statMixes lowestTierSet) with
      | None => TypeError
      | Some worstMix =>
          let sets' := removelast (armorSets worstMix) in
          if len sets' =? 0 then
            let mixes' := removelast (statMixes lowestTierSet) in
            if len mixes' =? 0 then
              let tracker' := removelast tracker in
              match lastItem tracker' with
              | None => TypeError
              | Some t => Ok (tracker', tier t)
              end
            else
              Ok (setLast tracker (mkTier (tier lowestTierSet) mixes'),
                  lowestTier0)
          else
            Ok (setLast tracker
                  (mkTier (tier lowestTierSet)
                     (setLast (statMixes lowestTierSet)
                        (mkMix (statMix worstMix) sets'))),
                lowestTier0)
      end
  end.

Section Enumeration.

Variable modStatTotals : StatMap Z.
Variable assumeMasterwork : bool.
Variable statOrder : list StatTypes.
Variable statFilters : StatMap MinMaxIgnored.
Variable hasMods : bool.
Variable generalModsPermutations : ModPermutations E.
Variable otherModPermutations : ModPermutations E.
Variable raidModPermutations : ModPermutations E.

Definition orderedStatHashes : list Z := map (statHashes E) statOrder.

Definition orderedConsideredStats : list StatTypes :=
  filter (fun statType => negb (ignored (getStat statFilters statType)))
         statOrder.

Definition orderedConsideredStatHashes : list Z :=
  map (statHashes E) orderedConsideredStats.

(** [statsCache.get(item)]: the cache is filled for every item of the five
    lists with the resolver's answer, which depends on the item alone, so a
    read of it is that answer. *)
Definition statsCache (item : ProcessItem) : list Z :=
  getStatValuesWithMWProcess item assumeMasterwork orderedStatHashes.

(** [for (const statType of statOrder) { stats[statType] += itemStats[index];
    index++ }]; [itemStats] is as long as [statOrder], so the read is
    within the array. *)
Fixpoint addItemStats (stats0 : StatMap Z) (order : list StatTypes)
  (itemStats : list Z) (index : nat) : StatMap Z :=
  match order with
  | [] => stats0
  | statType :: rest =>
      addItemStats
        (setStat stats0 statType
                 (getStat stats0 statType + nth index itemStats 0))
        rest itemStats (S index)
  end.

Definition aggregateStats (armor0 : list ProcessItem) : StatMap Z :=
  fold_left (fun stats0 item => addItemStats stats0 statOrder (statsCache item) 0%nat)
            armor0 modStatTotals.

(** The variables of the loop over [orderedConsideredStats]. *)
Record TierAcc : Type := mkAcc {
  accStats : StatMap Z;
  accRanges : StatMap MinMax;
  tiers : string;
  totalTier : Z;
  accIndex : Z
}.

(** The tier of the stat the loop is at, after the clamp to 100. *)
Definition clampStat (stats0 : StatMap Z) (statKey : StatTypes) : StatMap Z :=
  if getStat stats0 statKey >? 100 then setStat stats0 statKey 100
  else stats0.

Definition foldRange (ranges : StatMap MinMax) (statKey : StatTypes)
  (tier0 : Z) : StatMap MinMax :=
  let ranges1 :=
    if tier0 >? mmMax (getStat ranges statKey)
    then setStat ranges statKey (mkMinMax (mmMin (getStat ranges statKey)) tier0)
    else ranges in
  if tier0 <? mmMin (getStat ranges1 statKey)
  then setStat ranges1 statKey (mkMinMax tier0 (mmMax (getStat ranges1 statKey)))
  else ranges1.

(** The loop over [orderedConsideredStats]; the boolean is
    [statRangeExceeded]. *)
Fixpoint tierLoop (considered : list StatTypes) (acc : TierAcc)
  : bool * TierAcc :=
  match considered with
  | [] => (false, acc)
  | statKey :: rest =>
      let stats1 := clampStat (accStats acc) statKey in
      let tier0 := statTier (getStat stats1 statKey) in
      let ranges1 := foldRange (accRanges acc) statKey tier0 in
      if (tier0 >? max (getStat statFilters statKey))
         || (tier0 <? min (getStat statFilters statKey))
      then (true, mkAcc stats1 ranges1 (tiers acc) (totalTier acc) (accIndex acc))
      else
        let tiers1 := (tiers acc ++ numberToString tier0)%string in
        let tiers2 := if accIndex acc <? len statOrder - 1
                      then (tiers1 ++ ",")%string else tiers1 in
        tierLoop rest
                 (mkAcc stats1 ranges1 tiers2 (totalTier acc + tier0)
                        (accIndex acc + 1))
  end.

(** The body of the innermost loop, for [armor = [helm, gaunt, chest, leg,
    classItem]]. *)
Definition considerCombination (armor0 : list ProcessItem) (st : State)
  : Result State :=
  let '(statRangeExceeded, acc) :=
    tierLoop orderedConsideredStats
             (mkAcc (aggregateStats armor0) (statRanges st) "" 0 0) in
  let st1 := mkState (setTracker st) (lowestTier st) (setCount st)
                     (accRanges acc) (trace st) in
  if statRangeExceeded then Ok st1
  else
    match (if totalTier acc <? lowestTier st1
           then if setCount st1 <=? RETURNED_ARMOR_SETS
                then Some (totalTier acc) else None
           else Some (lowestTier st1)) with
    | None => Ok st1
    | Some lowestTier1 =>
        let trace1 := if hasMods then ModCheck armor0 :: trace st1
                      else trace st1 in
        if hasMods
           && negb (canTakeSlotIndependantMods E generalModsPermutations
                      otherModPermutations raidModPermutations armor0)
        then Ok (mkState (setTracker st1) lowestTier1 (setCount st1)
                         (statRanges st1) trace1)
        else
          let newArmorSet := mkIntermediate armor0 (accStats acc) in
          let tracker1 :=
            insertIntoSetTracker (totalTier acc) (tiers acc) newArmorSet
                                 (setTracker st1) in
          let setCount1 := setCount st1 + 1 in
          let trace2 := Inserted armor0 :: trace1 in
          if setCount1 >? RETURNED_ARMOR_SETS then
            r <- dropWorstSet tracker1 lowestTier1 ;;
            Ok (mkState (fst r) (snd r) (setCount1 - 1) (statRanges st1) trace2)
          else
            Ok (mkState tracker1 lowestTier1 setCount1 (statRanges st1) trace2)
    end.

(** The five nested loops, with their [continue]s. *)
Definition enumerate (L : ArmorLists) (st0 : State) : Result State :=
  forOf (fun helm =>
    forOf (fun gaunt st =>
      if truthyString (equippingLabel helm)
         && truthyString (equippingLabel gaunt)
      then Ok st
      else
        forOf (fun chest st =>
          if truthyString (equippingLabel chest)
             && (truthyString (equippingLabel helm)
                 || truthyString (equippingLabel gaunt))
          then Ok st
          else
            forOf (fun leg st =>
              if truthyString (equippingLabel leg)
                 && (truthyString (equippingLabel chest)
                     || truthyString (equippingLabel helm)
                     || truthyString (equippingLabel gaunt))
              then Ok st
              else
                forOf (fun classItem =>
                         considerCombination
                           [helm; gaunt; chest; leg; classItem])
                      (classItems L) st)
            (legs L) st)
        (chests L) st)
    (gaunts L))
  (helms L) st0.

(** The [armor] arrays [[helm, gaunt, chest, leg, classItem]] for which the
    five loops reach the innermost body, in the order in which they reach
    it. *)
Definition combinations (L : ArmorLists) : list (list ProcessItem) :=
  flat_map (fun helm =>
    flat_map (fun gaunt =>
      if truthyString (equippingLabel helm)
         && truthyString (equippingLabel gaunt)
      then []
      else
        flat_map (fun chest =>
          if truthyString (equippingLabel chest)
             && (truthyString (equippingLabel helm)
                 || truthyString (equippingLabel gaunt))
          then []
          else
            flat_map (fun leg =>
              if truthyString (equippingLabel leg)
                 && (truthyString (equippingLabel chest)
                     || truthyString (equippingLabel helm)
                     || truthyString (equippingLabel gaunt))
              then []
              else
                map (fun classItem => [helm; gaunt; chest; leg; classItem])
                    (classItems L))
            (legs L))
        (chests L))
    (gaunts L))
  (helms L).

Definition initialRange (statType : StatTypes) : MinMax :=
  if ignored (getStat statFilters statType)
  then mkMinMax 0 10 else mkMinMax 10 0.

Definition initialState : State :=
  mkState [] 100 0
          (mkStatMap (initialRange Mobility) (initialRange Resilience)
                     (initialRange Recovery) (initialRange Discipline)
                     (initialRange Intellect) (initialRange Strength))
          [].

End Enumeration.

(** ** The entry point *)

(** [filteredItems], read at the five armor buckets of [LockableBuckets];
    [None] is a bucket the object does not hold. The five arrays are taken
    to be five different arrays. *)
Record ProcessItemsByBucket : Type := mkBuckets {
  helmet : option (list ProcessItem);
  gauntlets : option (list ProcessItem);
  chest : option (list ProcessItem);
  leg : option (list ProcessItem);
  classitem : option (list ProcessItem)
}.

(** [(filteredItems[bucket] || []).sort(itemComparator)] *)
Definition sortedBucket (cmp : Comparator ProcessItem)
  (bucket : option (list ProcessItem)) : list ProcessItem :=
  sort cmp (match bucket with Some l => l | None => [] end).

(** The caller's array after the call: the array of the bucket is the one
    that was sorted and popped; the [[]] that stands in for a missing
    bucket is not the caller's. *)
Definition callerArray (bucket : option (list ProcessItem))
  (now : list ProcessItem) : option (list ProcessItem) :=
  match bucket with
  | Some _ => Some now
  | None => None
  end.

Record ModLists : Type := mkMods {
  generalMods : list (ProcessMod E);
  otherMods : list (ProcessMod E);
  raidMods : list (ProcessMod E)
}.

(** The loop over [Object.entries(lockedModMap)]. *)
Definition sortMods (lockedModMap : list (Z * list (ProcessMod E)))
  : ModLists :=
  fold_left
    (fun m entry =>
       let pch := fst entry in
       let mods := snd entry in
       if pch =? generalPlugCategoryHash E then
         mkMods (generalMods m ++ mods) (otherMods m) (raidMods m)
       else if existsb (Z.eqb pch) (raidPlugCategoryHashes E) then
         mkMods (generalMods m) (otherMods m) (raidMods m ++ mods)
       else if negb (existsb (Z.eqb pch) (knownModPlugCategoryHashes E)) then
         mkMods (generalMods m) (otherMods m ++ mods) (raidMods m)
       else m)
    lockedModMap (mkMods [] [] []).

(** [otherMods.length || raidMods.length || generalMods.length] *)
Definition hasModsOf (m : ModLists) : bool :=
  negb (len (otherMods m) =? 0) || negb (len (raidMods m) =? 0)
  || negb (len (generalMods m) =? 0).

(** What [process] returns. [outStatRanges] is [None] where the returned
    object has no [statRanges]. *)
Record ProcessOutput : Type := mkOutput {
  sets : list ProcessArmorSet;
  combos : Z;
  combosWithoutCaps : Z;
  outStatRanges : option (StatMap MinMax)
}.

(** A run of [process] up to its [return]: the five lists as the call
    leaves them, the two counters, and the state of the loops, which is
    [None] on the early return. *)
Record Run : Type := mkRun {
  runLists : ArmorLists;
  runCombosWithoutCaps : Z;
  runCombos : Z;
  runFinal : option State
}.

(** The five lists after the sort. *)
Definition sortedLists (filteredItems : ProcessItemsByBucket)
  (statOrder : list StatTypes) (statFilters : StatMap MinMaxIgnored)
  : ArmorLists :=
  let itemComparator :=
    compareByStatOrder (orderedConsideredStatHashes statOrder statFilters) in
  mkLists (sortedBucket itemComparator (helmet filteredItems))
          (sortedBucket itemComparator (gauntlets filteredItems))
          (sortedBucket itemComparator (chest filteredItems))
          (sortedBucket itemComparator (leg filteredItems))
          (sortedBucket itemComparator (classitem filteredItems)).

Definition processRun (filteredItems : ProcessItemsByBucket)
  (modStatTotals : StatMap Z) (lockedModMap : list (Z * list (ProcessMod E)))
  (assumeMasterwork : bool) (statOrder : list StatTypes)
  (statFilters : StatMap MinMaxIgnored) : Result Run :=
  let L0 := sortedLists filteredItems statOrder statFilters in
  let combosWithoutCaps0 := countCombos L0 in
  L <- trimLoop (trimFuel L0) L0 ;;
  let combos0 := countCombos L in
  if combos0 =? 0 then Ok (mkRun L combosWithoutCaps0 combos0 None)
  else
    let m := sortMods lockedModMap in
    st <- enumerate modStatTotals assumeMasterwork statOrder statFilters
                    (hasModsOf m)
                    (generateModPermutations E (generalMods m))
                    (generateModPermutations E (otherMods m))
                    (generateModPermutations E (raidMods m))
                    L (initialState statFilters) ;;
    Ok (mkRun L combosWithoutCaps0 combos0 (Some st)).

Definition outputOf (r : Run) : ProcessOutput :=
  match runFinal r with
  | None => mkOutput [] 0 0 None
  | Some st =>
      mkOutput (flattenSets (finalSets (setTracker st)))
               (runCombos r) (runCombosWithoutCaps r) (Some (statRanges st))
  end.

Definition callerArrays (filteredItems : ProcessItemsByBucket) (L : ArmorLists)
  : ProcessItemsByBucket :=
  mkBuckets (callerArray (helmet filteredItems) (helms L))
            (callerArray (gauntlets filteredItems) (gaunts L))
            (callerArray (chest filteredItems) (chests L))
            (callerArray (leg filteredItems) (legs L))
            (callerArray (classitem filteredItems) (classItems L)).

(** [process]: the returned object, and [filteredItems] as the call leaves
    it. *)
Definition process (filteredItems : ProcessItemsByBucket)
  (modStatTotals : StatMap Z) (lockedModMap : list (Z * list (ProcessMod E)))
  (assumeMasterwork : bool) (statOrder : list StatTypes)
  (statFilters : StatMap MinMaxIgnored)
  : Result (ProcessOutput * ProcessItemsByBucket) :=
  r <- processRun filteredItems modStatTotals lockedModMap assumeMasterwork
                  statOrder statFilters ;;
  Ok (outputOf r, callerArrays filteredItems (runLists r)).

(** ** Predicates of the statements *)

(** No group of the tracker is empty. *)
Definition mixesWellFormed (mixes : list StatMixGroup) : Prop :=
  Forall (fun m => armorSets m <> []) mixes.

Definition trackerWellFormed (tracker : SetTracker) : Prop :=
  Forall (fun t => statMixes t <> [] /\ mixesWellFormed (statMixes t))
         tracker.

(** [headAbove gt x l]: [x] is above the first element of [l], if any. *)
Definition headAbove {K : Type} (gt : K -> K -> bool) (x : K) (l : list K)
  : Prop :=
  match l with
  | [] => True
  | y :: _ => gt x y = true
  end.

(** Each element is above the next one. *)
Fixpoint descending {K : Type} (gt : K -> K -> bool) (l : list K) : Prop :=
  match l with
  | [] => True
  | x :: l' => headAbove gt x l' /\ descending gt l'
  end.

(** [x] does not come after [y] in the order of the comparator. *)
Definition notAfter {T : Type} (cmp : Comparator T) (x y : T) : bool :=
  match cmp x y with
  | Gt => false
  | _ => true
  end.

(** The tier groups come by strictly descending tier, and the groups of a
    tier by strictly descending signature under [>] on strings. *)
Definition trackerSorted (tracker : SetTracker) : Prop :=
  descending Z.gtb (map tier tracker)
  /\ Forall (fun t => descending stringGt (map statMix (statMixes t)))
            tracker.

Definition trackerOrdered (tracker : SetTracker) : Prop :=
  trackerWellFormed tracker /\ trackerSorted tracker.

(** Between two combinations: no group is empty, the groups are in order,
    [setCount] counts the sets of the tracker, it is within the cap, and
    every tracked set satisfies [P]. *)
Definition trackerInv (P : IntermediateProcessArmorSet -> Prop) (st : State)
  : Prop :=
  trackerOrdered (setTracker st)
  /\ len (finalSets (setTracker st)) = setCount st
  /\ setCount st <= RETURNED_ARMOR_SETS
  /\ Forall P (finalSets (setTracker st)).

(** The counter [setCount] is the number of sets in the tracker, and it is
    within the cap. *)
Definition withinCap (st : State) : Prop :=
  len (finalSets (setTracker st)) = setCount st
  /\ setCount st <= RETURNED_ARMOR_SETS.

(** [tracker'] is [tracker] without its globally worst entry: the last set
    of the last signature group of the last tier group. *)
Definition evictsLast (tracker tracker' : SetTracker) : Prop :=
  exists lastTier lastMix worst,
    lastItem tracker = Some lastTier
    /\ lastItem (statMixes lastTier) = Some lastMix
    /\ lastItem (armorSets lastMix) = Some worst
    /\ finalSets tracker = finalSets tracker' ++ [worst].


(** A removal as the specification words it: the last item goes from a
    list, among the four that may be trimmed, whose last item has the
    lowest total stat. *)
Definition popsWeakest (L L' : ArmorLists) : Prop :=
  exists s v,
    lastTotalStat (slotList L s) = Ok v
    /\ (forall s' v', lastTotalStat (slotList L s') = Ok v' -> v <= v')
    /\ L' = popSlot L s.

(** A run of such removals, each made while the product of the lengths is
    above the limit. *)
Definition trimsTo : ArmorLists -> ArmorLists -> Prop :=
  clos_refl_trans_1n ArmorLists
    (fun L L' => combosLimit < countCombos L /\ popsWeakest L L').

(** The lists [L'] are front parts of the lists [L]; the class items are
    the same. *)
Definition frontOf (L' L : ArmorLists) : Prop :=
  (exists p, helms L = helms L' ++ p)
  /\ (exists p, gaunts L = gaunts L' ++ p)
  /\ (exists p, chests L = chests L' ++ p)
  /\ (exists p, legs L = legs L' ++ p)
  /\ classItems L = classItems L'.

(** [visits statFilters considered stats k t]: the loop over [considered],
    started with the aggregate [stats], computes the tier [t] for the stat
    [k], that is, every stat before [k] is within its filter. *)
Inductive visits (statFilters : StatMap MinMaxIgnored)
  : list StatTypes -> StatMap Z -> StatTypes -> Z -> Prop :=
| visits_here : forall k rest stats0,
    visits statFilters (k :: rest) stats0 k
           (statTier (getStat (clampStat stats0 k) k))
| visits_later : forall k rest stats0 k' t,
    (statTier (getStat (clampStat stats0 k) k) >? max (getStat statFilters k))
    || (statTier (getStat (clampStat stats0 k) k) <? min (getStat statFilters k))
    = false ->
    visits statFilters rest (clampStat stats0 k) k' t ->
    visits statFilters (k :: rest) stats0 k' t.

Definition covers (r : StatMap MinMax) (k : StatTypes) (t : Z) : Prop :=
  mmMin (getStat r k) <= t <= mmMax (getStat r k).

Definition widens (r r' : StatMap MinMax) : Prop :=
  forall k, mmMin (getStat r' k) <= mmMin (getStat r k)
            /\ mmMax (getStat r k) <= mmMax (getStat r' k).

(** The ranges of a later state against those of an earlier one: wider or
    the same, and the same for a stat that is not considered. *)
Definition rangesGrow (considered : list StatTypes) (s s' : State) : Prop :=
  widens (statRanges s) (statRanges s')
  /\ forall k, ~ In k considered ->
               getStat (statRanges s') k = getStat (statRanges s) k.

(** The ranges of [s] hold every tier that the loop over the considered
    stats computes for the selection [armor0]. *)
Definition tiersCovered (modStatTotals : StatMap Z) (assumeMasterwork : bool)
  (statOrder : list StatTypes) (statFilters : StatMap MinMaxIgnored)
  (armor0 : list ProcessItem) (s : State) : Prop :=
  forall k t,
    visits statFilters (orderedConsideredStats statOrder statFilters)
           (aggregateStats modStatTotals assumeMasterwork statOrder armor0)
           k t ->
    covers (statRanges s) k t.

(** Each bound of each range of [r] is the bound that [init] gives the
    stat, or a tier that the loop over the considered stats computes for
    the stat and a selection that satisfies [from]. *)
Definition boundsObserved (modStatTotals : StatMap Z) (assumeMasterwork : bool)
  (statOrder : list StatTypes) (statFilters : StatMap MinMaxIgnored)
  (from : list ProcessItem -> Prop) (init : StatTypes -> MinMax)
  (r : StatMap MinMax) : Prop :=
  forall k,
    (mmMin (getStat r k) = mmMin (init k)
     \/ exists armor0,
          from armor0
          /\ visits statFilters (orderedConsideredStats statOrder statFilters)
                    (aggregateStats modStatTotals assumeMasterwork statOrder
                                    armor0)
                    k (mmMin (getStat r k)))
    /\ (mmMax (getStat r k) = mmMax (init k)
        \/ exists armor0,
             from armor0
             /\ visits statFilters
                       (orderedConsideredStats statOrder statFilters)
                       (aggregateStats modStatTotals assumeMasterwork
                                       statOrder armor0)
                       k (mmMax (getStat r k))).

(** One item from each of the five lists, in the order of the slots. *)
Definition selectionOf (L : ArmorLists) (items : list ProcessItem) : Prop :=
  exists helm gaunt chest0 leg0 classItem,
    items = [helm; gaunt; chest0; leg0; classItem]
    /\ In helm (helms L) /\ In gaunt (gaunts L) /\ In chest0 (chests L)
    /\ In leg0 (legs L) /\ In classItem (classItems L).

(** The selections that reach the innermost loop body. *)
Definition enumerated (L : ArmorLists) (armor0 : list ProcessItem) : Prop :=
  exists helm gaunt chest0 leg0 classItem,
    armor0 = [helm; gaunt; chest0; leg0; classItem]
    /\ In helm (helms L) /\ In gaunt (gaunts L) /\ In chest0 (chests L)
    /\ In leg0 (legs L) /\ In classItem (classItems L)
    /\ truthyString (equippingLabel helm)
       && truthyString (equippingLabel gaunt) = false
    /\ truthyString (equippingLabel chest0)
       && (truthyString (equippingLabel helm)
           || truthyString (equippingLabel gaunt)) = false
    /\ truthyString (equippingLabel leg0)
       && (truthyString (equippingLabel chest0)
           || truthyString (equippingLabel helm)
           || truthyString (equippingLabel gaunt)) = false.

(** The caller's array of a slot that may be trimmed. *)
Definition bucketOf (b : ProcessItemsByBucket) (s : Slot)
  : option (list ProcessItem) :=
  match s with
  | SHelms => helmet b
  | SGaunts => gauntlets b
  | SChests => chest b
  | SLegs => leg b
  end.

(** The five arrays of the caller as lists, [[]] for a missing bucket. *)
Definition listsOf (b : ProcessItemsByBucket) : ArmorLists :=
  let orEmpty (o : option (list ProcessItem)) :=
    match o with Some l => l | None => [] end in
  mkLists (orEmpty (helmet b)) (orEmpty (gauntlets b)) (orEmpty (chest b))
          (orEmpty (leg b)) (orEmpty (classitem b)).

(** A caller's array after the call, against the array before it: sorted,
    then shortened from its end. *)
Definition sortedThenPopped (cmp : Comparator ProcessItem)
  (before after : option (list ProcessItem)) : Prop :=
  match before, after with
  | Some l, Some l' => exists popped, sort cmp l = l' ++ popped
  | None, None => True
  | _, _ => False
  end.

(** ** Predicates of the further properties *)

(** Every signature group of every tier group satisfies [G], which is given
    the tier, the signature and the sets of the group. *)
Definition trackerGroups
  (G : Z -> string -> list IntermediateProcessArmorSet -> Prop)
  (tracker : SetTracker) : Prop :=
  Forall (fun tg =>
            Forall (fun m => G (tier tg) (statMix m) (armorSets m))
                   (statMixes tg))
         tracker.

(** No set of a group is stronger than the first set of the group. *)
Definition firstIsStrongest (sets0 : list IntermediateProcessArmorSet)
  : Prop :=
  match sets0 with
  | [] => True
  | first :: rest =>
      Forall (fun s => getPower E (armor s) <= getPower E (armor first)) rest
  end.

(** The clamp of the loop over the considered stats, for all of them. *)
Definition clampConsidered (considered : list StatTypes) (stats0 : StatMap Z)
  : StatMap Z :=
  fold_left clampStat considered stats0.

(** The total tier of a stat vector: the sum of the tiers of the considered
    stats. *)
Fixpoint totalTierOf (considered : list StatTypes) (stats0 : StatMap Z) : Z :=
  match considered with
  | [] => 0
  | k :: rest => statTier (getStat stats0 k) + totalTierOf rest stats0
  end.

(** The signature of a stat vector: the tiers of the considered stats, from
    the position [index] on, each followed by a comma while the position is
    before the last of [statOrder]. *)
Fixpoint signatureFrom (statOrder considered : list StatTypes)
  (stats0 : StatMap Z) (index : Z) : string :=
  match considered with
  | [] => EmptyString
  | k :: rest =>
      String.append
        (numberToString (statTier (getStat stats0 k)))
        (String.append
           (if index <? len statOrder - 1 then "," else "")
           (signatureFrom statOrder rest stats0 (index + 1)))
  end.

(** The set [s] is what the body of the innermost loop makes of a selection
    that reaches it and passes the filters, and [t] and [sm] are the total
    tier and the signature the loop computes for it. *)
Definition trackedAs (modStatTotals : StatMap Z) (assumeMasterwork : bool)
  (statOrder : list StatTypes) (statFilters : StatMap MinMaxIgnored)
  (L : ArmorLists) (t : Z) (sm : string) (s : IntermediateProcessArmorSet)
  : Prop :=
  enumerated L (armor s)
  /\ exists ranges acc,
       tierLoop statOrder statFilters
                (orderedConsideredStats statOrder statFilters)
                (mkAcc (aggregateStats modStatTotals assumeMasterwork
                                       statOrder (armor s))
                       ranges "" 0 0) = (false, acc)
       /\ stats s = accStats acc
       /\ t = totalTier acc
       /\ sm = tiers acc.

(** The order of the result on the pair of total tier and signature: a
    higher tier, or the same tier and a signature that is the same or
    above. *)
Definition keyNotBelow (k1 k2 : Z * string) : Prop :=
  fst k1 > fst k2
  \/ (fst k1 = fst k2
      /\ (snd k1 = snd k2 \/ stringGt (snd k1) (snd k2) = true)).

(** The sum of the stats of an item over the given stat hashes. *)
Definition statSum (hashes : list Z) (i : ProcessItem) : Z :=
  sumBy hashes (fun h => baseStats i h).

End Optimizer.

(** ** Concrete imports and inputs *)

Module Sample.

(** Stat hashes 1 to 6, total stat hash 0; the power of a set is the sum of
    its items' powers; mods always fit. *)
Definition hashOf (s : StatTypes) : Z :=
  match s with
  | Mobility => 1 | Resilience => 2 | Recovery => 3
  | Discipline => 4 | Intellect => 5 | Strength => 6
  end.

Definition imports : Imports :=
  mkImports hashOf 0 77
            (fun items => fold_left (fun acc i => acc + basePower i) items 0)
            50 [51; 52] [50; 51; 52; 53]
            unit unit (fun _ => tt) (fun _ _ _ _ => true).

Definition allStats : list StatTypes :=
  [Mobility; Resilience; Recovery; Discipline; Intellect; Strength].

Definition noMods : StatMap Z := mkStatMap 0 0 0 0 0 0.

Definition anyTier : MinMaxIgnored := mkMinMaxIgnored 0 10 false.

Definition noFilters : StatMap MinMaxIgnored :=
  mkStatMap anyTier anyTier anyTier anyTier anyTier anyTier.

(** An item without sockets whose six stats are all [v] (total [6 * v]). *)
Definition plainItem (name : string) (power v : Z) : ProcessItem :=
  mkItem name None power (fun h => if h =? 0 then 6 * v else v) None None.

(** One item per slot but the helmets, each with all stats 10. *)
Definition single (name : string) : list ProcessItem := [plainItem name 0 10].

Definition bucketsWith (helmets : list ProcessItem) : ProcessItemsByBucket :=
  mkBuckets (Some helmets) (Some (single "gauntlets")) (Some (single "chest"))
            (Some (single "leg")) (Some (single "class")).

Definition armorWith (helm : ProcessItem) : list ProcessItem :=
  [helm; plainItem "gauntlets" 0 10; plainItem "chest" 0 10;
   plainItem "leg" 0 10; plainItem "class" 0 10].

(** Three helmets with the same stats and the powers 1050, 1025 and 1035,
    beside items of the power 1000: the sets have the powers 5050, 5025 and
    5035 by the sum, and 1010, 1005 and 1007 by the mean. *)
Definition threePowers : ProcessItemsByBucket :=
  mkBuckets (Some [plainItem "power1050" 1050 10; plainItem "power1025" 1025 10;
                   plainItem "power1035" 1035 10])
            (Some [plainItem "gauntlets" 1000 10])
            (Some [plainItem "chest" 1000 10])
            (Some [plainItem "leg" 1000 10])
            (Some [plainItem "class" 1000 10]).

(** The imports with the power of a set as the mean of its items' powers,
    rounded down. *)
Definition importsWithMean : Imports :=
  mkImports hashOf 0 77
            (fun items =>
               fold_left (fun acc i => acc + basePower i) items 0 / len items)
            50 [51; 52] [50; 51; 52; 53]
            unit unit (fun _ => tt) (fun _ _ _ _ => true).

(** An item with sockets whose energy-meter category holds the plug 7; the
    plug gives +5 to the stat with hash 1. Its [energy] is [e]. *)
Definition meterPlug : ProcessPlug :=
  mkPlug 7 (Some (fun h => if h =? 1 then Some 5 else None)).

Definition meterSockets : ProcessSockets :=
  mkSockets [mkSocket (Some meterPlug)]
            [mkCategory 77 [mkSocket (Some meterPlug)]].

Definition meterItem (e : option Energy) : ProcessItem :=
  mkItem "meter" None 0 (fun _ => 10) (Some meterSockets) e.

(** Mobility must be of tier 8 at least. *)
Definition mobilityFloor : StatMap MinMaxIgnored :=
  mkStatMap (mkMinMaxIgnored 8 10 false)
            anyTier anyTier anyTier anyTier anyTier.

(** Mobility is ignored, and the mods give 150 of it. *)
Definition ignoreMobility : StatMap MinMaxIgnored :=
  mkStatMap (mkMinMaxIgnored 0 10 true)
            anyTier anyTier anyTier anyTier anyTier.

Definition mobilityMods : StatMap Z := mkStatMap 150 0 0 0 0 0.

(** 200 helmets that make a set of total tier 30 and one that makes a set
    of total tier 24, with one general mod locked. *)
Definition strongHelmets : list ProcessItem :=
  repeat (plainItem "strong" 0 10) 200.

Definition weakHelmet : ProcessItem := plainItem "weak" 0 0.

Definition saturating : ProcessItemsByBucket :=
  bucketsWith (strongHelmets ++ [weakHelmet]).

Definition oneGeneralMod : list (Z * list (ProcessMod imports)) :=
  [(50, [tt])].

(** 2001 helmets and 1000 gauntlets: 2,001,000 combinations. *)
Definition overCap : ProcessItemsByBucket :=
  mkBuckets (Some (repeat (plainItem "helmet" 0 10) 2001))
            (Some (repeat (plainItem "gauntlets" 0 10) 1000))
            (Some (single "chest")) (Some (single "leg"))
            (Some (single "class")).

(** One helmet, the weakest item of all, with 2001 gauntlets and 1000
    chests: 2,001,000 combinations, and the trimming pops the helmet. *)
Definition trimmedAway : ProcessItemsByBucket :=
  mkBuckets (Some [weakHelmet])
            (Some (repeat (plainItem "gauntlets" 0 10) 2001))
            (Some (repeat (plainItem "chest" 0 10) 1000))
            (Some (single "leg")) (Some (single "class")).

(** Two helmets, the weaker one first. *)
Definition unsorted : ProcessItemsByBucket :=
  bucketsWith [weakHelmet; plainItem "strong" 0 10].



(** A tracker of two tier groups, the lower one with two sets. *)
Definition plainSet : IntermediateProcessArmorSet :=
  mkIntermediate (armorWith weakHelmet) noMods.

Definition twoTiers : SetTracker :=
  [mkTier 30 [mkMix "55" [plainSet]];
   mkTier 24 [mkMix "44" [plainSet; plainSet]]].

(** Locked mods under the known category 53, which is neither the general
    one nor a raid one, and an entry of the general category without
    mods. *)
Definition knownCategoryOnly : list (Z * list (ProcessMod imports)) :=
  [(53, [tt; tt]); (50, [])].

(** No helmet bucket at all. *)
Definition noHelmets : ProcessItemsByBucket :=
  mkBuckets None (Some (single "gauntlets")) (Some (single "chest"))
            (Some (single "leg")) (Some (single "class")).

End Sample.

(** * Properties *)

(** ** Lists, results and stat maps *)

Lemma lastItem_snoc {T : Type} (l : list T) (x : T) :
  lastItem (l ++ [x]) = Some x.
Proof.
  induction l as [|y l IH]; [reflexivity|].
  simpl. rewrite IH. destruct l; reflexivity.
Qed.

Lemma lastItem_none {T : Type} (l : list T) :
  lastItem l = None -> l = [].
Proof.
  destruct l as [|x l]; [reflexivity|].
  destruct (exists_last (l := x :: l)) as [l' [y Hy]]; [discriminate|].
  rewrite Hy, lastItem_snoc. discriminate.
Qed.

Lemma lastItem_some {T : Type} (l : list T) (x : T) :
  lastItem l = Some x -> l = removelast l ++ [x].
Proof.
  destruct l as [|y l]; [discriminate|].
  destruct (exists_last (l := y :: l)) as [l' [z Hz]]; [discriminate|].
  rewrite Hz, lastItem_snoc, removelast_last. congruence.
Qed.

Lemma len_nonneg {T : Type} (l : list T) : 0 <= len l.
Proof. unfold len. lia. Qed.

Lemma len_zero {T : Type} (l : list T) : len l = 0 -> l = [].
Proof. destruct l; [reflexivity|]. unfold len. simpl. lia. Qed.

Lemma len_app {T : Type} (l l' : list T) : len (l ++ l') = len l + len l'.
Proof. unfold len. rewrite length_app. lia. Qed.

Lemma getStat_setStat_same {A : Type} (m : StatMap A) k v :
  getStat (setStat m k v) k = v.
Proof. destruct k; reflexivity. Qed.

Lemma getStat_setStat_other {A : Type} (m : StatMap A) k k' v :
  k <> k' -> getStat (setStat m k v) k' = getStat m k'.
Proof. destruct k, k'; intros H; try reflexivity; congruence. Qed.

Lemma StatTypes_eq_dec (a b : StatTypes) : {a = b} + {a <> b}.
Proof. decide equality. Qed.

(** A loop keeps what each round keeps, and throws in no round that keeps
    it. *)
Lemma forOf_inv {A S : Type} (I : S -> Prop) (body : A -> S -> Result S)
  (l : list A) :
  (forall a s, In a l -> I s -> exists s', body a s = Ok s' /\ I s') ->
  forall s, I s -> exists s', forOf body l s = Ok s' /\ I s'.
Proof.
  induction l as [|a l IH]; intros Hbody s Hs.
  - exists s. split; [reflexivity | assumption].
  - destruct (Hbody a s (or_introl eq_refl) Hs) as [s1 [E1 H1]].
    destruct (IH (fun a' s' Ha => Hbody a' s' (or_intror Ha)) s1 H1)
      as [s2 [E2 H2]].
    exists s2. simpl. rewrite E1. simpl. split; assumption.
Qed.

(** The same for a relation [R] between the state before and after, and a
    property [Q a] that the round of [a] brings about and [R] keeps. *)
Lemma forOf_covers {A S : Type} (R : S -> S -> Prop) (Q : A -> S -> Prop)
  (body : A -> S -> Result S) (l : list A) :
  (forall s, R s s) ->
  (forall s1 s2 s3, R s1 s2 -> R s2 s3 -> R s1 s3) ->
  (forall a s s', Q a s -> R s s' -> Q a s') ->
  (forall a s s', In a l -> body a s = Ok s' -> R s s' /\ Q a s') ->
  forall s s', forOf body l s = Ok s' ->
               R s s' /\ forall a, In a l -> Q a s'.
Proof.
  intros Hrefl Htrans Hstable.
  induction l as [|a l IH]; intros Hbody s s' Hrun; simpl in Hrun.
  - inversion Hrun; subst. split; [apply Hrefl | intros a []].
  - destruct (body a s) as [s1| |] eqn:E1; simpl in Hrun; try discriminate.
    destruct (Hbody a s s1 (or_introl eq_refl) E1) as [HR HQ].
    destruct (IH (fun a' t t' Ha => Hbody a' t t' (or_intror Ha)) s1 s' Hrun)
      as [HR' HQ'].
    split; [eapply Htrans; eassumption|].
    intros a' [<- | Ha']; [eapply Hstable; eassumption | apply HQ'; assumption].
Qed.

(** What each round keeps, the loop keeps, when it ends without a throw. *)
Lemma forOf_preserves {A S : Type} (I : S -> Prop) (body : A -> S -> Result S)
  (l : list A) :
  (forall a s s', In a l -> I s -> body a s = Ok s' -> I s') ->
  forall s s', I s -> forOf body l s = Ok s' -> I s'.
Proof.
  induction l as [|a l IH]; intros Hbody s s' Hs Hrun; simpl in Hrun.
  - inversion Hrun; subst. exact Hs.
  - destruct (body a s) as [s1| |] eqn:E1; simpl in Hrun; try discriminate.
    apply (IH (fun a' t t' Ha => Hbody a' t t' (or_intror Ha)) s1 s');
      [|exact Hrun].
    apply (Hbody a s s1 (or_introl eq_refl) Hs E1).
Qed.

Lemma forOf_ext {A S : Type} (f g : A -> S -> Result S) l :
  (forall a s, f a s = g a s) -> forall s, forOf f l s = forOf g l s.
Proof.
  intros Hfg. induction l as [|a l IH]; intros s; [reflexivity|].
  simpl. rewrite Hfg. destruct (g a s); simpl; auto.
Qed.

Lemma forOf_app {A S : Type} (body : A -> S -> Result S) l1 l2 :
  forall s, forOf body (l1 ++ l2) s
            = (s' <- forOf body l1 s ;; forOf body l2 s').
Proof.
  induction l1 as [|a l1 IH]; intros s; [reflexivity|].
  simpl. destruct (body a s); simpl; auto.
Qed.

Lemma forOf_map {A B S : Type} (body : B -> S -> Result S) (h : A -> B) l :
  forall s, forOf (fun a => body (h a)) l s = forOf body (map h l) s.
Proof.
  induction l as [|a l IH]; intros s; [reflexivity|].
  simpl. destruct (body (h a) s); simpl; auto.
Qed.

(** A loop inside a loop is one loop over the flattened list. *)
Lemma forOf_flat_map {A B S : Type} (body : B -> S -> Result S)
  (g : A -> list B) l :
  forall s, forOf (fun a s' => forOf body (g a) s') l s
            = forOf body (flat_map g l) s.
Proof.
  induction l as [|a l IH]; intros s; [reflexivity|].
  simpl. rewrite forOf_app. destruct (forOf body (g a) s); simpl; auto.
Qed.

Section Facts.

Variable E : Imports.

(** ** The stat resolver never reads the plugs *)

Lemma mwBranch_never_plugs (item : ProcessItem) (assumeMasterwork : bool) :
  mwBranch item assumeMasterwork <> PlugBonus.
Proof.
  unfold mwBranch. destruct (itemSockets item); [|discriminate].
  destruct (truthyEnergy (energy item)); [|discriminate].
  rewrite orb_true_r. discriminate.
Qed.

Lemma getStatValuesWithMWProcess_flat (item : ProcessItem)
  (assumeMasterwork : bool) (orderedStatValues : list Z) :
  getStatValuesWithMWProcess E item assumeMasterwork orderedStatValues
  = map (fun statHash =>
           Z.max ((match mwBranch item assumeMasterwork with
                   | FlatBonus =>
                       addFlatMasterwork orderedStatValues (baseStats item)
                   | _ => baseStats item
                   end) statHash) 0)
        orderedStatValues.
Proof.
  unfold getStatValuesWithMWProcess, mwBranch.
  destruct (itemSockets item); [|reflexivity].
  destruct (truthyEnergy (energy item)); [|reflexivity].
  rewrite orb_true_r. reflexivity.
Qed.

Lemma getStatValuesWithMWProcess_length (item : ProcessItem)
  (assumeMasterwork : bool) (orderedStatValues : list Z) :
  List.length (getStatValuesWithMWProcess E item assumeMasterwork orderedStatValues)
  = List.length orderedStatValues.
Proof. unfold getStatValuesWithMWProcess. apply length_map. Qed.

Lemma getStatValuesWithMWProcess_nonneg (item : ProcessItem)
  (assumeMasterwork : bool) (orderedStatValues : list Z) :
  Forall (fun v => 0 <= v)
         (getStatValuesWithMWProcess E item assumeMasterwork orderedStatValues).
Proof.
  unfold getStatValuesWithMWProcess. apply Forall_forall.
  intros v Hv. apply in_map_iff in Hv. destruct Hv as [h [<- _]]. lia.
Qed.

(** ** Insertion into the tracker *)

Lemma insertArmorSet_perm a sets0 :
  sets0 <> [] ->
  exists sets', insertArmorSet E a sets0 = Some sets'
                /\ Permutation sets' (a :: sets0) /\ sets' <> [].
Proof.
  destruct sets0 as [|first rest]; [congruence|]. intros _.
  unfold insertArmorSet.
  destruct (getPower E (armor a) >? getPower E (armor first)).
  - eexists. split; [reflexivity|]. split; [apply Permutation_refl | discriminate].
  - eexists. split; [reflexivity|]. split.
    + apply Permutation_sym, Permutation_cons_append.
    + discriminate.
Qed.

(** A set that is not stronger than the first set of its group goes to the
    end of the group, whatever the sets in between. *)
Lemma insertArmorSet_looks_at_first_only a first rest :
  getPower E (armor a) <= getPower E (armor first) ->
  insertArmorSet E a (first :: rest) = Some (first :: rest ++ [a]).
Proof.
  intros Hle. unfold insertArmorSet.
  destruct (Z.gtb_spec (getPower E (armor a)) (getPower E (armor first)));
    [lia | reflexivity].
Qed.

Lemma insertStatMix_perm sm a mixes :
  mixes <> [] ->
  mixesWellFormed mixes ->
  exists mixes', insertStatMix E sm a mixes = Some mixes'
                 /\ Permutation (flat_map armorSets mixes')
                                (a :: flat_map armorSets mixes)
                 /\ mixesWellFormed mixes' /\ mixes' <> [].
Proof.
  induction mixes as [|cur rest IH]; [congruence|]. intros _ Hwf.
  inversion Hwf as [|? ? Hcur Hrest]; subst.
  simpl. destruct (stringGt sm (statMix cur)).
  { eexists. split; [reflexivity|]. split; [apply Permutation_refl|].
    split; [|discriminate]. constructor; [discriminate | assumption]. }
  assert (Hfall :
    exists mixes',
      match rest with
      | [] => Some [cur; mkMix sm [a]]
      | _ :: _ => option_map (cons cur) (insertStatMix E sm a rest)
      end = Some mixes'
      /\ Permutation (flat_map armorSets mixes')
                     (a :: armorSets cur ++ flat_map armorSets rest)
      /\ mixesWellFormed mixes' /\ mixes' <> []).
  { destruct rest as [|r rest'].
    - eexists. split; [reflexivity|]. simpl. rewrite !app_nil_r. split.
      + apply Permutation_sym, Permutation_cons_append.
      + split; [|discriminate].
        constructor; [assumption|]. constructor; [discriminate | constructor].
    - destruct IH as [m' [Em [Pm [Wm _]]]]; [discriminate | assumption |].
      rewrite Em. eexists. split; [reflexivity|]. split.
      + change (flat_map armorSets (cur :: m'))
          with (armorSets cur ++ flat_map armorSets m').
        eapply Permutation_trans;
          [apply Permutation_app_head; exact Pm|].
        apply Permutation_sym, Permutation_middle.
      + split; [constructor; assumption | discriminate]. }
  destruct (String.eqb (statMix cur) sm); [|exact Hfall].
  destruct (insertArmorSet_perm a (armorSets cur) Hcur) as [s' [Es [Ps Ns]]].
  rewrite Es. eexists. split; [reflexivity|]. split.
  - simpl. change (a :: armorSets cur ++ flat_map armorSets rest)
      with ((a :: armorSets cur) ++ flat_map armorSets rest).
    apply Permutation_app_tail. exact Ps.
  - split; [constructor; assumption | discriminate].
Qed.

Lemma finalSets_cons t tracker :
  finalSets (t :: tracker)
  = flat_map armorSets (statMixes t) ++ finalSets tracker.
Proof. reflexivity. Qed.

Lemma finalSets_app tr1 tr2 :
  finalSets (tr1 ++ tr2) = finalSets tr1 ++ finalSets tr2.
Proof. unfold finalSets. apply flat_map_app. Qed.

Lemma newTier_wellFormed t sm a :
  (fun t0 => statMixes t0 <> [] /\ mixesWellFormed (statMixes t0))
    (mkTier t [mkMix sm [a]]).
Proof.
  simpl. split; [discriminate|]. constructor; [discriminate | constructor].
Qed.

Lemma insertTier_perm t sm a tracker :
  tracker <> [] ->
  trackerWellFormed tracker ->
  Permutation (finalSets (insertTier E t sm a tracker))
              (a :: finalSets tracker)
  /\ trackerWellFormed (insertTier E t sm a tracker).
Proof.
  induction tracker as [|cur rest IH]; [congruence|]. intros _ Hwf.
  inversion Hwf as [|? ? [Hne Hcur] Hrest]; subst.
  simpl. destruct (t >? tier cur).
  { split; [apply Permutation_refl|].
    constructor; [apply newTier_wellFormed | assumption]. }
  assert (Hfall :
    Permutation
      (finalSets match rest with
                 | [] => [cur; mkTier t [mkMix sm [a]]]
                 | _ :: _ => cur :: insertTier E t sm a rest
                 end)
      (a :: finalSets (cur :: rest))
    /\ trackerWellFormed match rest with
                         | [] => [cur; mkTier t [mkMix sm [a]]]
                         | _ :: _ => cur :: insertTier E t sm a rest
                         end).
  { destruct rest as [|r rest'].
    - split.
      + rewrite !finalSets_cons. simpl. rewrite !app_nil_r.
        apply Permutation_sym, Permutation_cons_append.
      + constructor; [split; assumption|].
        constructor; [apply newTier_wellFormed | constructor].
    - destruct IH as [Pm Wm]; [discriminate | assumption |]. split.
      + rewrite !(finalSets_cons cur).
        eapply Permutation_trans; [apply Permutation_app_head; exact Pm|].
        apply Permutation_sym, Permutation_middle.
      + constructor; [split; assumption | assumption]. }
  destruct (t =? tier cur); [|exact Hfall].
  destruct (insertStatMix_perm sm a (statMixes cur) Hne Hcur)
    as [m' [Em [Pm [Wm Nm]]]].
  rewrite Em. split.
  - rewrite !finalSets_cons. simpl.
    change (a :: flat_map armorSets (statMixes cur) ++ finalSets rest)
      with ((a :: flat_map armorSets (statMixes cur)) ++ finalSets rest).
    apply Permutation_app_tail. exact Pm.
  - constructor; [split; assumption | assumption].
Qed.

(** An insertion adds the new set and nothing else, and leaves no group
    empty. *)
Lemma insertIntoSetTracker_perm t sm a tracker :
  trackerWellFormed tracker ->
  Permutation (finalSets (insertIntoSetTracker E t sm a tracker))
              (a :: finalSets tracker)
  /\ trackerWellFormed (insertIntoSetTracker E t sm a tracker).
Proof.
  intros Hwf. destruct tracker as [|cur rest].
  - simpl. split; [apply Permutation_refl|].
    constructor; [apply newTier_wellFormed | constructor].
  - apply insertTier_perm; [discriminate | assumption].
Qed.

(** ** The order of the groups *)

Lemma stringGt_other a b :
  stringGt a b = false -> String.eqb b a = false -> stringGt b a = true.
Proof.
  unfold stringGt. intros Hgt Hne. rewrite (String.compare_antisym b a).
  destruct (String.compare a b) eqn:Ec; try reflexivity; try discriminate.
  apply String.compare_eq_iff in Ec. subst.
  rewrite String.eqb_refl in Hne. discriminate.
Qed.

Lemma gtb_other a b : (a >? b) = false -> (a =? b) = false -> (b >? a) = true.
Proof.
  intros Hgt Hne. rewrite Z.gtb_ltb in *. apply Z.ltb_ge in Hgt.
  apply Z.eqb_neq in Hne. apply Z.ltb_lt. lia.
Qed.

Lemma descending_app_l {K : Type} (gt : K -> K -> bool) (l l' : list K) :
  descending gt (l ++ l') -> descending gt l.
Proof.
  induction l as [|x l IH]; [intros; exact I|].
  simpl. intros [Hh Hd]. split; [|apply IH; exact Hd].
  destruct l; [exact I | exact Hh].
Qed.

Lemma map_setLast {T K : Type} (key : T -> K) (l : list T) (x y : T) :
  lastItem l = Some y -> key x = key y -> map key (setLast l x) = map key l.
Proof.
  intros Hl Hk. apply lastItem_some in Hl. unfold setLast.
  rewrite Hl at 2. rewrite !map_app. simpl. rewrite Hk. reflexivity.
Qed.

Lemma insertStatMix_sorted sm a mixes :
  forall mixes',
    mixesWellFormed mixes ->
    descending stringGt (map statMix mixes) ->
    insertStatMix E sm a mixes = Some mixes' ->
    descending stringGt (map statMix mixes')
    /\ forall p, headAbove stringGt p (map statMix mixes) ->
                 stringGt p sm = true ->
                 headAbove stringGt p (map statMix mixes').
Proof.
  induction mixes as [|cur rest IH]; intros mixes' Hwf Hdesc Hins;
    [discriminate|].
  simpl in Hins. inversion Hwf as [|? ? Hcur Hrest]; subst.
  destruct (stringGt sm (statMix cur)) eqn:Egt.
  { inversion Hins; subst. simpl.
    split; [split; [exact Egt | exact Hdesc] | intros p _ Hp; exact Hp]. }
  destruct (String.eqb (statMix cur) sm) eqn:Eeq.
  { destruct (insertArmorSet_perm a (armorSets cur) Hcur) as [s' [Es _]].
    rewrite Es in Hins. inversion Hins; subst. simpl.
    split; [exact Hdesc | intros p Hp _; exact Hp]. }
  pose proof (stringGt_other _ _ Egt Eeq) as Habove.
  destruct rest as [|r rest'].
  { inversion Hins; subst. simpl.
    split; [repeat split; exact Habove | intros p Hp _; exact Hp]. }
  destruct (insertStatMix E sm a (r :: rest')) as [rec|] eqn:Erec;
    simpl in Hins; [|discriminate].
  inversion Hins; subst. destruct Hdesc as [Hh Hd].
  destruct (IH rec Hrest Hd eq_refl) as [Hd' Hh'].
  cbn [map]. split; [|intros p Hp _; exact Hp].
  split; [apply Hh'; assumption | exact Hd'].
Qed.

Lemma insertTier_sorted t sm a tracker :
  trackerOrdered tracker ->
  trackerSorted (insertTier E t sm a tracker)
  /\ forall p, headAbove Z.gtb p (map tier tracker) ->
               (p >? t) = true ->
               headAbove Z.gtb p (map tier (insertTier E t sm a tracker)).
Proof.
  induction tracker as [|cur rest IH]; intros [Hwf [Hdesc Hmixes]].
  { simpl. repeat split; auto. }
  inversion Hwf as [|? ? [Hne Hcur] Hrest]; subst.
  inversion Hmixes as [|? ? Hsorted Hmixes']; subst.
  assert (Hnew : descending stringGt (map statMix [mkMix sm [a]]))
    by (simpl; auto).
  simpl. destruct (t >? tier cur) eqn:Egt.
  { split; [|intros p _ Hp; exact Hp]. split.
    - simpl. split; [exact Egt | exact Hdesc].
    - constructor; [exact Hnew | exact Hmixes]. }
  destruct (t =? tier cur) eqn:Eeq.
  { destruct (insertStatMix_perm sm a (statMixes cur) Hne Hcur)
      as [m' [Em _]].
    rewrite Em. split; [|intros p Hp _; exact Hp]. split.
    - exact Hdesc.
    - constructor; [|exact Hmixes'].
      simpl. eapply insertStatMix_sorted; eassumption. }
  pose proof (gtb_other _ _ Egt Eeq) as Habove.
  destruct rest as [|r rest'].
  { split; [|intros p Hp _; exact Hp]. split.
    - simpl. repeat split. exact Habove.
    - constructor; [exact Hsorted|]. constructor; [exact Hnew | constructor]. }
  destruct Hdesc as [Hh Hd].
  destruct IH as [[Hd' Hm'] Hh'];
    [split; [exact Hrest | split; [exact Hd | exact Hmixes']]|].
  split; [|intros p Hp _; exact Hp]. split.
  - cbn [map]. split; [apply Hh'; assumption | exact Hd'].
  - constructor; [exact Hsorted | exact Hm'].
Qed.

(** An insertion keeps the groups in order. *)
Lemma insertIntoSetTracker_ordered t sm a tracker :
  trackerOrdered tracker ->
  trackerOrdered (insertIntoSetTracker E t sm a tracker).
Proof.
  intros Hord. split; [apply insertIntoSetTracker_perm, Hord|].
  destruct tracker as [|cur rest].
  - simpl. repeat split; auto. constructor; [simpl; auto | constructor].
  - apply insertTier_sorted. exact Hord.
Qed.

Lemma trackerSorted_front tr1 tr2 :
  trackerSorted (tr1 ++ tr2) -> trackerSorted tr1.
Proof.
  intros [Hd Hm]. split.
  - rewrite map_app in Hd. eapply descending_app_l. exact Hd.
  - apply Forall_app in Hm. apply Hm.
Qed.

Lemma trackerSorted_setLast tracker lowestTierSet mixes' :
  trackerSorted tracker ->
  lastItem tracker = Some lowestTierSet ->
  descending stringGt (map statMix mixes') ->
  trackerSorted (setLast tracker (mkTier (tier lowestTierSet) mixes')).
Proof.
  intros [Hd Hm] Hlast Hmixes'. split.
  - rewrite (map_setLast tier tracker (mkTier (tier lowestTierSet) mixes')
               lowestTierSet Hlast eq_refl).
    exact Hd.
  - unfold setLast. apply Forall_app. split.
    + apply lastItem_some in Hlast. rewrite Hlast in Hm.
      apply Forall_app in Hm. apply Hm.
    + constructor; [exact Hmixes' | constructor].
Qed.

(** Dropping the worst set keeps the groups in order. *)
Lemma dropWorstSet_sorted tracker lowest tracker' lowest' :
  dropWorstSet tracker lowest = Ok (tracker', lowest') ->
  trackerSorted tracker -> trackerSorted tracker'.
Proof.
  unfold dropWorstSet. intros Hdrop Hsorted.
  destruct (lastItem tracker) as [lowestTierSet|] eqn:Elast; [|discriminate].
  destruct (lastItem (statMixes lowestTierSet)) as [worstMix|] eqn:Emix;
    [|discriminate].
  assert (Hmixes : descending stringGt (map statMix (statMixes lowestTierSet))).
  { destruct Hsorted as [_ Hm]. rewrite Forall_forall in Hm. apply Hm.
    rewrite (lastItem_some _ _ Elast). apply in_or_app. right. left.
    reflexivity. }
  assert (Hfront : trackerSorted (removelast tracker)).
  { apply (trackerSorted_front _ [lowestTierSet]).
    rewrite <- (lastItem_some _ _ Elast). exact Hsorted. }
  destruct (len (removelast (armorSets worstMix)) =? 0).
  - destruct (len (removelast (statMixes lowestTierSet)) =? 0).
    + destruct (lastItem (removelast tracker)); [|discriminate].
      inversion Hdrop; subst. exact Hfront.
    + inversion Hdrop; subst.
      apply trackerSorted_setLast; [assumption | assumption |].
      rewrite (lastItem_some _ _ Emix), map_app in Hmixes.
      eapply descending_app_l. exact Hmixes.
  - inversion Hdrop; subst.
    apply trackerSorted_setLast; [assumption | assumption |].
    rewrite (map_setLast statMix (statMixes lowestTierSet)
               (mkMix (statMix worstMix) (removelast (armorSets worstMix)))
               worstMix Emix eq_refl).
    exact Hmixes.
Qed.

(** ** Dropping the worst set *)

Lemma trackerWellFormed_app tr1 tr2 :
  trackerWellFormed (tr1 ++ tr2)
  <-> trackerWellFormed tr1 /\ trackerWellFormed tr2.
Proof. apply Forall_app. Qed.

(** On a tracker without empty groups that holds two sets or more, the
    block drops the last set of the last group and throws nothing. *)
Lemma dropWorstSet_last tracker lowest :
  trackerWellFormed tracker ->
  2 <= len (finalSets tracker) ->
  exists tracker' lowest' worst,
    dropWorstSet tracker lowest = Ok (tracker', lowest')
    /\ finalSets tracker = finalSets tracker' ++ [worst]
    /\ trackerWellFormed tracker'.
Proof.
  intros Hwf Hlen. unfold dropWorstSet.
  destruct (lastItem tracker) as [lowestTierSet|] eqn:Elast.
  2:{ apply lastItem_none in Elast. subst. simpl in Hlen. unfold len in Hlen.
      simpl in Hlen. lia. }
  apply lastItem_some in Elast.
  set (init := removelast tracker) in *.
  assert (Hwf' : trackerWellFormed init
                 /\ trackerWellFormed [lowestTierSet]).
  { apply trackerWellFormed_app. rewrite <- Elast. exact Hwf. }
  destruct Hwf' as [Hinit Hlt]. apply Forall_inv in Hlt.
  destruct Hlt as [Hne Hmixes].
  destruct (lastItem (statMixes lowestTierSet)) as [worstMix|] eqn:Emix.
  2:{ apply lastItem_none in Emix. congruence. }
  apply lastItem_some in Emix.
  set (minit := removelast (statMixes lowestTierSet)) in *.
  assert (Hm : mixesWellFormed minit /\ mixesWellFormed [worstMix]).
  { apply Forall_app. rewrite <- Emix. exact Hmixes. }
  destruct Hm as [Hminit Hworst]. apply Forall_inv in Hworst.
  rename Hworst into Hsets.
  destruct (exists_last Hsets) as [sinit [worst Esets]].
  assert (Hfinal : finalSets tracker
                   = (finalSets init ++ flat_map armorSets minit ++ sinit)
                       ++ [worst]).
  { rewrite Elast at 1. rewrite finalSets_app. simpl. rewrite app_nil_r.
    rewrite Emix at 1. rewrite flat_map_app. simpl. rewrite app_nil_r.
    rewrite Esets. rewrite <- !app_assoc. reflexivity. }
  rewrite Esets, removelast_last.
  destruct (len sinit =? 0) eqn:Es.
  - apply Z.eqb_eq, len_zero in Es. subst sinit.
    destruct (len minit =? 0) eqn:Em.
    + apply Z.eqb_eq, len_zero in Em. rewrite Em in *.
      destruct (lastItem init) as [t|] eqn:Einit.
      * exists init, (tier t), worst. split; [reflexivity|].
        split; [|assumption].
        rewrite Hfinal. simpl. rewrite app_nil_r. reflexivity.
      * apply lastItem_none in Einit. rewrite Hfinal, Einit in Hlen.
        unfold len in Hlen. simpl in Hlen. lia.
    + eexists _, _, worst. split; [reflexivity|]. split.
      * rewrite Hfinal. unfold setLast. rewrite finalSets_app. simpl.
        rewrite !app_nil_r. reflexivity.
      * unfold setLast. apply trackerWellFormed_app. split; [assumption|].
        constructor; [|constructor]. simpl. split; [|assumption].
        intros H0. rewrite H0 in Em. discriminate.
  - eexists _, _, worst. split; [reflexivity|]. split.
    + rewrite Hfinal. unfold setLast. rewrite finalSets_app. simpl.
      rewrite flat_map_app. simpl. rewrite !app_nil_r, <- !app_assoc.
      reflexivity.
    + unfold setLast. apply trackerWellFormed_app. split; [assumption|].
      constructor; [|constructor]. simpl. split.
      * intros H0. apply app_eq_nil in H0. destruct H0; discriminate.
      * apply Forall_app. split; [assumption|].
        constructor; [|constructor]. simpl. intros H0. rewrite H0 in Es.
        discriminate.
Qed.

Lemma finalSets_last tracker lastTier lastMix worst :
  lastItem tracker = Some lastTier ->
  lastItem (statMixes lastTier) = Some lastMix ->
  lastItem (armorSets lastMix) = Some worst ->
  exists front, finalSets tracker = front ++ [worst].
Proof.
  intros Ht Hm Hs.
  apply lastItem_some in Ht. apply lastItem_some in Hm.
  apply lastItem_some in Hs.
  exists (finalSets (removelast tracker)
          ++ flat_map armorSets (removelast (statMixes lastTier))
          ++ removelast (armorSets lastMix)).
  rewrite Ht at 1. rewrite finalSets_app. simpl. rewrite app_nil_r.
  rewrite Hm at 1. rewrite flat_map_app. simpl. rewrite app_nil_r.
  rewrite Hs at 1. rewrite <- !app_assoc. reflexivity.
Qed.

(** The set that the block drops is the last set of the last signature
    group of the last tier group. *)
Lemma dropWorstSet_evicts tracker lowest :
  trackerWellFormed tracker ->
  2 <= len (finalSets tracker) ->
  exists tracker' lowest',
    dropWorstSet tracker lowest = Ok (tracker', lowest')
    /\ evictsLast tracker tracker'
    /\ trackerWellFormed tracker'.
Proof.
  intros Hwf Hlen.
  destruct (dropWorstSet_last tracker lowest Hwf Hlen)
    as [tracker' [lowest' [worst [Hdrop [Hfinal Hwf']]]]].
  exists tracker', lowest'. split; [exact Hdrop|]. split; [|exact Hwf'].
  unfold dropWorstSet in Hdrop.
  destruct (lastItem tracker) as [lastTier|] eqn:Et; [|discriminate].
  destruct (lastItem (statMixes lastTier)) as [lastMix|] eqn:Em;
    [|discriminate].
  assert (Hin : In lastTier tracker).
  { rewrite (lastItem_some _ _ Et). apply in_or_app. right. left. reflexivity. }
  assert (Hmin : In lastMix (statMixes lastTier)).
  { rewrite (lastItem_some _ _ Em). apply in_or_app. right. left. reflexivity. }
  unfold trackerWellFormed in Hwf. rewrite Forall_forall in Hwf.
  destruct (Hwf _ Hin) as [_ Hmixes].
  unfold mixesWellFormed in Hmixes. rewrite Forall_forall in Hmixes.
  pose proof (Hmixes _ Hmin) as Hsets.
  destruct (lastItem (armorSets lastMix)) as [w|] eqn:Ew;
    [|apply lastItem_none in Ew; contradiction].
  destruct (finalSets_last _ _ _ _ Et Em Ew) as [front Hfront].
  pose proof Hfinal as Hsame. rewrite Hfront in Hsame.
  apply app_inj_tail in Hsame. destruct Hsame as [_ Hw]. subst w.
  exists lastTier, lastMix, worst. repeat split; assumption.
Qed.

(** ** One combination keeps the tracker within the cap *)

Section Steps.

Variable modStatTotals : StatMap Z.
Variable assumeMasterwork : bool.
Variable statOrder : list StatTypes.
Variable statFilters : StatMap MinMaxIgnored.
Variable hasMods : bool.
Variable generalModsPermutations : ModPermutations E.
Variable otherModPermutations : ModPermutations E.
Variable raidModPermutations : ModPermutations E.

Local Abbreviation step :=
  (considerCombination E modStatTotals assumeMasterwork statOrder statFilters
     hasMods generalModsPermutations otherModPermutations raidModPermutations).

Local Abbreviation loops :=
  (enumerate E modStatTotals assumeMasterwork statOrder statFilters
     hasMods generalModsPermutations otherModPermutations raidModPermutations).

Lemma trackerInv_same P st tracker lowest count ranges events :
  trackerInv P st ->
  tracker = setTracker st -> count = setCount st ->
  trackerInv P (mkState tracker lowest count ranges events).
Proof. intros H -> ->. exact H. Qed.

Lemma len_perm {T : Type} (l l' : list T) :
  Permutation l l' -> len l = len l'.
Proof. intros H. unfold len. rewrite (Permutation_length H). reflexivity. Qed.

Lemma clampStat_same stats0 k : getStat (clampStat stats0 k) k <= 100.
Proof.
  unfold clampStat. destruct (Z.gtb_spec (getStat stats0 k) 100);
    [rewrite getStat_setStat_same; lia | assumption].
Qed.

Lemma clampStat_keeps stats0 k k' :
  getStat stats0 k' <= 100 -> getStat (clampStat stats0 k) k' <= 100.
Proof.
  intros H. unfold clampStat. destruct (getStat stats0 k >? 100); [|exact H].
  destruct (StatTypes_eq_dec k k') as [<-|Hk].
  - rewrite getStat_setStat_same. lia.
  - rewrite (getStat_setStat_other _ _ _ _ Hk). exact H.
Qed.

(** The loop over the considered stats leaves every stat it has come to at
    100 or less. *)
Lemma tierLoop_clamps l :
  forall acc b acc',
    tierLoop statOrder statFilters l acc = (b, acc') ->
    (forall k, getStat (accStats acc) k <= 100 ->
               getStat (accStats acc') k <= 100)
    /\ (b = false ->
        forall k, In k l -> getStat (accStats acc') k <= 100).
Proof.
  induction l as [|k rest IH]; intros acc b acc' Hloop; simpl in Hloop.
  - inversion Hloop; subst. split; [auto | intros _ k []].
  - destruct ((_ >? _) || (_ <? _)).
    + inversion Hloop; subst. cbn [accStats].
      split; [intros k'; apply clampStat_keeps | discriminate].
    + apply IH in Hloop. cbn [accStats] in Hloop.
      destruct Hloop as [Hkeep Hall]. split.
      * intros k' Hk'. apply Hkeep, clampStat_keeps, Hk'.
      * intros Hb k' [<-|Hin]; [apply Hkeep, clampStat_same | auto].
Qed.

(** The insertion may take the count to one above the cap; the block that
    follows takes it back before the next combination. *)
Lemma considerCombination_inv P armor0 st :
  (forall acc,
      tierLoop statOrder statFilters
               (orderedConsideredStats statOrder statFilters)
               (mkAcc (aggregateStats E modStatTotals assumeMasterwork
                                      statOrder armor0)
                      (statRanges st) "" 0 0) = (false, acc) ->
      P (mkIntermediate armor0 (accStats acc))) ->
  trackerInv P st ->
  exists st', step armor0 st = Ok st' /\ trackerInv P st'.
Proof.
  intros HP Hinv. unfold considerCombination.
  destruct (tierLoop statOrder statFilters _ _) as [exceeded acc] eqn:Eloop.
  cbv zeta. destruct exceeded.
  { eexists. split; [reflexivity|]. eapply trackerInv_same; eauto. }
  cbn [lowestTier setCount setTracker statRanges trace].
  destruct (if totalTier acc <? lowestTier st
            then if setCount st <=? RETURNED_ARMOR_SETS
                 then Some (totalTier acc) else None
            else Some (lowestTier st)) as [lowestTier1|].
  2:{ eexists. split; [reflexivity|]. eapply trackerInv_same; eauto. }
  destruct (hasMods && negb _).
  { eexists. split; [reflexivity|]. eapply trackerInv_same; eauto. }
  destruct Hinv as [Hord [Hcount [Hcap Hall]]].
  set (new := mkIntermediate armor0 (accStats acc)).
  destruct (insertIntoSetTracker_perm (totalTier acc) (tiers acc) new
              (setTracker st) (proj1 Hord)) as [Hperm Hwf1].
  pose proof (insertIntoSetTracker_ordered (totalTier acc) (tiers acc) new
                (setTracker st) Hord) as [_ Hsorted1].
  set (tracker1 := insertIntoSetTracker E _ _ _ _) in *.
  assert (Hlen1 : len (finalSets tracker1) = setCount st + 1).
  { rewrite (len_perm _ _ Hperm). rewrite <- Hcount. unfold len. simpl. lia. }
  assert (Hall1 : Forall P (finalSets tracker1)).
  { eapply Permutation_Forall; [apply Permutation_sym; exact Hperm|].
    constructor; [apply HP; reflexivity | assumption]. }
  destruct (setCount st + 1 >? RETURNED_ARMOR_SETS) eqn:Eover.
  - apply Z.gtb_lt in Eover. unfold RETURNED_ARMOR_SETS in *.
    destruct (dropWorstSet_last tracker1 lowestTier1 Hwf1)
      as [tracker2 [lowest2 [worst [Edrop [Hfinal Hwf2]]]]]; [rewrite Hlen1; lia|].
    rewrite Edrop. simpl. eexists. split; [reflexivity|].
    rewrite Hfinal in Hlen1, Hall1. rewrite len_app in Hlen1.
    apply Forall_app in Hall1. destruct Hall1 as [Hall2 _].
    change (len [worst]) with 1 in Hlen1.
    pose proof (dropWorstSet_sorted _ _ _ _ Edrop Hsorted1) as Hsorted2.
    unfold trackerInv. cbn [setTracker setCount fst snd].
    split; [split; assumption|].
    split; [clear - Hlen1; lia|].
    split; [clear - Hcap; unfold RETURNED_ARMOR_SETS; lia | assumption].
  - rewrite Z.gtb_ltb in Eover. apply Z.ltb_ge in Eover.
    eexists. split; [reflexivity|]. unfold trackerInv.
    cbn [setTracker setCount].
    split; [split; assumption|]. repeat split; assumption.
Qed.

(** One combination, counted: the tracker stays as it is, or the new set is
    inserted, which takes the number of sets to one more, and when that is
    above the cap the globally worst entry is dropped at once. *)
Lemma considerCombination_counts armor0 st :
  trackerInv (fun _ => True) st ->
  exists st',
    step armor0 st = Ok st'
    /\ trackerInv (fun _ => True) st'
    /\ (setTracker st' = setTracker st
        \/ exists t sm stats0,
             let tracker1 :=
               insertIntoSetTracker E t sm (mkIntermediate armor0 stats0)
                                    (setTracker st) in
             len (finalSets tracker1) = setCount st + 1
             /\ if setCount st + 1 >? RETURNED_ARMOR_SETS
                then evictsLast tracker1 (setTracker st')
                else setTracker st' = tracker1).
Proof.
  intros Hinv. unfold considerCombination.
  destruct (tierLoop statOrder statFilters _ _) as [exceeded acc] eqn:Eloop.
  cbv zeta. destruct exceeded.
  { eexists. split; [reflexivity|].
    split; [eapply trackerInv_same; eauto | left; reflexivity]. }
  cbn [lowestTier setCount setTracker statRanges trace].
  destruct (if totalTier acc <? lowestTier st
            then if setCount st <=? RETURNED_ARMOR_SETS
                 then Some (totalTier acc) else None
            else Some (lowestTier st)) as [lowestTier1|].
  2:{ eexists. split; [reflexivity|].
      split; [eapply trackerInv_same; eauto | left; reflexivity]. }
  destruct (hasMods && negb _).
  { eexists. split; [reflexivity|].
    split; [eapply trackerInv_same; eauto | left; reflexivity]. }
  destruct Hinv as [Hord [Hcount [Hcap Hall]]].
  set (new := mkIntermediate armor0 (accStats acc)).
  destruct (insertIntoSetTracker_perm (totalTier acc) (tiers acc) new
              (setTracker st) (proj1 Hord)) as [Hperm Hwf1].
  pose proof (insertIntoSetTracker_ordered (totalTier acc) (tiers acc) new
                (setTracker st) Hord) as [_ Hsorted1].
  set (tracker1 := insertIntoSetTracker E _ _ _ _) in *.
  assert (Hlen1 : len (finalSets tracker1) = setCount st + 1).
  { rewrite (len_perm _ _ Hperm). rewrite <- Hcount. unfold len. simpl. lia. }
  destruct (setCount st + 1 >? RETURNED_ARMOR_SETS) eqn:Eover.
  - pose proof Eover as Hover. apply Z.gtb_lt in Hover.
    unfold RETURNED_ARMOR_SETS in Hover, Hcap.
    destruct (dropWorstSet_evicts tracker1 lowestTier1 Hwf1)
      as [tracker2 [lowest2 [Edrop [Hevict Hwf2]]]]; [rewrite Hlen1; lia|].
    rewrite Edrop. simpl. eexists. split; [reflexivity|].
    pose proof (dropWorstSet_sorted _ _ _ _ Edrop Hsorted1) as Hsorted2.
    split.
    + destruct Hevict as [lastTier [lastMix [worst [_ [_ [_ Hfinal]]]]]].
      rewrite Hfinal, len_app in Hlen1.
      change (len [worst]) with 1 in Hlen1.
      unfold trackerInv. cbn [setTracker setCount fst snd].
      split; [split; assumption|].
      split; [clear - Hlen1; lia|].
      split; [clear - Hcap; unfold RETURNED_ARMOR_SETS; lia|].
      rewrite Forall_forall. intros; exact I.
    + right. exists (totalTier acc), (tiers acc), (accStats acc).
      cbv zeta. fold new. fold tracker1. cbn [setTracker fst].
      split; [exact Hlen1 | exact Hevict].
  - pose proof Eover as Hunder. rewrite Z.gtb_ltb in Hunder.
    apply Z.ltb_ge in Hunder.
    eexists. split; [reflexivity|]. split.
    + unfold trackerInv. cbn [setTracker setCount].
      split; [split; assumption|].
      split; [exact Hlen1|]. split; [exact Hunder|].
      rewrite Forall_forall. intros; exact I.
    + right. exists (totalTier acc), (tiers acc), (accStats acc).
      cbv zeta. fold new. fold tracker1. cbn [setTracker].
      split; [exact Hlen1 | reflexivity].
Qed.

(** The five loops are one loop over the combinations. *)
Lemma enumerate_combinations L st :
  loops L st = forOf step (combinations L) st.
Proof.
  unfold enumerate, combinations.
  rewrite <- forOf_flat_map. apply forOf_ext. intros helm s1.
  rewrite <- forOf_flat_map. apply forOf_ext. intros gaunt s2.
  destruct (truthyString (equippingLabel helm)
            && truthyString (equippingLabel gaunt)); [reflexivity|].
  rewrite <- forOf_flat_map. apply forOf_ext. intros chest0 s3.
  destruct (truthyString (equippingLabel chest0) && _); [reflexivity|].
  rewrite <- forOf_flat_map. apply forOf_ext. intros leg0 s4.
  destruct (truthyString (equippingLabel leg0) && _); [reflexivity|].
  rewrite <- forOf_map. reflexivity.
Qed.

Lemma enumerate_inv P L st :
  (forall armor0 ranges acc,
      enumerated L armor0 ->
      tierLoop statOrder statFilters
               (orderedConsideredStats statOrder statFilters)
               (mkAcc (aggregateStats E modStatTotals assumeMasterwork
                                      statOrder armor0)
                      ranges "" 0 0) = (false, acc) ->
      P (mkIntermediate armor0 (accStats acc))) ->
  trackerInv P st ->
  exists st', loops L st = Ok st' /\ trackerInv P st'.
Proof.
  intros HP. unfold enumerate. revert st.
  apply forOf_inv. intros helm st Hhelm Hst. revert st Hst.
  apply forOf_inv. intros gaunt st Hgaunt Hst.
  destruct (truthyString (equippingLabel helm)
            && truthyString (equippingLabel gaunt)) eqn:E1.
  { exists st. split; [reflexivity | assumption]. }
  revert st Hst. apply forOf_inv. intros chest0 st Hchest Hst.
  destruct (truthyString (equippingLabel chest0) && _) eqn:E2.
  { exists st. split; [reflexivity | assumption]. }
  revert st Hst. apply forOf_inv. intros leg0 st Hleg Hst.
  destruct (truthyString (equippingLabel leg0) && _) eqn:E3.
  { exists st. split; [reflexivity | assumption]. }
  revert st Hst. apply forOf_inv. intros classItem st Hclass Hst.
  apply considerCombination_inv; [|assumption].
  intros acc Hacc. eapply HP; [|exact Hacc].
  exists helm, gaunt, chest0, leg0, classItem. repeat split; assumption.
Qed.

End Steps.

(** ** The cap on the number of combinations *)

Lemma lastTotalStat_ok l :
  l <> [] -> exists v, lastTotalStat E l = Ok v.
Proof.
  intros H. unfold lastTotalStat.
  destruct (lastItem l) eqn:El; [eexists; reflexivity|].
  apply lastItem_none in El. congruence.
Qed.

Lemma lastTotalStat_nonempty l v : lastTotalStat E l = Ok v -> l <> [].
Proof. intros H ->. discriminate. Qed.

Lemma countCombos_positive L :
  0 < countCombos L ->
  helms L <> [] /\ gaunts L <> [] /\ chests L <> [] /\ legs L <> []
  /\ classItems L <> [].
Proof.
  unfold countCombos. intros H.
  repeat split; intros H0; rewrite H0 in H;
    change (len (@nil ProcessItem)) with 0 in H; nia.
Qed.

Lemma lowestTotalStat_weakest L :
  helms L <> [] -> gaunts L <> [] -> chests L <> [] -> legs L <> [] ->
  exists s v,
    lowestTotalStat E L = Ok s
    /\ lastTotalStat E (slotList L s) = Ok v
    /\ forall s' v', lastTotalStat E (slotList L s') = Ok v' -> v <= v'.
Proof.
  intros Hh Hg Hc Hl.
  destruct (lastTotalStat_ok _ Hh) as [h Eh].
  destruct (lastTotalStat_ok _ Hg) as [g Eg].
  destruct (lastTotalStat_ok _ Hc) as [c Ec].
  destruct (lastTotalStat_ok _ Hl) as [l El].
  unfold lowestTotalStat. rewrite Eh, Eg, Ec, El. simpl.
  destruct (g <? h) eqn:C1; [destruct (c <? g) eqn:C2 | destruct (c <? h) eqn:C2];
    (destruct (l <? _) eqn:C3);
    (eexists _, _; split; [reflexivity|]; split; [simpl; eassumption|]);
    intros s' v' H'; destruct s'; simpl in H';
    rewrite ?Eh, ?Eg, ?Ec, ?El in H'; inversion H'; subst; clear - C1 C2 C3;
    lia.
Qed.

Lemma length_removelast_S {T : Type} (l : list T) :
  l <> [] -> S (List.length (removelast l)) = List.length l.
Proof.
  intros H. destruct (exists_last H) as [l' [x ->]].
  rewrite removelast_last, length_app. simpl. lia.
Qed.

Lemma trimFuel_popSlot L s :
  slotList L s <> [] -> S (trimFuel (popSlot L s)) = trimFuel L.
Proof.
  intros H. unfold trimFuel.
  destruct s; simpl in *; apply length_removelast_S in H; lia.
Qed.

(** The loop ends within its fuel, throws nothing, leaves a product within
    the limit, and each of its rounds pops a weakest last item. *)
Lemma trimLoop_spec fuel :
  forall L, (trimFuel L <= fuel)%nat ->
            exists L', trimLoop E fuel L = Ok L'
                       /\ countCombos L' <= combosLimit
                       /\ trimsTo E L L'.
Proof.
  induction fuel as [|fuel IH]; intros L Hfuel.
  - simpl. destruct (countCombos L >? combosLimit) eqn:Ec.
    + exfalso. apply Z.gtb_lt in Ec. unfold combosLimit in Ec.
      destruct (countCombos_positive L) as [Hh _]; [lia|].
      unfold trimFuel in Hfuel. destruct (helms L); [congruence|].
      simpl in Hfuel. lia.
    + exists L. rewrite Z.gtb_ltb in Ec. apply Z.ltb_ge in Ec.
      split; [reflexivity|]. split; [assumption | constructor].
  - simpl. destruct (countCombos L >? combosLimit) eqn:Ec.
    + apply Z.gtb_lt in Ec.
      destruct (countCombos_positive L) as [Hh [Hg [Hc [Hl _]]]];
        [unfold combosLimit in Ec; lia|].
      destruct (lowestTotalStat_weakest L Hh Hg Hc Hl)
        as [s [v [Es [Ev Hleast]]]].
      rewrite Es. simpl.
      destruct (IH (popSlot L s)) as [L' [E' [Hc' Ht']]].
      { pose proof (trimFuel_popSlot L s (lastTotalStat_nonempty _ _ Ev)).
        lia. }
      exists L'. split; [assumption|]. split; [assumption|].
      econstructor; [|exact Ht']. split; [assumption|].
      exists s, v. repeat split; assumption.
    + exists L. rewrite Z.gtb_ltb in Ec. apply Z.ltb_ge in Ec.
      split; [reflexivity|]. split; [assumption | constructor].
Qed.

Lemma incl_removelast {T : Type} (l : list T) : incl (removelast l) l.
Proof.
  destruct l as [|x l]; [apply incl_refl|].
  destruct (exists_last (l := x :: l)) as [l' [y Hy]]; [discriminate|].
  rewrite Hy, removelast_last. apply incl_appl, incl_refl.
Qed.

(** What is left of a list after pops: a front part of it. *)
Lemma removelast_prefix {T : Type} (l : list T) :
  exists popped, l = removelast l ++ popped.
Proof.
  destruct l as [|x l]; [exists []; reflexivity|].
  destruct (exists_last (l := x :: l)) as [l' [y Hy]]; [discriminate|].
  rewrite Hy, removelast_last. exists [y]. reflexivity.
Qed.

Lemma frontOf_refl L : frontOf L L.
Proof.
  repeat split; try (exists []; rewrite app_nil_r; reflexivity).
Qed.

Lemma frontOf_popSlot L s : frontOf (popSlot L s) L.
Proof.
  destruct s; unfold frontOf; simpl;
    repeat split; try (exists []; rewrite app_nil_r; reflexivity);
    apply removelast_prefix.
Qed.

Lemma frontOf_trans L1 L2 L3 : frontOf L1 L2 -> frontOf L2 L3 -> frontOf L1 L3.
Proof.
  intros [[p1 H1] [[p2 H2] [[p3 H3] [[p4 H4] H5]]]]
         [[q1 G1] [[q2 G2] [[q3 G3] [[q4 G4] G5]]]].
  repeat split.
  - exists (p1 ++ q1). rewrite G1, H1, app_assoc. reflexivity.
  - exists (p2 ++ q2). rewrite G2, H2, app_assoc. reflexivity.
  - exists (p3 ++ q3). rewrite G3, H3, app_assoc. reflexivity.
  - exists (p4 ++ q4). rewrite G4, H4, app_assoc. reflexivity.
  - congruence.
Qed.

Lemma trimsTo_frontOf L L' : trimsTo E L L' -> frontOf L' L.
Proof.
  induction 1 as [|L L1 L' [_ [s [v [_ [_ ->]]]]] _ IH].
  - apply frontOf_refl.
  - eapply frontOf_trans; [exact IH | apply frontOf_popSlot].
Qed.

(** ** The sort *)

Lemma insertSorted_perm {T : Type} (cmp : Comparator T) x l :
  Permutation (insertSorted cmp x l) (x :: l).
Proof.
  induction l as [|y l IH]; [apply Permutation_refl|].
  simpl. destruct (cmp x y); try apply Permutation_refl.
  eapply Permutation_trans; [apply perm_skip; exact IH | apply perm_swap].
Qed.

Lemma sort_perm {T : Type} (cmp : Comparator T) l :
  Permutation (sort cmp l) l.
Proof.
  induction l as [|x l IH]; [apply Permutation_refl|].
  simpl. eapply Permutation_trans; [apply insertSorted_perm|].
  apply perm_skip. exact IH.
Qed.

Lemma compareBy_antisym {T : Type} (fn : T -> Z) a b :
  compareBy fn b a = CompOpp (compareBy fn a b).
Proof.
  unfold compareBy.
  destruct (Z.ltb_spec (fn a) (fn b)), (Z.ltb_spec (fn b) (fn a));
    rewrite ?Z.gtb_ltb;
    destruct (Z.ltb_spec (fn a) (fn b)), (Z.ltb_spec (fn b) (fn a));
    try reflexivity; lia.
Qed.

Lemma chainComparator_antisym {T : Type} (compares : list (Comparator T)) :
  (forall c, In c compares -> forall a b, c b a = CompOpp (c a b)) ->
  forall a b,
    chainComparator compares b a = CompOpp (chainComparator compares a b).
Proof.
  induction compares as [|c cs IH]; intros Hall a b; [reflexivity|].
  simpl. rewrite (Hall c (or_introl eq_refl) a b).
  destruct (c a b); simpl; try reflexivity.
  apply IH. intros c' Hc'. apply Hall. right. exact Hc'.
Qed.

Lemma compareByStatOrder_antisym hashes a b :
  compareByStatOrder E hashes b a = CompOpp (compareByStatOrder E hashes a b).
Proof.
  unfold compareByStatOrder. apply chainComparator_antisym.
  intros c Hc x y. apply in_app_or in Hc. destruct Hc as [[<-|[]]|Hc].
  - apply compareBy_antisym.
  - apply in_app_or in Hc. destruct Hc as [Hc|[<-|[]]].
    + apply in_map_iff in Hc. destruct Hc as [h [<- _]].
      apply compareBy_antisym.
    + apply compareBy_antisym.
Qed.

Lemma insertSorted_in_order {T : Type} (cmp : Comparator T) x l :
  (forall a b, cmp b a = CompOpp (cmp a b)) ->
  descending (notAfter cmp) l ->
  descending (notAfter cmp) (insertSorted cmp x l)
  /\ forall p, headAbove (notAfter cmp) p l -> notAfter cmp p x = true ->
               headAbove (notAfter cmp) p (insertSorted cmp x l).
Proof.
  intros Hanti. induction l as [|y l IH]; intros Hd.
  - simpl. auto.
  - simpl. destruct (cmp x y) eqn:Exy.
    + split; [|intros p _ Hp; exact Hp].
      split; [unfold headAbove, notAfter; rewrite Exy; reflexivity | exact Hd].
    + split; [|intros p _ Hp; exact Hp].
      split; [unfold headAbove, notAfter; rewrite Exy; reflexivity | exact Hd].
    + destruct Hd as [Hh Hd]. destruct (IH Hd) as [Hd' Hh'].
      split; [|intros p Hp _; exact Hp].
      split; [|exact Hd']. apply Hh'; [exact Hh|].
      unfold notAfter. rewrite (Hanti x y), Exy. reflexivity.
Qed.

(** The sort leaves no item before one that the comparator puts first. *)
Lemma sort_in_order {T : Type} (cmp : Comparator T) l :
  (forall a b, cmp b a = CompOpp (cmp a b)) ->
  descending (notAfter cmp) (sort cmp l).
Proof.
  intros Hanti. induction l as [|x l IH]; [exact I|].
  simpl. apply insertSorted_in_order; assumption.
Qed.

Lemma sortedBucket_in cmp bucket x :
  In x (sortedBucket cmp bucket) ->
  exists l, bucket = Some l /\ In x l.
Proof.
  unfold sortedBucket. intros H.
  apply (Permutation_in _ (sort_perm cmp _)) in H.
  destruct bucket as [l|]; [exists l; split; [reflexivity | assumption] | destruct H].
Qed.

(** ** The whole run *)

Section Runs.

Variable filteredItems : ProcessItemsByBucket.
Variable modStatTotals : StatMap Z.
Variable lockedModMap : list (Z * list (ProcessMod E)).
Variable assumeMasterwork : bool.
Variable statOrder : list StatTypes.
Variable statFilters : StatMap MinMaxIgnored.

Local Abbreviation run0 :=
  (processRun E filteredItems modStatTotals lockedModMap assumeMasterwork
     statOrder statFilters).

Local Abbreviation process0 :=
  (process E filteredItems modStatTotals lockedModMap assumeMasterwork
     statOrder statFilters).

Local Abbreviation L0 := (sortedLists E filteredItems statOrder statFilters).

Lemma initialState_inv P : trackerInv P (initialState statFilters).
Proof.
  unfold trackerInv, trackerOrdered, trackerSorted, initialState. simpl.
  unfold RETURNED_ARMOR_SETS.
  repeat split; try constructor. discriminate.
Qed.

(** [process] throws nothing and its loop over the lists ends; the lists it
    goes through are what the trimming leaves of the sorted lists, and the
    sets it tracks are selections that reach the innermost loop body. *)
Lemma processRun_ok :
  exists r,
    run0 = Ok r
    /\ runCombosWithoutCaps r = countCombos L0
    /\ runCombos r = countCombos (runLists r)
    /\ countCombos (runLists r) <= combosLimit
    /\ trimsTo E L0 (runLists r)
    /\ match runFinal r with
       | Some st =>
           countCombos (runLists r) <> 0
           /\ trackerInv
                (fun s =>
                   enumerated (runLists r) (armor s)
                   /\ forall k,
                        In k (orderedConsideredStats statOrder statFilters) ->
                        getStat (stats s) k <= 100) st
       | None => countCombos (runLists r) = 0
       end.
Proof.
  unfold processRun.
  destruct (trimLoop_spec (trimFuel L0) L0 (le_n _)) as [L [EL [Hcap Htrim]]].
  rewrite EL. cbn [bind].
  destruct (countCombos L =? 0) eqn:Ezero.
  - apply Z.eqb_eq in Ezero. eexists. split; [reflexivity|]. simpl.
    repeat split; assumption.
  - apply Z.eqb_neq in Ezero.
    edestruct (enumerate_inv modStatTotals assumeMasterwork statOrder statFilters)
      as [st [Est Hst]];
      [| apply (initialState_inv
                  (fun s =>
                     enumerated L (armor s)
                     /\ forall k,
                          In k (orderedConsideredStats statOrder statFilters) ->
                          getStat (stats s) k <= 100)) |].
    2:{ rewrite Est. cbn [bind]. eexists. split; [reflexivity|]. simpl.
        repeat split; try assumption; apply Hst. }
    intros armor0 ranges acc Henum Hacc. cbn [armor stats].
    split; [exact Henum|].
    apply (tierLoop_clamps statOrder statFilters _ _ _ _ Hacc). reflexivity.
Qed.

Lemma process_run out after :
  process0 = Ok (out, after) ->
  exists r, run0 = Ok r /\ out = outputOf r
            /\ after = callerArrays filteredItems (runLists r).
Proof.
  unfold process. destruct run0 as [r| |]; simpl; try discriminate.
  intros H. inversion H; subst. exists r. repeat split.
Qed.

Lemma process_total :
  exists r, run0 = Ok r
            /\ process0
               = Ok (outputOf r, callerArrays filteredItems (runLists r)).
Proof.
  destruct processRun_ok as [r [Er _]]. exists r. split; [assumption|].
  unfold process. rewrite Er. reflexivity.
Qed.

(** The state that [process] ends in is the one the loop over the
    combinations of the trimmed lists ends in. *)
Lemma processRun_steps r st :
  run0 = Ok r -> runFinal r = Some st ->
  forOf (considerCombination E modStatTotals assumeMasterwork statOrder
           statFilters (hasModsOf E (sortMods E lockedModMap))
           (generateModPermutations E (generalMods E (sortMods E lockedModMap)))
           (generateModPermutations E (otherMods E (sortMods E lockedModMap)))
           (generateModPermutations E (raidMods E (sortMods E lockedModMap))))
        (combinations (runLists r)) (initialState statFilters) = Ok st.
Proof.
  unfold processRun. destruct (trimLoop E _ _) as [L| |]; cbn [bind];
    try discriminate.
  destruct (countCombos L =? 0).
  - intros H Hf. inversion H; subst. discriminate.
  - rewrite enumerate_combinations.
    destruct (forOf _ (combinations L) _) as [st0| |] eqn:Eloops;
      cbn [bind]; try discriminate.
    intros H Hf. inversion H; subst. simpl in Hf. simpl. rewrite Eloops.
    congruence.
Qed.

End Runs.

(** ** The size of the result *)

(** C1. For every input, [process] returns, and the list of armor sets it
    returns holds at most [RETURNED_ARMOR_SETS] = 200 entries. The state it
    ends in is the one the loop over the combinations ends in, and at every
    combination of that loop: the loop comes to it without a throw, in a
    state whose counter is the number of tracked sets and is at most 200;
    the body throws nothing and leaves such a state again; and the body
    either leaves the tracker as it is, or inserts the new set, which takes
    the number of sets to one more, at most 201, and then, exactly when
    that is above 200, drops the globally worst entry, the last set of the
    last signature group of the last tier group, before the next
    combination. *)
Theorem process_returns_at_most_200_sets
  (filteredItems : ProcessItemsByBucket) (modStatTotals : StatMap Z)
  (lockedModMap : list (Z * list (ProcessMod E))) (assumeMasterwork : bool)
  (statOrder : list StatTypes) (statFilters : StatMap MinMaxIgnored) :
  exists r out after,
    let body :=
      considerCombination E modStatTotals assumeMasterwork statOrder
        statFilters
        (hasModsOf E (sortMods E lockedModMap))
        (generateModPermutations E (generalMods E (sortMods E lockedModMap)))
        (generateModPermutations E (otherMods E (sortMods E lockedModMap)))
        (generateModPermutations E (raidMods E (sortMods E lockedModMap))) in
    processRun E filteredItems modStatTotals lockedModMap assumeMasterwork
               statOrder statFilters = Ok r
    /\ process E filteredItems modStatTotals lockedModMap assumeMasterwork
               statOrder statFilters = Ok (out, after)
    /\ len (sets out) <= RETURNED_ARMOR_SETS
    /\ (forall st,
           runFinal r = Some st ->
           forOf body (combinations (runLists r)) (initialState statFilters)
           = Ok st
           /\ sets out = flattenSets (finalSets (setTracker st)))
    /\ forall before armor0 rest,
         combinations (runLists r) = before ++ armor0 :: rest ->
         exists st st',
           forOf body before (initialState statFilters) = Ok st
           /\ body armor0 st = Ok st'
           /\ withinCap st
           /\ withinCap st'
           /\ (setTracker st' = setTracker st
               \/ exists t sm stats0,
                    let tracker1 :=
                      insertIntoSetTracker E t sm
                        (mkIntermediate armor0 stats0) (setTracker st) in
                    len (finalSets tracker1) = setCount st + 1
                    /\ len (finalSets tracker1) <= RETURNED_ARMOR_SETS + 1
                    /\ if setCount st + 1 >? RETURNED_ARMOR_SETS
                       then evictsLast tracker1 (setTracker st')
                       else setTracker st' = tracker1).
Proof.
  destruct (processRun_ok filteredItems modStatTotals lockedModMap
              assumeMasterwork statOrder statFilters)
    as [r [Er [_ [_ [_ [_ Hfinal]]]]]].
  exists r, (outputOf r), (callerArrays filteredItems (runLists r)).
  intros body.
  split; [exact Er|].
  split; [unfold process; rewrite Er; reflexivity|].
  split; [|split].
  - unfold outputOf. destruct (runFinal r) as [st|].
    + destruct Hfinal as [_ [_ [Hcount [Hcap _]]]]. simpl.
      unfold flattenSets, len. rewrite length_map.
      fold (len (finalSets (setTracker st))).
      rewrite Hcount. exact Hcap.
    + simpl. unfold RETURNED_ARMOR_SETS, len. simpl. lia.
  - intros st Ef. split.
    + exact (processRun_steps filteredItems modStatTotals lockedModMap
               assumeMasterwork statOrder statFilters r st Er Ef).
    + unfold outputOf. rewrite Ef. reflexivity.
  - intros before armor0 rest _.
    destruct (forOf_inv (trackerInv (fun _ => True)) body before) with
      (s := initialState statFilters) as [st [Est Hst]].
    + intros a s _ Hs.
      destruct (considerCombination_counts modStatTotals assumeMasterwork
                  statOrder statFilters
                  (hasModsOf E (sortMods E lockedModMap))
                  (generateModPermutations E
                     (generalMods E (sortMods E lockedModMap)))
                  (generateModPermutations E
                     (otherMods E (sortMods E lockedModMap)))
                  (generateModPermutations E
                     (raidMods E (sortMods E lockedModMap)))
                  a s Hs) as [s' [Es [Hs' _]]].
      exists s'. split; assumption.
    + apply initialState_inv.
    + destruct (considerCombination_counts modStatTotals assumeMasterwork
                  statOrder statFilters
                  (hasModsOf E (sortMods E lockedModMap))
                  (generateModPermutations E
                     (generalMods E (sortMods E lockedModMap)))
                  (generateModPermutations E
                     (otherMods E (sortMods E lockedModMap)))
                  (generateModPermutations E
                     (raidMods E (sortMods E lockedModMap)))
                  armor0 st Hst) as [st' [Est' [Hst' Hwhat]]].
      exists st, st'. split; [exact Est|]. split; [exact Est'|].
      destruct Hst as [_ [Hcount [Hcap _]]].
      destruct Hst' as [_ [Hcount' [Hcap' _]]].
      split; [split; assumption|]. split; [split; assumption|].
      destruct Hwhat as [Hsame|[t [sm [stats0 [Hlen Hcase]]]]];
        [left; exact Hsame|].
      right. exists t, sm, stats0. cbv zeta.
      split; [exact Hlen|]. split; [|exact Hcase].
      rewrite Hlen. clear - Hcap. lia.
Qed.

(** ** At most one exclusive item in a set *)


Lemma In_front {T : Type} (l l' p : list T) x :
  l = l' ++ p -> In x l' -> In x l.
Proof. intros ->. intros H. apply in_or_app. left. exact H. Qed.

(** A selection from the lists the call went through is a selection from
    the lists the caller gave. *)
Lemma enumerated_selectionOf filteredItems statOrder statFilters L armor0 :
  frontOf L (sortedLists E filteredItems statOrder statFilters) ->
  enumerated L armor0 ->
  selectionOf (listsOf filteredItems) armor0.
Proof.
  intros [[p1 H1] [[p2 H2] [[p3 H3] [[p4 H4] H5]]]]
         [helm [gaunt [chest0 [leg0 [classItem
            [-> [Hh [Hg [Hc [Hl [Hci _]]]]]]]]]]].
  simpl in H1, H2, H3, H4, H5.
  exists helm, gaunt, chest0, leg0, classItem.
  split; [reflexivity|]. unfold listsOf. simpl.
  repeat split.
  - apply (In_front _ _ _ _ H1) in Hh. apply sortedBucket_in in Hh.
    destruct Hh as [l [-> Hh]]. exact Hh.
  - apply (In_front _ _ _ _ H2) in Hg. apply sortedBucket_in in Hg.
    destruct Hg as [l [-> Hg]]. exact Hg.
  - apply (In_front _ _ _ _ H3) in Hc. apply sortedBucket_in in Hc.
    destruct Hc as [l [-> Hc]]. exact Hc.
  - apply (In_front _ _ _ _ H4) in Hl. apply sortedBucket_in in Hl.
    destruct Hl as [l [-> Hl]]. exact Hl.
  - rewrite <- H5 in Hci. apply sortedBucket_in in Hci.
    destruct Hci as [l [-> Hci]]. exact Hci.
Qed.


(** ** The trimming of the lists *)


(** ** The observed stat ranges *)

Lemma foldRange_same r k t :
  getStat (foldRange r k t) k
  = mkMinMax (Z.min (mmMin (getStat r k)) t) (Z.max (mmMax (getStat r k)) t).
Proof.
  unfold foldRange.
  destruct (Z.gtb_spec t (mmMax (getStat r k))) as [H1|H1];
    rewrite ?getStat_setStat_same; cbn [mmMin mmMax];
    match goal with |- context [?a <? ?b] => destruct (Z.ltb_spec a b) as [H2|H2] end;
    rewrite ?getStat_setStat_same; cbn [mmMin mmMax];
    destruct (getStat r k) as [mn mx]; cbn [mmMin mmMax] in *;
    f_equal; lia.
Qed.

Lemma foldRange_other r k t k' :
  k <> k' -> getStat (foldRange r k t) k' = getStat r k'.
Proof.
  intros Hk. unfold foldRange.
  destruct (t >? _); [destruct (t <? _) | destruct (t <? _)];
    rewrite ?(getStat_setStat_other _ k k' _ Hk); reflexivity.
Qed.

Lemma widens_refl r : widens r r.
Proof. intros k. lia. Qed.

Lemma widens_trans r1 r2 r3 : widens r1 r2 -> widens r2 r3 -> widens r1 r3.
Proof. intros H1 H2 k. specialize (H1 k). specialize (H2 k). lia. Qed.

Lemma covers_widens r r' k t : covers r k t -> widens r r' -> covers r' k t.
Proof. unfold covers. intros H Hw. specialize (Hw k). lia. Qed.

Lemma foldRange_widens r k t : widens r (foldRange r k t).
Proof.
  intros k'. destruct (StatTypes_eq_dec k k') as [<-|Hk].
  - rewrite foldRange_same. cbn [mmMin mmMax]. lia.
  - rewrite (foldRange_other _ _ _ _ Hk). lia.
Qed.

Lemma foldRange_covers r k t : covers (foldRange r k t) k t.
Proof. unfold covers. rewrite foldRange_same. cbn [mmMin mmMax]. lia. Qed.

Section Ranges.

Variable modStatTotals : StatMap Z.
Variable assumeMasterwork : bool.
Variable statOrder : list StatTypes.
Variable statFilters : StatMap MinMaxIgnored.
Variable hasMods : bool.
Variable generalModsPermutations : ModPermutations E.
Variable otherModPermutations : ModPermutations E.
Variable raidModPermutations : ModPermutations E.

Local Abbreviation step :=
  (considerCombination E modStatTotals assumeMasterwork statOrder statFilters
     hasMods generalModsPermutations otherModPermutations raidModPermutations).

Local Abbreviation loops :=
  (enumerate E modStatTotals assumeMasterwork statOrder statFilters
     hasMods generalModsPermutations otherModPermutations raidModPermutations).

Local Abbreviation considered := (orderedConsideredStats statOrder statFilters).

(** The loop folds the tier of every stat it comes to into the range of
    that stat, before it looks at the filter of the stat, and it touches
    the range of no other stat. *)
Lemma tierLoop_ranges l :
  forall acc b acc',
    tierLoop statOrder statFilters l acc = (b, acc') ->
    widens (accRanges acc) (accRanges acc')
    /\ (forall k t, visits statFilters l (accStats acc) k t ->
                    covers (accRanges acc') k t)
    /\ (forall k, ~ In k l ->
                  getStat (accRanges acc') k = getStat (accRanges acc) k).
Proof.
  induction l as [|k rest IH]; intros acc b acc' Hloop; simpl in Hloop.
  - inversion Hloop; subst. split; [apply widens_refl|].
    split; [intros k t Hv; inversion Hv | reflexivity].
  - set (stats1 := clampStat (accStats acc) k) in *.
    set (tier0 := statTier (getStat stats1 k)) in *.
    set (ranges1 := foldRange (accRanges acc) k tier0) in *.
    destruct ((tier0 >? max (getStat statFilters k))
              || (tier0 <? min (getStat statFilters k))) eqn:Eout.
    + inversion Hloop; subst. cbn [accRanges]. split; [apply foldRange_widens|].
      split.
      * intros k' t Hv. inversion Hv; subst.
        -- apply foldRange_covers.
        -- unfold tier0, stats1 in Eout. congruence.
      * intros k' Hk'. apply foldRange_other. intros ->. apply Hk'. left.
        reflexivity.
    + apply IH in Hloop. cbn [accRanges accStats] in Hloop.
      destruct Hloop as [Hw [Hv Hother]]. split.
      * eapply widens_trans; [apply foldRange_widens | exact Hw].
      * split.
        -- intros k' t Hvis. inversion Hvis; subst.
           ++ eapply covers_widens; [apply foldRange_covers | exact Hw].
           ++ apply Hv. assumption.
        -- intros k' Hk'. rewrite Hother.
           ++ apply foldRange_other. intros ->. apply Hk'. left. reflexivity.
           ++ intros Hin. apply Hk'. right. assumption.
Qed.

Local Abbreviation grow := (rangesGrow considered).

Local Abbreviation covered :=
  (tiersCovered E modStatTotals assumeMasterwork statOrder statFilters).

Lemma rangesGrow_refl s : grow s s.
Proof. split; [apply widens_refl | reflexivity]. Qed.

Lemma rangesGrow_trans s1 s2 s3 :
  grow s1 s2 -> grow s2 s3 -> grow s1 s3.
Proof.
  intros [H1 G1] [H2 G2]. split; [eapply widens_trans; eassumption|].
  intros k Hk. rewrite G2, G1; auto.
Qed.

Lemma tiersCovered_stable armor0 s s' :
  covered armor0 s -> grow s s' -> covered armor0 s'.
Proof.
  intros H [Hw _] k t Hv. eapply covers_widens; [apply H; exact Hv | exact Hw].
Qed.

Lemma considerCombination_ranges armor0 st st' :
  step armor0 st = Ok st' ->
  grow st st' /\ covered armor0 st'.
Proof.
  unfold considerCombination, rangesGrow, tiersCovered.
  destruct (tierLoop statOrder statFilters _ _) as [exceeded acc] eqn:Eloop.
  apply tierLoop_ranges in Eloop. cbn [accRanges accStats] in Eloop.
  destruct Eloop as [Hw [Hv Hother]].
  cbv zeta. cbn [lowestTier setCount setTracker statRanges trace].
  assert (Hdone : forall tracker lowest count events,
             Ok (mkState tracker lowest count (accRanges acc) events) = Ok st' ->
             (widens (statRanges st) (statRanges st')
              /\ (forall k, ~ In k considered ->
                            getStat (statRanges st') k = getStat (statRanges st) k))
             /\ (forall k t,
                    visits statFilters considered
                           (aggregateStats E modStatTotals assumeMasterwork
                                           statOrder armor0) k t ->
                    covers (statRanges st') k t)).
  { intros tracker lowest count events H. inversion H; subst.
    cbn [statRanges]. split; [split; [exact Hw | exact Hother] | exact Hv]. }
  destruct exceeded; [apply Hdone|].
  destruct (if totalTier acc <? lowestTier st then _ else _); [|apply Hdone].
  destruct (hasMods && negb _); [apply Hdone|].
  destruct (setCount st + 1 >? RETURNED_ARMOR_SETS); [|apply Hdone].
  destruct (dropWorstSet _ _) as [[tracker2 lowest2]| |]; cbn [bind];
    try discriminate.
  apply Hdone.
Qed.

Ltac stable_under_growth :=
  let H := fresh "H" in
  let G := fresh "G" in
  intros ? ? ? H G; cbv beta in *; intros;
  eapply tiersCovered_stable; [apply H; assumption | exact G].

Ltac skipped_branch Hrun :=
  inversion Hrun; subst; split; [apply rangesGrow_refl | intros; congruence].

(** The five loops fold the tiers of every selection that reaches the
    innermost loop body. *)
Lemma enumerate_ranges L st st' :
  loops L st = Ok st' ->
  grow st st' /\ forall armor0, enumerated L armor0 -> covered armor0 st'.
Proof.
  unfold enumerate. intros Hrun.
  apply (forOf_covers grow
           (fun helm s =>
              forall gaunt, In gaunt (gaunts L) ->
              truthyString (equippingLabel helm)
              && truthyString (equippingLabel gaunt) = false ->
              forall chest0, In chest0 (chests L) ->
              truthyString (equippingLabel chest0)
              && (truthyString (equippingLabel helm)
                  || truthyString (equippingLabel gaunt)) = false ->
              forall leg0, In leg0 (legs L) ->
              truthyString (equippingLabel leg0)
              && (truthyString (equippingLabel chest0)
                  || truthyString (equippingLabel helm)
                  || truthyString (equippingLabel gaunt)) = false ->
              forall classItem, In classItem (classItems L) ->
              covered [helm; gaunt; chest0; leg0; classItem] s))
    in Hrun;
    [ | apply rangesGrow_refl | apply rangesGrow_trans | stable_under_growth | ].
  - destruct Hrun as [HR HQ]. split; [exact HR|].
    intros armor0 [h [g [c [l [ci [-> [Hh [Hg [Hc [Hl [Hci [C1 [C2 C3]]]]]]]]]]]]].
    apply (HQ h Hh g Hg C1 c Hc C2 l Hl C3 ci Hci).
  - clear st st' Hrun. intros helm st st' _ Hrun.
    apply (forOf_covers grow
             (fun gaunt s =>
                truthyString (equippingLabel helm)
                && truthyString (equippingLabel gaunt) = false ->
                forall chest0, In chest0 (chests L) ->
                truthyString (equippingLabel chest0)
                && (truthyString (equippingLabel helm)
                    || truthyString (equippingLabel gaunt)) = false ->
                forall leg0, In leg0 (legs L) ->
                truthyString (equippingLabel leg0)
                && (truthyString (equippingLabel chest0)
                    || truthyString (equippingLabel helm)
                    || truthyString (equippingLabel gaunt)) = false ->
                forall classItem, In classItem (classItems L) ->
                covered [helm; gaunt; chest0; leg0; classItem] s))
      in Hrun;
      [ exact Hrun | apply rangesGrow_refl | apply rangesGrow_trans
      | stable_under_growth | ].
    clear st st' Hrun. intros gaunt st st' _ Hrun.
    destruct (truthyString (equippingLabel helm)
              && truthyString (equippingLabel gaunt)) eqn:C1;
      [skipped_branch Hrun|].
    apply (forOf_covers grow
             (fun chest0 s =>
                truthyString (equippingLabel chest0)
                && (truthyString (equippingLabel helm)
                    || truthyString (equippingLabel gaunt)) = false ->
                forall leg0, In leg0 (legs L) ->
                truthyString (equippingLabel leg0)
                && (truthyString (equippingLabel chest0)
                    || truthyString (equippingLabel helm)
                    || truthyString (equippingLabel gaunt)) = false ->
                forall classItem, In classItem (classItems L) ->
                covered [helm; gaunt; chest0; leg0; classItem] s))
      in Hrun;
      [ destruct Hrun as [HR HQ]; split; [exact HR | intros _; exact HQ]
      | apply rangesGrow_refl | apply rangesGrow_trans
      | stable_under_growth | ].
    clear st st' Hrun. intros chest0 st st' _ Hrun.
    destruct (truthyString (equippingLabel chest0) && _) eqn:C2;
      [skipped_branch Hrun|].
    apply (forOf_covers grow
             (fun leg0 s =>
                truthyString (equippingLabel leg0)
                && (truthyString (equippingLabel chest0)
                    || truthyString (equippingLabel helm)
                    || truthyString (equippingLabel gaunt)) = false ->
                forall classItem, In classItem (classItems L) ->
                covered [helm; gaunt; chest0; leg0; classItem] s))
      in Hrun;
      [ destruct Hrun as [HR HQ]; split; [exact HR | intros _; exact HQ]
      | apply rangesGrow_refl | apply rangesGrow_trans
      | stable_under_growth | ].
    clear st st' Hrun. intros leg0 st st' _ Hrun.
    destruct (truthyString (equippingLabel leg0) && _) eqn:C3;
      [skipped_branch Hrun|].
    apply (forOf_covers grow
             (fun classItem s =>
                covered [helm; gaunt; chest0; leg0; classItem] s))
      in Hrun;
      [ destruct Hrun as [HR HQ]; split; [exact HR | intros _; exact HQ]
      | apply rangesGrow_refl | apply rangesGrow_trans
      | intros ? ? ? ? ?; eapply tiersCovered_stable; eassumption | ].
    intros classItem s s' _ Hstep. apply considerCombination_ranges.
    exact Hstep.
Qed.

(** The bounds come from nowhere else: a bound that the loop changes is a
    tier it has computed for that stat. *)
Lemma foldRange_bounds r k0 t k :
  (mmMin (getStat (foldRange r k0 t) k) = mmMin (getStat r k)
   \/ (k = k0 /\ mmMin (getStat (foldRange r k0 t) k) = t))
  /\ (mmMax (getStat (foldRange r k0 t) k) = mmMax (getStat r k)
      \/ (k = k0 /\ mmMax (getStat (foldRange r k0 t) k) = t)).
Proof.
  destruct (StatTypes_eq_dec k0 k) as [<-|Hk].
  - rewrite foldRange_same. cbn [mmMin mmMax]. split.
    + destruct (Z.min_spec (mmMin (getStat r k0)) t) as [[_ ->]|[_ ->]]; auto.
    + destruct (Z.max_spec (mmMax (getStat r k0)) t) as [[_ ->]|[_ ->]]; auto.
  - rewrite (foldRange_other _ _ _ _ Hk). auto.
Qed.

Lemma tierLoop_observed l :
  forall acc b acc',
    tierLoop statOrder statFilters l acc = (b, acc') ->
    forall k,
      (mmMin (getStat (accRanges acc') k) = mmMin (getStat (accRanges acc) k)
       \/ visits statFilters l (accStats acc) k
                 (mmMin (getStat (accRanges acc') k)))
      /\ (mmMax (getStat (accRanges acc') k) = mmMax (getStat (accRanges acc) k)
          \/ visits statFilters l (accStats acc) k
                    (mmMax (getStat (accRanges acc') k))).
Proof.
  induction l as [|k0 rest IH]; intros acc b acc' Hloop k; simpl in Hloop.
  - inversion Hloop; subst. auto.
  - pose proof (foldRange_bounds (accRanges acc) k0
                  (statTier (getStat (clampStat (accStats acc) k0) k0)) k)
      as [Hmin Hmax].
    destruct ((_ >? _) || (_ <? _)) eqn:Eout.
    + inversion Hloop; subst. cbn [accRanges]. split.
      * destruct Hmin as [Hmin|[-> Hmin]]; [left; exact Hmin|].
        right. rewrite Hmin. apply visits_here.
      * destruct Hmax as [Hmax|[-> Hmax]]; [left; exact Hmax|].
        right. rewrite Hmax. apply visits_here.
    + apply IH with (k := k) in Hloop. cbn [accRanges accStats] in Hloop.
      destruct Hloop as [Hmin' Hmax']. split.
      * destruct Hmin' as [Hmin'|Hvis];
          [|right; apply visits_later; assumption].
        rewrite Hmin'.
        destruct Hmin as [Hmin|[-> Hmin]]; [left; exact Hmin|].
        right. rewrite Hmin. apply visits_here.
      * destruct Hmax' as [Hmax'|Hvis];
          [|right; apply visits_later; assumption].
        rewrite Hmax'.
        destruct Hmax as [Hmax|[-> Hmax]]; [left; exact Hmax|].
        right. rewrite Hmax. apply visits_here.
Qed.

Local Abbreviation observed :=
  (boundsObserved E modStatTotals assumeMasterwork statOrder statFilters).

Lemma considerCombination_observed from init armor0 st st' :
  from armor0 ->
  step armor0 st = Ok st' ->
  observed from init (statRanges st) -> observed from init (statRanges st').
Proof.
  intros Hfrom. unfold considerCombination.
  destruct (tierLoop statOrder statFilters _ _) as [exceeded acc] eqn:Eloop.
  pose proof (tierLoop_observed _ _ _ _ Eloop) as Hobs.
  cbn [accRanges accStats] in Hobs.
  cbv zeta. cbn [lowestTier setCount setTracker statRanges trace].
  assert (Hdone : forall tracker lowest count events,
             Ok (mkState tracker lowest count (accRanges acc) events) = Ok st' ->
             observed from init (statRanges st) ->
             observed from init (statRanges st')).
  { intros tracker lowest count events H Hst k. inversion H; subst.
    cbn [statRanges]. destruct (Hobs k) as [Hmin Hmax].
    destruct (Hst k) as [Hmin0 Hmax0]. split.
    - destruct Hmin as [->|Hvis]; [exact Hmin0|].
      right. exists armor0. split; assumption.
    - destruct Hmax as [->|Hvis]; [exact Hmax0|].
      right. exists armor0. split; assumption. }
  destruct exceeded; [apply Hdone|].
  destruct (if totalTier acc <? lowestTier st then _ else _); [|apply Hdone].
  destruct (hasMods && negb _); [apply Hdone|].
  destruct (setCount st + 1 >? RETURNED_ARMOR_SETS); [|apply Hdone].
  destruct (dropWorstSet _ _) as [[tracker2 lowest2]| |]; cbn [bind];
    try discriminate.
  apply Hdone.
Qed.

Lemma enumerate_observed init L st st' :
  loops L st = Ok st' ->
  observed (enumerated L) init (statRanges st) ->
  observed (enumerated L) init (statRanges st').
Proof.
  unfold enumerate. intros Hrun Hst. revert st st' Hst Hrun.
  apply forOf_preserves. intros helm st st' Hhelm Hst Hrun.
  revert st st' Hst Hrun.
  apply forOf_preserves. intros gaunt st st' Hgaunt Hst Hrun.
  destruct (truthyString (equippingLabel helm)
            && truthyString (equippingLabel gaunt)) eqn:C1;
    [inversion Hrun; subst; exact Hst|].
  revert st st' Hst Hrun.
  apply forOf_preserves. intros chest0 st st' Hchest Hst Hrun.
  destruct (truthyString (equippingLabel chest0) && _) eqn:C2;
    [inversion Hrun; subst; exact Hst|].
  revert st st' Hst Hrun.
  apply forOf_preserves. intros leg0 st st' Hleg Hst Hrun.
  destruct (truthyString (equippingLabel leg0) && _) eqn:C3;
    [inversion Hrun; subst; exact Hst|].
  revert st st' Hst Hrun.
  apply forOf_preserves. intros classItem st st' Hclass Hst Hrun.
  eapply considerCombination_observed; [|exact Hrun|exact Hst].
  exists helm, gaunt, chest0, leg0, classItem. repeat split; assumption.
Qed.

Lemma initialState_range k :
  getStat (statRanges (initialState statFilters)) k
  = initialRange statFilters k.
Proof. destruct k; reflexivity. Qed.

(** An ignored stat is not considered, and the range of a stat that is not
    considered starts at [{min: 0, max: 10}]. *)
Lemma ignored_not_considered k :
  ignored (getStat statFilters k) = true -> ~ In k considered.
Proof.
  unfold orderedConsideredStats. intros Hi Hin. apply filter_In in Hin.
  destruct Hin as [_ Hin]. rewrite Hi in Hin. discriminate.
Qed.

Lemma initialState_ignored k :
  ignored (getStat statFilters k) = true ->
  getStat (statRanges (initialState statFilters)) k = mkMinMax 0 10.
Proof.
  intros Hi. unfold initialState, initialRange. destruct k; simpl in *;
    rewrite Hi; reflexivity.
Qed.

End Ranges.

(** ** The run, the ranges and the caller's arrays *)

Section Outcome.

Variable filteredItems : ProcessItemsByBucket.
Variable modStatTotals : StatMap Z.
Variable lockedModMap : list (Z * list (ProcessMod E)).
Variable assumeMasterwork : bool.
Variable statOrder : list StatTypes.
Variable statFilters : StatMap MinMaxIgnored.

Local Abbreviation run0 :=
  (processRun E filteredItems modStatTotals lockedModMap assumeMasterwork
     statOrder statFilters).

Local Abbreviation process0 :=
  (process E filteredItems modStatTotals lockedModMap assumeMasterwork
     statOrder statFilters).

Local Abbreviation L0 := (sortedLists E filteredItems statOrder statFilters).

Local Abbreviation itemComparator :=
  (compareByStatOrder E (orderedConsideredStatHashes E statOrder statFilters)).

Lemma processRun_final r st :
  run0 = Ok r -> runFinal r = Some st ->
  enumerate E modStatTotals assumeMasterwork statOrder statFilters
            (hasModsOf E (sortMods E lockedModMap))
            (generateModPermutations E (generalMods E (sortMods E lockedModMap)))
            (generateModPermutations E (otherMods E (sortMods E lockedModMap)))
            (generateModPermutations E (raidMods E (sortMods E lockedModMap)))
            (runLists r) (initialState statFilters) = Ok st.
Proof.
  unfold processRun. destruct (trimLoop E _ _) as [L| |]; cbn [bind];
    try discriminate.
  destruct (countCombos L =? 0).
  - intros H Hf. inversion H; subst. discriminate.
  - destruct (enumerate _ _ _ _ _ _ _ _ _ _ _) as [st0| |] eqn:Eloops;
      cbn [bind]; try discriminate.
    intros H Hf. inversion H; subst. simpl in Hf. simpl. rewrite Eloops.
    congruence.
Qed.

Lemma frontOf_slot L' L s :
  frontOf L' L -> exists p, slotList L s = slotList L' s ++ p.
Proof. intros [H1 [H2 [H3 [H4 _]]]]. destruct s; assumption. Qed.

Lemma sortedLists_slot s :
  slotList L0 s = sortedBucket itemComparator (bucketOf filteredItems s).
Proof. destruct s; reflexivity. Qed.

Lemma sortedBucket_none : sortedBucket itemComparator None = [].
Proof. reflexivity. Qed.

Lemma callerArrays_slot L s :
  bucketOf (callerArrays filteredItems L) s
  = callerArray (bucketOf filteredItems s) (slotList L s).
Proof. destruct s; reflexivity. Qed.

(** The caller's arrays after the call are the lists the call went
    through. *)
Lemma listsOf_callerArrays L :
  frontOf L L0 -> listsOf (callerArrays filteredItems L) = L.
Proof.
  intros [[p1 H1] [[p2 H2] [[p3 H3] [[p4 H4] H5]]]].
  destruct L as [h g c l ci]. unfold listsOf, callerArrays, sortedLists in *.
  simpl in *. f_equal.
  - destruct (helmet filteredItems); [reflexivity|].
    symmetry in H1. apply app_eq_nil in H1. symmetry. apply H1.
  - destruct (gauntlets filteredItems); [reflexivity|].
    symmetry in H2. apply app_eq_nil in H2. symmetry. apply H2.
  - destruct (chest filteredItems); [reflexivity|].
    symmetry in H3. apply app_eq_nil in H3. symmetry. apply H3.
  - destruct (leg filteredItems); [reflexivity|].
    symmetry in H4. apply app_eq_nil in H4. symmetry. apply H4.
  - destruct (classitem filteredItems); [reflexivity|]. exact H5.
Qed.

(** Once a removal has been made, a list is shorter than it was. *)
Lemma trimsTo_shorter L' :
  trimsTo E L0 L' -> combosLimit < countCombos L0 ->
  countCombos L' <= combosLimit ->
  exists s, (List.length (slotList L' s) < List.length (slotList L0 s))%nat.
Proof.
  intros Htrim Hover Hcap. inversion Htrim as [|L1 L2 [_ [s [v [Hv [_ ->]]]]] Hrest]; subst.
  - lia.
  - exists s. apply trimsTo_frontOf in Hrest.
    destruct (frontOf_slot _ _ s Hrest) as [p Hp].
    pose proof (length_removelast_S _ (lastTotalStat_nonempty _ _ Hv)) as Hlen.
    assert (Hpop : slotList (popSlot L0 s) s = removelast (slotList L0 s))
      by (destruct s; reflexivity).
    rewrite Hpop in Hp. rewrite Hp, length_app in Hlen. lia.
Qed.

Lemma process_caller_arrays :
  exists out after,
    process0 = Ok (out, after)
    /\ (forall s, sortedThenPopped itemComparator
                                   (bucketOf filteredItems s)
                                   (bucketOf after s))
    /\ classitem after
       = option_map (sort itemComparator) (classitem filteredItems)
    /\ (combosLimit < countCombos L0 ->
        exists s l l',
          bucketOf filteredItems s = Some l
          /\ bucketOf after s = Some l'
          /\ (List.length l' < List.length l)%nat).
Proof.
  destruct (processRun_ok filteredItems modStatTotals lockedModMap
              assumeMasterwork statOrder statFilters)
    as [r [Er [_ [_ [Hcap [Htrim _]]]]]].
  exists (outputOf r), (callerArrays filteredItems (runLists r)).
  split; [unfold process; rewrite Er; reflexivity|].
  pose proof (trimsTo_frontOf _ _ Htrim) as Hfront.
  split; [|split].
  - intros s. rewrite callerArrays_slot.
    destruct (frontOf_slot _ _ s Hfront) as [p Hp].
    rewrite sortedLists_slot in Hp.
    destruct (bucketOf filteredItems s) as [l|]; simpl; [|exact I].
    exists p. exact Hp.
  - destruct Hfront as [_ [_ [_ [_ Hci]]]]. simpl in Hci. simpl.
    destruct (classitem filteredItems); simpl; [|reflexivity].
    rewrite <- Hci. reflexivity.
  - intros Hover.
    destruct (trimsTo_shorter _ Htrim Hover Hcap) as [s Hs].
    rewrite sortedLists_slot in Hs.
    destruct (bucketOf filteredItems s) as [l|] eqn:Eb.
    + exists s, l, (slotList (runLists r) s). split; [assumption|].
      split; [rewrite callerArrays_slot, Eb; reflexivity|].
      unfold sortedBucket in Hs.
      rewrite (Permutation_length (sort_perm itemComparator l)) in Hs.
      exact Hs.
    + rewrite sortedBucket_none in Hs. simpl in Hs. lia.
Qed.

(** C5, as amended. When [process] returns stat ranges, the range of an
    ignored stat is [{min: 0, max: 10}], and the range of a considered stat
    holds the tier of every selection for which the loop over the
    considered stats comes to that stat, that is, for which the stats
    before it in the priority order are within their filters: the tier is
    folded in before the stat's own filter is looked at, so also when it
    lies outside that filter. *)
Theorem statRanges_fold_every_computed_tier
  (out : ProcessOutput) (after : ProcessItemsByBucket)
  (ranges : StatMap MinMax) :
  process0 = Ok (out, after) ->
  outStatRanges out = Some ranges ->
  (forall k, ignored (getStat statFilters k) = true ->
             getStat ranges k = mkMinMax 0 10)
  /\ (forall armor0 k t,
         enumerated (listsOf after) armor0 ->
         visits statFilters (orderedConsideredStats statOrder statFilters)
                (aggregateStats E modStatTotals assumeMasterwork statOrder
                                armor0) k t ->
         covers ranges k t)
  /\ boundsObserved E modStatTotals assumeMasterwork statOrder statFilters
                    (enumerated (listsOf after)) (initialRange statFilters)
                    ranges.
Proof.
  intros Hproc Hranges.
  destruct (process_run _ _ _ _ _ _ _ _ Hproc) as [r [Er [-> ->]]].
  destruct (processRun_ok filteredItems modStatTotals lockedModMap
              assumeMasterwork statOrder statFilters)
    as [r' [Er' [_ [_ [_ [Htrim _]]]]]].
  rewrite Er in Er'. inversion Er'; subst r'. clear Er'.
  rewrite (listsOf_callerArrays _ (trimsTo_frontOf _ _ Htrim)).
  unfold outputOf in Hranges.
  destruct (runFinal r) as [st|] eqn:Ef; simpl in Hranges; [|discriminate].
  inversion Hranges; subst ranges. clear Hranges.
  pose proof (processRun_final r st Er Ef) as Hloops.
  pose proof (enumerate_observed _ _ _ _ _ _ _ _ (initialRange statFilters)
                _ _ _ Hloops) as Hobs.
  apply enumerate_ranges in Hloops. destruct Hloops as [[_ Hsame] Hcov].
  split; [|split].
  - intros k Hk. rewrite Hsame; [apply initialState_ignored; assumption|].
    apply ignored_not_considered. assumption.
  - intros armor0 k t Henum Hvis. apply (Hcov armor0 Henum k t Hvis).
  - apply Hobs. intros k. rewrite initialState_range. auto.
Qed.

End Outcome.

(** ** What holds where the code departs from the specification *)

Section Remainder.

Variable filteredItems : ProcessItemsByBucket.
Variable modStatTotals : StatMap Z.
Variable lockedModMap : list (Z * list (ProcessMod E)).
Variable assumeMasterwork : bool.
Variable statOrder : list StatTypes.
Variable statFilters : StatMap MinMaxIgnored.

Local Abbreviation process0 :=
  (process E filteredItems modStatTotals lockedModMap assumeMasterwork
     statOrder statFilters).

Local Abbreviation L0 := (sortedLists E filteredItems statOrder statFilters).

(** The stats that are not ignored are at most 100 in every returned
    set. *)
Lemma process_considered_stats_at_most_100 out after :
  process0 = Ok (out, after) ->
  forall s k,
    In s (sets out) -> In k statOrder ->
    ignored (getStat statFilters k) = false ->
    getStat (setStats s) k <= 100.
Proof.
  intros Hproc s k Hs Hk Hnot.
  destruct (process_run _ _ _ _ _ _ _ _ Hproc) as [r [Er [-> _]]].
  destruct (processRun_ok filteredItems modStatTotals lockedModMap
              assumeMasterwork statOrder statFilters)
    as [r' [Er' [_ [_ [_ [_ Hfinal]]]]]].
  rewrite Er in Er'. inversion Er'; subst r'. clear Er'.
  unfold outputOf in Hs. destruct (runFinal r) as [st|]; [|destruct Hs].
  simpl in Hs. unfold flattenSets in Hs. apply in_map_iff in Hs.
  destruct Hs as [a [<- Ha]].
  destruct Hfinal as [_ [_ [_ [_ Hall]]]].
  rewrite Forall_forall in Hall. destruct (Hall a Ha) as [_ Hclamped].
  simpl. apply Hclamped. unfold orderedConsideredStats.
  apply filter_In. split; [assumption|]. rewrite Hnot. reflexivity.
Qed.

(** The tracker that [process] flattens has its tier groups by strictly
    descending tier and, within a tier, its signature groups by strictly
    descending signature; no group is empty. *)
Lemma processRun_groups_in_order r st :
  processRun E filteredItems modStatTotals lockedModMap assumeMasterwork
             statOrder statFilters = Ok r ->
  runFinal r = Some st ->
  trackerOrdered (setTracker st).
Proof.
  intros Er Ef.
  destruct (processRun_ok filteredItems modStatTotals lockedModMap
              assumeMasterwork statOrder statFilters)
    as [r' [Er' [_ [_ [_ [_ Hfinal]]]]]].
  rewrite Er in Er'. inversion Er'; subst r'. clear Er'.
  rewrite Ef in Hfinal. apply Hfinal.
Qed.

Lemma countCombos_sortedLists :
  countCombos L0 = countCombos (listsOf filteredItems).
Proof.
  unfold countCombos, sortedLists, listsOf, sortedBucket, len. simpl.
  rewrite !(Permutation_length (sort_perm _ _)). reflexivity.
Qed.

(** The two counters are the products before and after the trimming, but
    for the early return, which hands back 0 for both. *)
Lemma process_counts out after :
  process0 = Ok (out, after) ->
  (countCombos (listsOf after) <> 0 ->
   combosWithoutCaps out = countCombos (listsOf filteredItems)
   /\ combos out = countCombos (listsOf after))
  /\ (countCombos (listsOf after) = 0 ->
      combosWithoutCaps out = 0 /\ combos out = 0).
Proof.
  intros Hproc.
  destruct (process_run _ _ _ _ _ _ _ _ Hproc) as [r [Er [-> ->]]].
  destruct (processRun_ok filteredItems modStatTotals lockedModMap
              assumeMasterwork statOrder statFilters)
    as [r' [Er' [Hbefore [Hafter [_ [Htrim Hfinal]]]]]].
  rewrite Er in Er'. inversion Er'; subst r'. clear Er'.
  rewrite (listsOf_callerArrays _ _ _ _ (trimsTo_frontOf _ _ Htrim)).
  rewrite <- countCombos_sortedLists. unfold outputOf.
  destruct (runFinal r) as [st|]; simpl.
  - split; [intros _; split; assumption|].
    intros H0. destruct Hfinal as [Hne _]. contradiction.
  - split; [intros Hne; contradiction | intros _; split; reflexivity].
Qed.

End Remainder.

Section ModChecks.

Variable modStatTotals : StatMap Z.
Variable assumeMasterwork : bool.
Variable statOrder : list StatTypes.
Variable statFilters : StatMap MinMaxIgnored.
Variable generalModsPermutations : ModPermutations E.
Variable otherModPermutations : ModPermutations E.
Variable raidModPermutations : ModPermutations E.

(** With mods locked, a selection that is within the filters is handed to
    the mod-compatibility predicate whatever its total tier: between two
    combinations [setCount <= RETURNED_ARMOR_SETS] holds, so the
    [continue] under it is not reached. *)
Lemma considerCombination_always_checks_mods armor0 st acc :
  trackerInv (fun _ => True) st ->
  tierLoop statOrder statFilters
           (orderedConsideredStats statOrder statFilters)
           (mkAcc (aggregateStats E modStatTotals assumeMasterwork statOrder
                                  armor0)
                  (statRanges st) "" 0 0) = (false, acc) ->
  exists st',
    considerCombination E modStatTotals assumeMasterwork statOrder
                        statFilters true generalModsPermutations
                        otherModPermutations raidModPermutations armor0 st
    = Ok st'
    /\ In (ModCheck armor0) (trace st').
Proof.
  intros Hinv Hloop.
  destruct (considerCombination_inv modStatTotals assumeMasterwork statOrder
              statFilters true generalModsPermutations otherModPermutations
              raidModPermutations (fun _ => True) armor0 st
              (fun _ _ => I) Hinv) as [st' [Estep _]].
  exists st'. split; [exact Estep|].
  unfold considerCombination in Estep. rewrite Hloop in Estep.
  cbv zeta in Estep.
  cbn [lowestTier setCount setTracker statRanges trace] in Estep.
  destruct Hinv as [_ [_ [Hcap _]]]. apply Z.leb_le in Hcap.
  rewrite Hcap in Estep.
  destruct (totalTier acc <? lowestTier st);
    (destruct (true && negb _);
     [ inversion Estep; subst; left; reflexivity |
       destruct (setCount st + 1 >? RETURNED_ARMOR_SETS);
       [ destruct (dropWorstSet _ _) as [[tracker2 lowest2]| |];
         cbn [bind] in Estep; try discriminate |];
       inversion Estep; subst; right; left; reflexivity ]).
Qed.

End ModChecks.

End Facts.

(** * The optimizer on concrete inputs *)

Import Sample.

(** C2. Three helmets with the same stats and the powers 1050, 1025 and
    1035 make three sets of one tier and one signature.
    [insertIntoSetTracker] compares a new set with the first set of the
    group only and appends it when it is not stronger, so the group ends
    as first, second, third helmet and [process] returns the set of the
    weakest helmet before the set of the middle one, be the power of a set
    the sum or the mean of its items' powers. *)
Theorem process_leaves_power_unsorted :
  exists r st out after,
    processRun imports threePowers noMods [] false allStats noFilters = Ok r
    /\ runFinal r = Some st
    /\ map (fun t =>
              (tier t,
               map (fun m =>
                      (statMix m,
                       map (fun s => getPower imports (armor s)) (armorSets m)))
                   (statMixes t)))
           (setTracker st)
       = [(30, [("5,5,5,5,5,5"%string, [5050; 5025; 5035])])]
    /\ process imports threePowers noMods [] false allStats noFilters
       = Ok (out, after)
    /\ map armorIds (sets out)
       = [["power1050"; "gauntlets"; "chest"; "leg"; "class"];
          ["power1025"; "gauntlets"; "chest"; "leg"; "class"];
          ["power1035"; "gauntlets"; "chest"; "leg"; "class"]]%string
    /\ process importsWithMean threePowers noMods [] false allStats noFilters
       = Ok (out, after)
    /\ map (fun a => getPower importsWithMean (armor a))
           (finalSets (setTracker st))
       = [1010; 1005; 1007].
Proof.
  eexists _, _, _, _.
  split; [vm_compute; reflexivity|].
  split; [vm_compute; reflexivity|].
  split; [vm_compute; reflexivity|].
  split; [vm_compute; reflexivity|].
  split; [vm_compute; reflexivity|].
  split; vm_compute; reflexivity.
Qed.

(** C3. An item with sockets whose energy is defined and 0, and whose
    energy-meter category holds a plug of +5 for one stat, masterwork not
    assumed: the resolver of the specification adds the bonus of the plug.
    The code adds nothing when the energy is the number 0, and the flat +2
    when it is an object that carries 0. And no item at all takes the code
    to the branch that reads the plugs: where [item.sockets && item.energy]
    holds, [assumeMasterwork || item.energy] holds too. *)
Theorem getStatValuesWithMWProcess_never_reads_plugs :
  (forall item assumeMasterwork, mwBranch item assumeMasterwork <> PlugBonus)
  /\ getStatValuesWithMWProcess imports (meterItem (Some (EnergyNumber 0)))
                                false [1; 2] = [10; 10]
  /\ getStatValuesWithMWProcess imports (meterItem (Some (EnergyObject 0)))
                                false [1; 2] = [12; 12]
  /\ getStatValuesWithMW_spec imports (meterItem (Some (EnergyNumber 0)))
                              false [1; 2] = [15; 10]
  /\ getStatValuesWithMW_spec imports (meterItem (Some (EnergyObject 0)))
                              false [1; 2] = [15; 10].
Proof.
  split; [exact mwBranch_never_plugs|].
  repeat split; reflexivity.
Qed.

(** C5, as the specification states it, fails. One selection, whose
    Mobility is of tier 5, under a filter that wants Mobility of tier 8 to
    10: the selection is rejected, and its tier 5 is the returned range of
    Mobility. *)
Lemma statRanges_hold_a_tier_outside_the_filter :
  exists out after ranges,
    process imports (bucketsWith (single "helmet")) noMods [] false allStats
            mobilityFloor = Ok (out, after)
    /\ sets out = []
    /\ outStatRanges out = Some ranges
    /\ statTier (getStat (aggregateStats imports noMods false allStats
                                         (armorWith (plainItem "helmet" 0 10)))
                         Mobility) = 5
    /\ min (getStat mobilityFloor Mobility) = 8
    /\ getStat ranges Mobility = mkMinMax 5 5.
Proof.
  eexists _, _, _.
  split; [vm_compute; reflexivity|].
  split; [reflexivity|].
  split; [reflexivity|].
  repeat split; reflexivity.
Qed.

(** C5, as amended, on one selection with Mobility ignored: the range of
    Mobility stays [{min: 0, max: 10}] and the range of Resilience holds
    the tier 5 of the selection. *)
Lemma statRanges_fold_every_computed_tier_witness :
  exists out after ranges,
    process imports (bucketsWith (single "helmet")) mobilityMods [] false
            allStats ignoreMobility = Ok (out, after)
    /\ outStatRanges out = Some ranges
    /\ getStat ranges Mobility = mkMinMax 0 10
    /\ covers ranges Resilience 5.
Proof.
  eexists _, _, _.
  split; [vm_compute; reflexivity|].
  split; [reflexivity|].
  match goal with
  | |- getStat ?ranges _ = _ /\ _ =>
      destruct (statRanges_fold_every_computed_tier imports
                  (bucketsWith (single "helmet")) mobilityMods [] false
                  allStats ignoreMobility _ _ ranges
                  ltac:(vm_compute; reflexivity) eq_refl)
        as [Hignored [Hcovered _]]
  end.
  split; [apply Hignored; reflexivity|].
  apply (Hcovered (armorWith (plainItem "helmet" 0 10))).
  - exists (plainItem "helmet" 0 10), (plainItem "gauntlets" 0 10),
      (plainItem "chest" 0 10), (plainItem "leg" 0 10),
      (plainItem "class" 0 10).
    simpl. repeat split; auto.
  - apply visits_here.
Defined.

(** C6. After the 200 strong helmets the tracker holds 200 sets and the
    worst retained tier is 30. The selection with the weak helmet has the
    total tier 24; the code tests [setCount <= 200], which holds, so it
    goes on: it calls the mod-compatibility predicate on the selection and
    inserts it into the tracker, and only the block that follows the
    insertion drops it again. *)
Theorem process_checks_mods_below_the_worst_tier :
  exists st200 st201 r,
    enumerate imports noMods false allStats noFilters true tt tt tt
              (listsOf (bucketsWith strongHelmets)) (initialState noFilters)
    = Ok st200
    /\ setCount st200 = RETURNED_ARMOR_SETS
    /\ lowestTier st200 = 30
    /\ totalTier
         (snd (tierLoop allStats noFilters
                        (orderedConsideredStats allStats noFilters)
                        (mkAcc (aggregateStats imports noMods false allStats
                                               (armorWith weakHelmet))
                               (statRanges st200) "" 0 0))) = 24
    /\ considerCombination imports noMods false allStats noFilters true
                           tt tt tt (armorWith weakHelmet) st200 = Ok st201
    /\ trace st201
       = Inserted (armorWith weakHelmet) :: ModCheck (armorWith weakHelmet)
           :: trace st200
    /\ processRun imports saturating noMods oneGeneralMod false allStats
                  noFilters = Ok r
    /\ runFinal r = Some st201.
Proof.
  eexists _, _, _.
  split; [vm_compute; reflexivity|].
  split; [reflexivity|].
  split; [reflexivity|].
  split; [vm_compute; reflexivity|].
  split; [vm_compute; reflexivity|].
  split; [reflexivity|].
  split; vm_compute; reflexivity.
Qed.

(** C7. Mobility is ignored and the mods give 150 of it: the one set that
    [process] returns has the Mobility 200. The clamp to 100 is in the
    loop over the considered stats, and an ignored stat is none of them. *)
Theorem process_returns_ignored_stat_above_100 :
  exists out after,
    process imports (bucketsWith (single "helmet")) mobilityMods [] false
            allStats ignoreMobility = Ok (out, after)
    /\ map (fun s => getStat (setStats s) Mobility) (sets out) = [200].
Proof.
  eexists _, _. split; [vm_compute; reflexivity | reflexivity].
Qed.

(** C9. One helmet, 2001 gauntlets, 1000 chests, one leg and one class
    item are 2,001,000 combinations. The trimming pops the helmet, the
    product is 0, and the early return hands back the literal
    [combosWithoutCaps: 0] and not the 2,001,000. *)
Theorem process_forgets_combosWithoutCaps :
  countCombos (listsOf trimmedAway) = 2001000
  /\ countCombos (sortedLists imports trimmedAway allStats noFilters) = 2001000
  /\ exists out after,
       process imports trimmedAway noMods [] false allStats noFilters
       = Ok (out, after)
       /\ helmet after = Some []
       /\ combos out = 0
       /\ combosWithoutCaps out = 0.
Proof.
  split; [vm_compute; reflexivity|]. split; [vm_compute; reflexivity|].
  eexists _, _. split; [vm_compute; reflexivity|].
  repeat split; reflexivity.
Qed.



(** C10. [process] changes the arrays it is given. For every input the
    call returns, and each of the caller's arrays is then the sorted array,
    for helmets, gauntlets, chests and legs with items popped off its end;
    when the product of the lengths is above the limit, one of these four
    arrays is shorter than it was. And the order does change: of two
    helmets given as weak, strong the caller finds strong, weak. *)
Theorem process_mutates_caller_lists :
  (forall (E : Imports) (filteredItems : ProcessItemsByBucket)
          (modStatTotals : StatMap Z)
          (lockedModMap : list (Z * list (ProcessMod E)))
          (assumeMasterwork : bool) (statOrder : list StatTypes)
          (statFilters : StatMap MinMaxIgnored),
      let itemComparator :=
        compareByStatOrder E
          (orderedConsideredStatHashes E statOrder statFilters) in
      exists out after,
        process E filteredItems modStatTotals lockedModMap assumeMasterwork
                statOrder statFilters = Ok (out, after)
        /\ (forall s, sortedThenPopped itemComparator
                                       (bucketOf filteredItems s)
                                       (bucketOf after s))
        /\ classitem after
           = option_map (sort itemComparator) (classitem filteredItems)
        /\ (combosLimit
            < countCombos (sortedLists E filteredItems statOrder statFilters) ->
            exists s l l',
              bucketOf filteredItems s = Some l
              /\ bucketOf after s = Some l'
              /\ (List.length l' < List.length l)%nat))
  /\ exists out after,
       process imports unsorted noMods [] false allStats noFilters
       = Ok (out, after)
       /\ option_map (map id) (helmet unsorted)
          = Some ["weak"; "strong"]%string
       /\ option_map (map id) (helmet after)
          = Some ["strong"; "weak"]%string.
Proof.
  split.
  - intros. apply process_caller_arrays.
  - eexists _, _. split; [vm_compute; reflexivity|].
    split; reflexivity.
Qed.

(** C10 on 2001 helmets and 1000 gauntlets: one of the caller's arrays is
    shorter after the call. *)
Lemma process_mutates_caller_lists_witness :
  combosLimit < countCombos (sortedLists imports overCap allStats noFilters)
  /\ exists after s l l',
       bucketOf overCap s = Some l
       /\ bucketOf after s = Some l'
       /\ (List.length l' < List.length l)%nat.
Proof.
  split; [vm_compute; reflexivity|].
  destruct (proj1 process_mutates_caller_lists imports overCap noMods []
              false allStats noFilters) as [out [after [_ [_ [_ Hshort]]]]].
  exists after. apply Hshort. vm_compute. reflexivity.
Defined.

(** * Further properties of the module *)

Section Coverage.

Variable E : Imports.

(** ** Insertion on any tracker *)

Lemma insertArmorSet_some a first rest :
  exists sets',
    insertArmorSet E a (first :: rest) = Some sets'
    /\ Permutation sets' (a :: first :: rest) /\ In a sets'.
Proof.
  unfold insertArmorSet.
  destruct (getPower E (armor a) >? getPower E (armor first)).
  - eexists. split; [reflexivity|]. split; [apply Permutation_refl|].
    left. reflexivity.
  - eexists. split; [reflexivity|]. split.
    + apply Permutation_sym.
      apply (Permutation_cons_append (first :: rest) a).
    + apply in_or_app. right. left. reflexivity.
Qed.

(** The loop over the signature groups returns from every list that is not
    empty, with the new set in a group of its signature. *)
Lemma insertStatMix_some sm a mixes :
  mixes <> [] ->
  exists mixes',
    insertStatMix E sm a mixes = Some mixes'
    /\ Permutation (flat_map armorSets mixes')
                   (a :: flat_map armorSets mixes)
    /\ exists m, In m mixes' /\ statMix m = sm /\ In a (armorSets m).
Proof.
  induction mixes as [|cur rest IH]; [congruence|]. intros _.
  simpl. destruct (stringGt sm (statMix cur)).
  { eexists. split; [reflexivity|]. split; [apply Permutation_refl|].
    exists (mkMix sm [a]). simpl. auto. }
  assert (Hfall :
    exists mixes',
      match rest with
      | [] => Some [cur; mkMix sm [a]]
      | _ :: _ => option_map (cons cur) (insertStatMix E sm a rest)
      end = Some mixes'
      /\ Permutation (flat_map armorSets mixes')
                     (a :: armorSets cur ++ flat_map armorSets rest)
      /\ exists m, In m mixes' /\ statMix m = sm /\ In a (armorSets m)).
  { destruct rest as [|r rest'].
    - eexists. split; [reflexivity|]. simpl. rewrite !app_nil_r. split.
      + apply Permutation_sym, Permutation_cons_append.
      + exists (mkMix sm [a]). simpl. auto.
    - destruct IH as [m' [Em [Pm [m [Hm [Hsm Ha]]]]]]; [discriminate|].
      rewrite Em. eexists. split; [reflexivity|]. split.
      + change (flat_map armorSets (cur :: m'))
          with (armorSets cur ++ flat_map armorSets m').
        eapply Permutation_trans; [apply Permutation_app_head; exact Pm|].
        apply Permutation_sym, Permutation_middle.
      + exists m. split; [right; exact Hm | split; assumption]. }
  destruct (String.eqb (statMix cur) sm) eqn:Eeq; [|exact Hfall].
  destruct (armorSets cur) as [|first others] eqn:Esets; [exact Hfall|].
  destruct (insertArmorSet_some a first others) as [s' [Es [Ps Hin]]].
  rewrite Es. eexists. split; [reflexivity|]. split.
  - exact (Permutation_app_tail (flat_map armorSets rest) Ps).
  - exists (mkMix (statMix cur) s'). simpl. split; [left; reflexivity|].
    split; [apply String.eqb_eq; exact Eeq | exact Hin].
Qed.

Lemma insertTier_any t sm a tracker :
  tracker <> [] ->
  Permutation (finalSets (insertTier E t sm a tracker))
              (a :: finalSets tracker)
  /\ exists tg m,
       In tg (insertTier E t sm a tracker) /\ tier tg = t
       /\ In m (statMixes tg) /\ statMix m = sm /\ In a (armorSets m).
Proof.
  induction tracker as [|cur rest IH]; [congruence|]. intros _.
  cbn [insertTier]. destruct (t >? tier cur).
  { split; [apply Permutation_refl|].
    exists (mkTier t [mkMix sm [a]]), (mkMix sm [a]). simpl. auto 6. }
  assert (Hfall :
    Permutation
      (finalSets match rest with
                 | [] => [cur; mkTier t [mkMix sm [a]]]
                 | _ :: _ => cur :: insertTier E t sm a rest
                 end)
      (a :: finalSets (cur :: rest))
    /\ exists tg m,
         In tg match rest with
               | [] => [cur; mkTier t [mkMix sm [a]]]
               | _ :: _ => cur :: insertTier E t sm a rest
               end
         /\ tier tg = t
         /\ In m (statMixes tg) /\ statMix m = sm /\ In a (armorSets m)).
  { destruct rest as [|r rest'].
    - split.
      + rewrite !finalSets_cons. simpl. rewrite !app_nil_r.
        apply Permutation_sym, Permutation_cons_append.
      + exists (mkTier t [mkMix sm [a]]), (mkMix sm [a]). simpl. auto 6.
    - destruct IH as [Pm [tg [m [Htg H]]]]; [discriminate|]. split.
      + rewrite !(finalSets_cons cur).
        eapply Permutation_trans; [apply Permutation_app_head; exact Pm|].
        apply Permutation_sym, Permutation_middle.
      + exists tg, m. split; [right; exact Htg | exact H]. }
  destruct (t =? tier cur) eqn:Eeq; [|exact Hfall].
  destruct (statMixes cur) as [|m0 ms] eqn:Emixes;
    [cbn [insertStatMix]; exact Hfall|].
  destruct (insertStatMix_some sm a (m0 :: ms)) as [m' [Em [Pm [m [Hm H]]]]];
    [discriminate|].
  rewrite Em. split.
  - rewrite !finalSets_cons. cbn [statMixes]. rewrite Emixes.
    exact (Permutation_app_tail (finalSets rest) Pm).
  - exists (mkTier (tier cur) m'), m. simpl. split; [left; reflexivity|].
    split; [symmetry; apply Z.eqb_eq; exact Eeq|]. split; [exact Hm | exact H].
Qed.

(** X1. Whatever the tracker holds, [insertIntoSetTracker] adds the new set
    and nothing else: the sets of the tracker after the call are those
    before it and the new one, each as often as before. *)
Theorem insertIntoSetTracker_adds_exactly_the_set t sm a tracker :
  Permutation (finalSets (insertIntoSetTracker E t sm a tracker))
              (a :: finalSets tracker).
Proof.
  destruct tracker as [|cur rest].
  - simpl. apply Permutation_refl.
  - apply insertTier_any. discriminate.
Qed.

(** X2. Whatever the tracker holds, after [insertIntoSetTracker] the new set
    is found where a reader looks for it: in a tier group of its total tier
    and, there, in a signature group of its stat mix. *)
Theorem insertIntoSetTracker_files_under_its_keys t sm a tracker :
  exists tg m,
    In tg (insertIntoSetTracker E t sm a tracker) /\ tier tg = t
    /\ In m (statMixes tg) /\ statMix m = sm /\ In a (armorSets m).
Proof.
  destruct tracker as [|cur rest].
  - exists (mkTier t [mkMix sm [a]]), (mkMix sm [a]). simpl. auto 6.
  - apply insertTier_any. discriminate.
Qed.

(** X3. On a tracker whose groups are in order (tiers strictly descending,
    signatures strictly descending within a tier, no group empty),
    [insertIntoSetTracker] leaves the groups in order: it opens no second
    group for a tier or a signature that is there already. *)
Theorem insertIntoSetTracker_keeps_groups_in_order t sm a tracker :
  trackerOrdered tracker ->
  trackerOrdered (insertIntoSetTracker E t sm a tracker).
Proof. apply insertIntoSetTracker_ordered. Qed.

(** ** What every group keeps *)

Section Groups.

Variable G : Z -> string -> list IntermediateProcessArmorSet -> Prop.

Lemma insertStatMix_groups t sm a mixes :
  G t sm [a] ->
  (forall sets0 sets',
      G t sm sets0 -> insertArmorSet E a sets0 = Some sets' -> G t sm sets') ->
  forall mixes',
    Forall (fun m => G t (statMix m) (armorSets m)) mixes ->
    insertStatMix E sm a mixes = Some mixes' ->
    Forall (fun m => G t (statMix m) (armorSets m)) mixes'.
Proof.
  intros Hnew Hins.
  induction mixes as [|cur rest IH]; intros mixes' Hall Hrun; [discriminate|].
  inversion Hall as [|? ? Hcur Hrest]; subst. simpl in Hrun.
  destruct (stringGt sm (statMix cur)).
  { inversion Hrun; subst. constructor; [exact Hnew | exact Hall]. }
  assert (Hfall :
    match rest with
    | [] => Some [cur; mkMix sm [a]]
    | _ :: _ => option_map (cons cur) (insertStatMix E sm a rest)
    end = Some mixes' ->
    Forall (fun m => G t (statMix m) (armorSets m)) mixes').
  { destruct rest as [|r rest'].
    - intros H. inversion H; subst.
      constructor; [exact Hcur|]. constructor; [exact Hnew | constructor].
    - destruct (insertStatMix E sm a (r :: rest')) as [rec|]; simpl;
        [|discriminate].
      intros H. inversion H; subst.
      constructor; [exact Hcur | apply IH; [exact Hrest | reflexivity]]. }
  destruct (String.eqb (statMix cur) sm) eqn:Eeq; [|exact (Hfall Hrun)].
  destruct (insertArmorSet E a (armorSets cur)) as [s'|] eqn:Es;
    [|exact (Hfall Hrun)].
  inversion Hrun; subst. apply String.eqb_eq in Eeq.
  constructor; [|exact Hrest]. simpl. rewrite Eeq in *.
  eapply Hins; eassumption.
Qed.

Lemma insertTier_groups t sm a tracker :
  G t sm [a] ->
  (forall sets0 sets',
      G t sm sets0 -> insertArmorSet E a sets0 = Some sets' -> G t sm sets') ->
  trackerGroups G tracker ->
  trackerGroups G (insertTier E t sm a tracker).
Proof.
  intros Hnew Hins. unfold trackerGroups.
  assert (Hgroup : Forall (fun m => G t (statMix m) (armorSets m))
                          [mkMix sm [a]])
    by (constructor; [exact Hnew | constructor]).
  induction tracker as [|cur rest IH]; intros Hall; [constructor|].
  inversion Hall as [|? ? Hcur Hrest]; subst. cbn [insertTier].
  destruct (t >? tier cur).
  { constructor; [exact Hgroup | exact Hall]. }
  assert (Hfall :
    Forall (fun tg =>
              Forall (fun m => G (tier tg) (statMix m) (armorSets m))
                     (statMixes tg))
           match rest with
           | [] => [cur; mkTier t [mkMix sm [a]]]
           | _ :: _ => cur :: insertTier E t sm a rest
           end).
  { destruct rest as [|r rest'].
    - constructor; [exact Hcur|]. constructor; [exact Hgroup | constructor].
    - constructor; [exact Hcur | apply IH; exact Hrest]. }
  destruct (t =? tier cur) eqn:Eeq; [|exact Hfall].
  destruct (insertStatMix E sm a (statMixes cur)) as [m'|] eqn:Em;
    [|exact Hfall].
  apply Z.eqb_eq in Eeq. constructor; [|exact Hrest]. simpl.
  rewrite <- Eeq in *.
  eapply insertStatMix_groups; eassumption.
Qed.

Lemma insertIntoSetTracker_groups t sm a tracker :
  G t sm [a] ->
  (forall sets0 sets',
      G t sm sets0 -> insertArmorSet E a sets0 = Some sets' -> G t sm sets') ->
  trackerGroups G tracker ->
  trackerGroups G (insertIntoSetTracker E t sm a tracker).
Proof.
  intros Hnew Hins Hall. destruct tracker as [|cur rest].
  - constructor; [|constructor]. constructor; [exact Hnew | constructor].
  - apply insertTier_groups; assumption.
Qed.

Hypothesis G_removelast :
  forall t sm sets0, G t sm sets0 -> G t sm (removelast sets0).

Lemma trackerGroups_setLast tracker lowestTierSet mixes' :
  trackerGroups G tracker ->
  Forall (fun m => G (tier lowestTierSet) (statMix m) (armorSets m)) mixes' ->
  trackerGroups G (setLast tracker (mkTier (tier lowestTierSet) mixes')).
Proof.
  intros Hall Hmixes. unfold setLast, trackerGroups. apply Forall_app. split.
  - destruct (removelast_prefix tracker) as [p Hp]. unfold trackerGroups in Hall.
    rewrite Hp in Hall. apply Forall_app in Hall. apply Hall.
  - constructor; [exact Hmixes | constructor].
Qed.

Lemma dropWorstSet_groups tracker lowest tracker' lowest' :
  dropWorstSet tracker lowest = Ok (tracker', lowest') ->
  trackerGroups G tracker -> trackerGroups G tracker'.
Proof.
  unfold dropWorstSet. intros Hdrop Hall.
  destruct (lastItem tracker) as [lowestTierSet|] eqn:Elast; [|discriminate].
  destruct (lastItem (statMixes lowestTierSet)) as [worstMix|] eqn:Emix;
    [|discriminate].
  assert (Hmixes : Forall (fun m => G (tier lowestTierSet) (statMix m)
                                      (armorSets m))
                          (statMixes lowestTierSet)).
  { unfold trackerGroups in Hall. rewrite Forall_forall in Hall. apply Hall.
    rewrite (lastItem_some _ _ Elast). apply in_or_app. right. left.
    reflexivity. }
  assert (Hfront : trackerGroups G (removelast tracker)).
  { unfold trackerGroups in *. rewrite (lastItem_some _ _ Elast) in Hall.
    apply Forall_app in Hall. apply Hall. }
  assert (Hmfront : Forall (fun m => G (tier lowestTierSet) (statMix m)
                                      (armorSets m))
                           (removelast (statMixes lowestTierSet))).
  { rewrite (lastItem_some _ _ Emix) in Hmixes.
    apply Forall_app in Hmixes. apply Hmixes. }
  assert (Hworst : G (tier lowestTierSet) (statMix worstMix)
                     (armorSets worstMix)).
  { rewrite Forall_forall in Hmixes. apply Hmixes.
    rewrite (lastItem_some _ _ Emix). apply in_or_app. right. left.
    reflexivity. }
  destruct (len (removelast (armorSets worstMix)) =? 0).
  - destruct (len (removelast (statMixes lowestTierSet)) =? 0).
    + destruct (lastItem (removelast tracker)); [|discriminate].
      inversion Hdrop; subst. exact Hfront.
    + inversion Hdrop; subst.
      apply trackerGroups_setLast; assumption.
  - inversion Hdrop; subst.
    apply trackerGroups_setLast; [assumption|].
    unfold setLast. apply Forall_app. split; [exact Hmfront|].
    constructor; [|constructor]. simpl. apply G_removelast. exact Hworst.
Qed.

End Groups.

(** ** The loops, one combination at a time *)

Section Loops.

Variable modStatTotals : StatMap Z.
Variable assumeMasterwork : bool.
Variable statOrder : list StatTypes.
Variable statFilters : StatMap MinMaxIgnored.
Variable hasMods : bool.
Variable generalModsPermutations : ModPermutations E.
Variable otherModPermutations : ModPermutations E.
Variable raidModPermutations : ModPermutations E.

Local Abbreviation step :=
  (considerCombination E modStatTotals assumeMasterwork statOrder statFilters
     hasMods generalModsPermutations otherModPermutations raidModPermutations).

Local Abbreviation loops :=
  (enumerate E modStatTotals assumeMasterwork statOrder statFilters
     hasMods generalModsPermutations otherModPermutations raidModPermutations).

Local Abbreviation considered := (orderedConsideredStats statOrder statFilters).

Local Abbreviation aggregate :=
  (aggregateStats E modStatTotals assumeMasterwork statOrder).

(** What the body of the innermost loop keeps for every selection that
    reaches it, the five loops keep. *)
Lemma enumerate_preserves (I : State -> Prop) L :
  (forall armor0 st st',
      enumerated L armor0 -> I st -> step armor0 st = Ok st' -> I st') ->
  forall st st', I st -> loops L st = Ok st' -> I st'.
Proof.
  intros Hstep. unfold enumerate.
  apply forOf_preserves. intros helm st st' Hhelm Hst Hrun.
  revert st st' Hst Hrun.
  apply forOf_preserves. intros gaunt st st' Hgaunt Hst Hrun.
  destruct (truthyString (equippingLabel helm)
            && truthyString (equippingLabel gaunt)) eqn:C1;
    [inversion Hrun; subst; exact Hst|].
  revert st st' Hst Hrun.
  apply forOf_preserves. intros chest0 st st' Hchest Hst Hrun.
  destruct (truthyString (equippingLabel chest0) && _) eqn:C2;
    [inversion Hrun; subst; exact Hst|].
  revert st st' Hst Hrun.
  apply forOf_preserves. intros leg0 st st' Hleg Hst Hrun.
  destruct (truthyString (equippingLabel leg0) && _) eqn:C3;
    [inversion Hrun; subst; exact Hst|].
  revert st st' Hst Hrun.
  apply forOf_preserves. intros classItem st st' Hclass Hst Hrun.
  eapply Hstep; [|exact Hst|exact Hrun].
  exists helm, gaunt, chest0, leg0, classItem. repeat split; assumption.
Qed.

(** The outcomes of the body of the innermost loop: the tracker stays as it
    is, or the selection is inserted under the total tier and the signature
    that the loop over the considered stats computed, and the worst set is
    dropped when the count is above the cap. *)
Lemma considerCombination_outcomes armor0 st st' :
  step armor0 st = Ok st' ->
  setTracker st' = setTracker st
  \/ exists acc,
       tierLoop statOrder statFilters considered
                (mkAcc (aggregate armor0) (statRanges st) "" 0 0)
       = (false, acc)
       /\ let tracker1 :=
            insertIntoSetTracker E (totalTier acc) (tiers acc)
                                 (mkIntermediate armor0 (accStats acc))
                                 (setTracker st) in
          setTracker st' = tracker1
          \/ exists lowest lowest',
               dropWorstSet tracker1 lowest = Ok (setTracker st', lowest').
Proof.
  unfold considerCombination.
  destruct (tierLoop statOrder statFilters _ _) as [exceeded acc] eqn:Eloop.
  cbv zeta. cbn [lowestTier setCount setTracker statRanges trace].
  destruct exceeded; [intros H; inversion H; subst; left; reflexivity|].
  destruct (if totalTier acc <? lowestTier st then _ else _) as [lowest1|];
    [|intros H; inversion H; subst; left; reflexivity].
  destruct (hasMods && negb _);
    [intros H; inversion H; subst; left; reflexivity|].
  destruct (setCount st + 1 >? RETURNED_ARMOR_SETS).
  - destruct (dropWorstSet _ _) as [[tracker2 lowest2]| |] eqn:Edrop;
      cbn [bind]; try discriminate.
    intros H. inversion H; subst. right. exists acc. split; [reflexivity|].
    right. exists lowest1, lowest2. exact Edrop.
  - intros H. inversion H; subst. right. exists acc. split; [reflexivity|].
    left. reflexivity.
Qed.

(** A property [G] of the groups that the removal of a last set keeps, and
    that every insertion of a selection under its own keys keeps, holds of
    the groups after the loops. *)
Lemma enumerate_groups (G : Z -> string -> list IntermediateProcessArmorSet -> Prop) L :
  (forall t sm sets0, G t sm sets0 -> G t sm (removelast sets0)) ->
  (forall armor0 ranges acc,
      enumerated L armor0 ->
      tierLoop statOrder statFilters considered
               (mkAcc (aggregate armor0) ranges "" 0 0) = (false, acc) ->
      G (totalTier acc) (tiers acc) [mkIntermediate armor0 (accStats acc)]
      /\ forall sets0 sets',
           G (totalTier acc) (tiers acc) sets0 ->
           insertArmorSet E (mkIntermediate armor0 (accStats acc)) sets0
           = Some sets' ->
           G (totalTier acc) (tiers acc) sets') ->
  forall st st',
    trackerGroups G (setTracker st) -> loops L st = Ok st' ->
    trackerGroups G (setTracker st').
Proof.
  intros Hdrop Hnew.
  apply (enumerate_preserves (fun s => trackerGroups G (setTracker s))).
  intros armor0 st st' Henum Hst Hrun.
  destruct (considerCombination_outcomes _ _ _ Hrun) as [->|[acc [Eacc Hcase]]];
    [exact Hst|].
  destruct (Hnew armor0 _ acc Henum Eacc) as [Hone Hins].
  pose proof (insertIntoSetTracker_groups G _ _ _ _ Hone Hins Hst) as Hins1.
  cbv zeta in Hcase. destruct Hcase as [->|[lowest [lowest' Edrop]]];
    [exact Hins1|].
  eapply dropWorstSet_groups; eassumption.
Qed.

End Loops.

(** ** The loop over the considered stats *)

Lemma string_append_assoc (a b c : string) :
  String.append (String.append a b) c = String.append a (String.append b c).
Proof. induction a as [|x a IH]; simpl; [reflexivity | rewrite IH; reflexivity]. Qed.

Lemma string_append_nil_r (a : string) : String.append a EmptyString = a.
Proof. induction a as [|x a IH]; simpl; [reflexivity | rewrite IH; reflexivity]. Qed.

Lemma clampStat_small stats0 k k' :
  getStat stats0 k' <= 100 ->
  getStat (clampStat stats0 k) k' = getStat stats0 k'.
Proof.
  intros H. unfold clampStat.
  destruct (Z.gtb_spec (getStat stats0 k) 100) as [Hk|Hk]; [|reflexivity].
  apply getStat_setStat_other. intros ->. lia.
Qed.

Lemma clampStat_above lo stats0 k k' :
  lo <= 100 -> lo <= getStat stats0 k' -> lo <= getStat (clampStat stats0 k) k'.
Proof.
  intros Hlo H. unfold clampStat. destruct (getStat stats0 k >? 100); [|exact H].
  destruct (StatTypes_eq_dec k k') as [<-|Hk].
  - rewrite getStat_setStat_same. exact Hlo.
  - rewrite (getStat_setStat_other _ _ _ _ Hk). exact H.
Qed.

Lemma clampConsidered_small l :
  forall stats0 k,
    getStat stats0 k <= 100 ->
    getStat (clampConsidered l stats0) k = getStat stats0 k.
Proof.
  induction l as [|k0 rest IH]; intros stats0 k H; [reflexivity|].
  unfold clampConsidered in *. simpl. rewrite IH.
  - apply clampStat_small. exact H.
  - rewrite clampStat_small; assumption.
Qed.

Lemma clampConsidered_above lo l :
  lo <= 100 ->
  forall stats0 k,
    lo <= getStat stats0 k -> lo <= getStat (clampConsidered l stats0) k.
Proof.
  intros Hlo. induction l as [|k0 rest IH]; intros stats0 k H; [exact H|].
  unfold clampConsidered in *. simpl. apply IH. apply clampStat_above; assumption.
Qed.

Section Tiers.

Variable statOrder : list StatTypes.
Variable statFilters : StatMap MinMaxIgnored.

(** When the loop ends without [statRangeExceeded], the stats are the
    aggregate with every stat of the list clamped, every tier is within the
    filter of its stat, and the total tier and the signature are those of
    the clamped stats. *)
Lemma tierLoop_passed l :
  forall acc acc',
    tierLoop statOrder statFilters l acc = (false, acc') ->
    accStats acc' = clampConsidered l (accStats acc)
    /\ (forall k, In k l ->
                  getStat (accStats acc') k <= 100
                  /\ min (getStat statFilters k)
                     <= statTier (getStat (accStats acc') k)
                     <= max (getStat statFilters k))
    /\ totalTier acc' = totalTier acc + totalTierOf l (accStats acc')
    /\ tiers acc'
       = String.append (tiers acc)
                       (signatureFrom statOrder l (accStats acc') (accIndex acc)).
Proof.
  induction l as [|k rest IH]; intros acc acc' Hloop; simpl in Hloop.
  - inversion Hloop; subst. simpl. rewrite string_append_nil_r.
    repeat split; try lia; contradiction.
  - destruct (Z.gtb_spec (statTier (getStat (clampStat (accStats acc) k) k))
                         (max (getStat statFilters k))) as [Hmax|Hmax];
      [discriminate|].
    destruct (Z.ltb_spec (statTier (getStat (clampStat (accStats acc) k) k))
                         (min (getStat statFilters k))) as [Hmin|Hmin];
      [discriminate|].
    simpl in Hloop. apply IH in Hloop.
    cbn [accStats totalTier tiers accIndex] in Hloop.
    destruct Hloop as [Hstats [Hall [Htotal Htiers]]].
    assert (Hkeep : getStat (accStats acc') k
                    = getStat (clampStat (accStats acc) k) k).
    { rewrite Hstats. apply clampConsidered_small. apply clampStat_same. }
    split; [exact Hstats|]. split; [|split].
    + intros k' [<-|Hin]; [|apply Hall; exact Hin].
      rewrite Hkeep. split; [apply clampStat_same | lia].
    + rewrite Htotal. cbn [totalTierOf]. rewrite Hkeep. lia.
    + rewrite Htiers. cbn [signatureFrom]. rewrite Hkeep.
      destruct (accIndex acc <? len statOrder - 1);
        rewrite ?string_append_assoc; reflexivity.
Qed.

End Tiers.

(** ** The sets of the result *)

Lemma trackerGroups_finalSets (Q : Z -> string -> IntermediateProcessArmorSet -> Prop)
  tracker :
  trackerGroups (fun t sm sets0 => Forall (Q t sm) sets0) tracker ->
  forall s, In s (finalSets tracker) -> exists t sm, Q t sm s.
Proof.
  unfold trackerGroups, finalSets. intros Hall s Hs.
  apply in_flat_map in Hs. destruct Hs as [tg [Htg Hs]].
  apply in_flat_map in Hs. destruct Hs as [m [Hm Hs]].
  rewrite Forall_forall in Hall. specialize (Hall tg Htg).
  rewrite Forall_forall in Hall. specialize (Hall m Hm).
  rewrite Forall_forall in Hall. exists (tier tg), (statMix m). auto.
Qed.

Section Results.

Variable filteredItems : ProcessItemsByBucket.
Variable modStatTotals : StatMap Z.
Variable lockedModMap : list (Z * list (ProcessMod E)).
Variable assumeMasterwork : bool.
Variable statOrder : list StatTypes.
Variable statFilters : StatMap MinMaxIgnored.

Local Abbreviation run0 :=
  (processRun E filteredItems modStatTotals lockedModMap assumeMasterwork
     statOrder statFilters).

Local Abbreviation process0 :=
  (process E filteredItems modStatTotals lockedModMap assumeMasterwork
     statOrder statFilters).

Local Abbreviation L0 := (sortedLists E filteredItems statOrder statFilters).

Local Abbreviation considered := (orderedConsideredStats statOrder statFilters).

Local Abbreviation aggregate :=
  (aggregateStats E modStatTotals assumeMasterwork statOrder).

Local Abbreviation tracked :=
  (trackedAs E modStatTotals assumeMasterwork statOrder statFilters).

Lemma trackedAs_facts L t sm s :
  tracked L t sm s ->
  enumerated L (armor s)
  /\ stats s = clampConsidered considered (aggregate (armor s))
  /\ (forall k, In k considered ->
                getStat (stats s) k <= 100
                /\ min (getStat statFilters k)
                   <= statTier (getStat (stats s) k)
                   <= max (getStat statFilters k))
  /\ t = totalTierOf considered (stats s)
  /\ sm = signatureFrom statOrder considered (stats s) 0.
Proof.
  intros [Henum [ranges [acc [Hloop [Hstats [-> ->]]]]]].
  apply tierLoop_passed in Hloop. cbn [accStats totalTier tiers accIndex] in Hloop.
  destruct Hloop as [H1 [H2 [H3 H4]]]. rewrite Hstats.
  repeat split; try assumption; try apply H2; try assumption.
Qed.

(** The groups of the final tracker hold what the loop body made of the
    selections it was given, each under the keys computed for it. *)
Lemma processRun_tracked r st :
  run0 = Ok r -> runFinal r = Some st ->
  trackerGroups (fun t sm sets0 => Forall (tracked (runLists r) t sm) sets0)
                (setTracker st).
Proof.
  intros Er Ef. pose proof (processRun_final _ _ _ _ _ _ _ _ _ Er Ef) as Hloops.
  eapply enumerate_groups with (st := initialState statFilters);
    [| |apply Forall_nil|exact Hloops].
  - intros t sm sets0 Hall. rewrite Forall_forall in *. intros s Hs.
    apply Hall. apply (incl_removelast sets0). exact Hs.
  - intros armor0 ranges acc Henum Hacc.
    assert (Hnew : tracked (runLists r) (totalTier acc) (tiers acc)
                           (mkIntermediate armor0 (accStats acc))).
    { split; [exact Henum|]. exists ranges, acc. repeat split. exact Hacc. }
    split; [constructor; [exact Hnew | constructor]|].
    intros sets0 sets' Hall Hins. unfold insertArmorSet in Hins.
    destruct sets0 as [|first rest]; [discriminate|].
    destruct (_ >? _); inversion Hins; subst.
    + cbv beta in *. constructor; [exact Hnew | exact Hall].
    + cbv beta in *. apply (proj2 (Forall_app _ (first :: rest) [_])).
      split; [exact Hall|]. constructor; [exact Hnew | constructor].
Qed.

(** Every set of the result comes from a selection of the caller's items
    and stands in the final tracker under its own keys. *)
Lemma process_sets_tracked out after s :
  process0 = Ok (out, after) -> In s (sets out) ->
  exists a t sm,
    s = mkArmorSet (map id (armor a)) (stats a)
    /\ selectionOf (listsOf filteredItems) (armor a)
    /\ tracked (listsOf after) t sm a.
Proof.
  intros Hproc Hs.
  destruct (process_run _ _ _ _ _ _ _ _ _ Hproc) as [r [Er [-> ->]]].
  destruct (processRun_ok E filteredItems modStatTotals lockedModMap
              assumeMasterwork statOrder statFilters)
    as [r' [Er' [_ [_ [_ [Htrim _]]]]]].
  rewrite Er in Er'. inversion Er'; subst r'. clear Er'.
  pose proof (trimsTo_frontOf _ _ _ Htrim) as Hfront.
  rewrite (listsOf_callerArrays _ _ _ _ _ Hfront).
  unfold outputOf in Hs. destruct (runFinal r) as [st|] eqn:Ef; [|destruct Hs].
  simpl in Hs. unfold flattenSets in Hs. apply in_map_iff in Hs.
  destruct Hs as [a [<- Ha]].
  destruct (trackerGroups_finalSets _ _ (processRun_tracked r st Er Ef) a Ha)
    as [t [sm Htracked]].
  exists a, t, sm. split; [reflexivity|]. split; [|exact Htracked].
  eapply enumerated_selectionOf; [exact Hfront | apply Htracked].
Qed.

(** X4. For every input [process] returns, and the stats of every set it
    returns are the mod totals plus the resolved stats of five items, one
    from each list the caller gave, with every stat that is not ignored
    clamped to 100; the set lists the identifiers of these items in the
    order of the slots. *)
Theorem process_set_stats_are_clamped_aggregates :
  exists out after,
    process0 = Ok (out, after)
    /\ forall s, In s (sets out) ->
                 exists items,
                   selectionOf (listsOf filteredItems) items
                   /\ armorIds s = map id items
                   /\ setStats s = clampConsidered considered (aggregate items).
Proof.
  destruct (process_total E filteredItems modStatTotals lockedModMap
              assumeMasterwork statOrder statFilters) as [r [_ Hproc]].
  eexists _, _. split; [exact Hproc|]. intros s Hs.
  destruct (process_sets_tracked _ _ s Hproc Hs) as [a [t [sm [-> [Hsel Htr]]]]].
  exists (armor a). split; [exact Hsel|]. split; [reflexivity|].
  apply trackedAs_facts in Htr. apply Htr.
Qed.

(** X5. Every set that [process] returns passes the stat filters: for every
    stat of the order that is not ignored, the tier of the returned value
    lies between the [min] and the [max] of the filter of that stat. *)
Theorem process_sets_pass_the_filters :
  exists out after,
    process0 = Ok (out, after)
    /\ forall s k,
         In s (sets out) -> In k statOrder ->
         ignored (getStat statFilters k) = false ->
         min (getStat statFilters k)
         <= statTier (getStat (setStats s) k)
         <= max (getStat statFilters k).
Proof.
  destruct (process_total E filteredItems modStatTotals lockedModMap
              assumeMasterwork statOrder statFilters) as [r [_ Hproc]].
  eexists _, _. split; [exact Hproc|]. intros s k Hs Hk Hnot.
  destruct (process_sets_tracked _ _ s Hproc Hs) as [a [t [sm [-> [_ Htr]]]]].
  apply trackedAs_facts in Htr. destruct Htr as [_ [_ [Hall _]]].
  simpl. apply Hall. unfold orderedConsideredStats. apply filter_In.
  split; [exact Hk | rewrite Hnot; reflexivity].
Qed.

End Results.

(** ** The order of the result *)

Lemma string_compare_gt_trans a :
  forall b c,
    String.compare a b = Gt -> String.compare b c = Gt ->
    String.compare a c = Gt.
Proof.
  induction a as [|x a IH]; intros b c Hab Hbc;
    destruct b as [|y b], c as [|z c]; simpl in *;
    try discriminate; try reflexivity.
  destruct (Ascii.compare x y) eqn:Exy; try discriminate.
  - apply Ascii.compare_eq_iff in Exy. subst y.
    destruct (Ascii.compare x z); try discriminate;
      [eapply IH; eassumption | reflexivity].
  - destruct (Ascii.compare y z) eqn:Eyz; try discriminate.
    + apply Ascii.compare_eq_iff in Eyz. subst z. rewrite Exy. reflexivity.
    + assert (Hxz : Ascii.compare x z = Gt).
      { unfold Ascii.compare in *. apply N.compare_gt_iff in Exy, Eyz.
        apply N.compare_gt_iff. lia. }
      rewrite Hxz. reflexivity.
Qed.

Lemma stringGt_trans a b c :
  stringGt a b = true -> stringGt b c = true -> stringGt a c = true.
Proof.
  unfold stringGt. intros Hab Hbc.
  destruct (String.compare a b) eqn:Eab; try discriminate.
  destruct (String.compare b c) eqn:Ebc; try discriminate.
  rewrite (string_compare_gt_trans a b c Eab Ebc). reflexivity.
Qed.

Lemma gtb_trans a b c : (a >? b) = true -> (b >? c) = true -> (a >? c) = true.
Proof. rewrite !Z.gtb_ltb, !Z.ltb_lt. lia. Qed.

Lemma descending_head_above_all {K : Type} (gt : K -> K -> bool) :
  (forall a b c, gt a b = true -> gt b c = true -> gt a c = true) ->
  forall l x, descending gt (x :: l) -> Forall (fun y => gt x y = true) l.
Proof.
  intros Htrans. induction l as [|y l IH]; intros x [Hh Hd]; [constructor|].
  simpl in Hh. constructor; [exact Hh|].
  specialize (IH y Hd). rewrite Forall_forall in *.
  intros z Hz. eapply Htrans; [exact Hh | apply IH; exact Hz].
Qed.

Lemma ForallOrdPairs_app {T : Type} (R : T -> T -> Prop) l1 l2 :
  ForallOrdPairs R l1 -> ForallOrdPairs R l2 ->
  (forall x y, In x l1 -> In y l2 -> R x y) ->
  ForallOrdPairs R (l1 ++ l2).
Proof.
  induction l1 as [|x l1 IH]; intros H1 H2 H12; [exact H2|].
  inversion H1 as [|? ? Hx Hrest]; subst. simpl. constructor.
  - apply Forall_app. split; [exact Hx|].
    apply Forall_forall. intros y Hy. apply H12; [left; reflexivity | exact Hy].
  - apply IH; [exact Hrest | exact H2|].
    intros x' y Hx' Hy. apply H12; [right; exact Hx' | exact Hy].
Qed.

Lemma ForallOrdPairs_map {T U : Type} (f : T -> U) (R : U -> U -> Prop) l :
  ForallOrdPairs (fun a b => R (f a) (f b)) l -> ForallOrdPairs R (map f l).
Proof.
  induction 1 as [|x l Hx _ IH]; simpl; constructor; [|exact IH].
  apply Forall_map. exact Hx.
Qed.

Lemma ForallOrdPairs_same_key {T : Type} (key : T -> Z * string) k l :
  Forall (fun s => key s = k) l ->
  ForallOrdPairs (fun s1 s2 => keyNotBelow (key s1) (key s2)) l.
Proof.
  induction 1 as [|x l Hx Hl IH]; constructor; [|exact IH].
  rewrite Forall_forall in *. intros y Hy. rewrite Hx, (Hl y Hy).
  right. split; [reflexivity | left; reflexivity].
Qed.

(** The sets of one tier, group after group, are in the order of their
    signatures. *)
Lemma mixes_in_key_order (key : IntermediateProcessArmorSet -> Z * string) t mixes :
  descending stringGt (map statMix mixes) ->
  Forall (fun m => Forall (fun s => key s = (t, statMix m)) (armorSets m))
         mixes ->
  ForallOrdPairs (fun s1 s2 => keyNotBelow (key s1) (key s2))
                 (flat_map armorSets mixes).
Proof.
  induction mixes as [|m rest IH]; intros Hdesc Hall; [constructor|].
  inversion Hall as [|? ? Hm Hrest]; subst. simpl.
  pose proof (descending_head_above_all stringGt stringGt_trans _ _ Hdesc)
    as Habove.
  apply ForallOrdPairs_app.
  - eapply ForallOrdPairs_same_key. exact Hm.
  - apply IH; [apply Hdesc | exact Hrest].
  - intros x y Hx Hy. apply in_flat_map in Hy. destruct Hy as [m' [Hm' Hy]].
    rewrite Forall_forall in Hm, Hrest, Habove.
    rewrite (Hm x Hx). specialize (Hrest m' Hm').
    rewrite Forall_forall in Hrest. rewrite (Hrest y Hy).
    right. split; [reflexivity|]. right. cbn [fst snd].
    apply Habove. exact (in_map statMix rest m' Hm').
Qed.

(** The flattened tracker is in the order of total tier and signature. *)
Lemma finalSets_in_key_order (key : IntermediateProcessArmorSet -> Z * string)
  tracker :
  trackerSorted tracker ->
  trackerGroups (fun t sm sets0 => Forall (fun s => key s = (t, sm)) sets0)
                tracker ->
  ForallOrdPairs (fun s1 s2 => keyNotBelow (key s1) (key s2))
                 (finalSets tracker).
Proof.
  unfold trackerGroups.
  induction tracker as [|tg rest IH]; intros [Hdesc Hmixes] Hall; [constructor|].
  inversion Hall as [|? ? Htg Hrest]; subst.
  inversion Hmixes as [|? ? Hsorted Hmixes']; subst.
  pose proof (descending_head_above_all Z.gtb gtb_trans _ _ Hdesc) as Habove.
  rewrite finalSets_cons. apply ForallOrdPairs_app.
  - apply mixes_in_key_order with (t := tier tg); assumption.
  - apply IH; [split; [apply Hdesc | exact Hmixes'] | exact Hrest].
  - intros x y Hx Hy.
    apply in_flat_map in Hx. destruct Hx as [m [Hm Hx]].
    unfold finalSets in Hy.
    apply in_flat_map in Hy. destruct Hy as [tg' [Htg' Hy]].
    apply in_flat_map in Hy. destruct Hy as [m' [Hm' Hy]].
    rewrite Forall_forall in Htg, Hrest, Habove.
    specialize (Htg m Hm). rewrite Forall_forall in Htg. rewrite (Htg x Hx).
    specialize (Hrest tg' Htg'). rewrite Forall_forall in Hrest.
    specialize (Hrest m' Hm'). rewrite Forall_forall in Hrest.
    rewrite (Hrest y Hy). left. simpl.
    specialize (Habove (tier tg') (in_map tier _ _ Htg')).
    rewrite Z.gtb_ltb in Habove. apply Z.ltb_lt in Habove. lia.
Qed.

Lemma trackerGroups_impl
  (G G' : Z -> string -> list IntermediateProcessArmorSet -> Prop) tracker :
  (forall t sm sets0, G t sm sets0 -> G' t sm sets0) ->
  trackerGroups G tracker -> trackerGroups G' tracker.
Proof.
  intros Himpl. unfold trackerGroups. intros Hall.
  eapply Forall_impl; [|exact Hall]. intros tg Htg.
  eapply Forall_impl; [|exact Htg]. intros m. apply Himpl.
Qed.

Section Order.

Variable filteredItems : ProcessItemsByBucket.
Variable modStatTotals : StatMap Z.
Variable lockedModMap : list (Z * list (ProcessMod E)).
Variable assumeMasterwork : bool.
Variable statOrder : list StatTypes.
Variable statFilters : StatMap MinMaxIgnored.

Local Abbreviation considered := (orderedConsideredStats statOrder statFilters).

(** X6. The sets that [process] returns come in the order of total tier and
    signature, both read off the returned stats: of two sets, the earlier
    one has the higher total tier, or the same total tier and the same
    signature or one that is above under [>] on strings. *)
Theorem process_sets_ordered_by_tier_and_signature :
  exists out after,
    process E filteredItems modStatTotals lockedModMap assumeMasterwork
            statOrder statFilters = Ok (out, after)
    /\ ForallOrdPairs
         (fun s1 s2 =>
            keyNotBelow
              (totalTierOf considered (setStats s1),
               signatureFrom statOrder considered (setStats s1) 0)
              (totalTierOf considered (setStats s2),
               signatureFrom statOrder considered (setStats s2) 0))
         (sets out).
Proof.
  destruct (process_total E filteredItems modStatTotals lockedModMap
              assumeMasterwork statOrder statFilters) as [r [Er Hproc]].
  eexists _, _. split; [exact Hproc|].
  unfold outputOf. destruct (runFinal r) as [st|] eqn:Ef; [|constructor].
  cbn [sets]. unfold flattenSets.
  apply (ForallOrdPairs_map
           (fun set => mkArmorSet (map id (armor set)) (stats set))
           (fun s1 s2 =>
              keyNotBelow
                (totalTierOf considered (setStats s1),
                 signatureFrom statOrder considered (setStats s1) 0)
                (totalTierOf considered (setStats s2),
                 signatureFrom statOrder considered (setStats s2) 0))).
  cbn [setStats].
  apply (finalSets_in_key_order
           (fun s => (totalTierOf considered (stats s),
                      signatureFrom statOrder considered (stats s) 0))).
  - apply (processRun_groups_in_order E _ _ _ _ _ _ r st Er Ef).
  - eapply trackerGroups_impl;
      [|exact (processRun_tracked _ _ _ _ _ _ r st Er Ef)].
    intros t sm sets0 Hall. eapply Forall_impl; [|exact Hall].
    intros s Hs. apply trackedAs_facts in Hs.
    destruct Hs as [_ [_ [_ [-> ->]]]]. reflexivity.
Qed.

End Order.

(** ** The strongest set of a group *)

Lemma firstIsStrongest_removelast sets0 :
  firstIsStrongest E sets0 -> firstIsStrongest E (removelast sets0).
Proof.
  destruct sets0 as [|first rest]; [auto|]. intros Hall.
  destruct rest as [|second rest']; [exact I|].
  change (removelast (first :: second :: rest'))
    with (first :: removelast (second :: rest')).
  simpl in Hall |- *. rewrite Forall_forall in *. intros s Hs.
  apply Hall. apply (incl_removelast (second :: rest')). exact Hs.
Qed.

Lemma firstIsStrongest_insert a sets0 sets' :
  firstIsStrongest E sets0 ->
  insertArmorSet E a sets0 = Some sets' ->
  firstIsStrongest E sets'.
Proof.
  unfold insertArmorSet. destruct sets0 as [|first rest]; [discriminate|].
  intros Hall Hins. simpl in Hall.
  destruct (Z.gtb_spec (getPower E (armor a)) (getPower E (armor first)))
    as [Hgt|Hle]; inversion Hins; subst; simpl.
  - constructor; [lia|]. eapply Forall_impl; [|exact Hall].
    intros s Hs. cbv beta in *. lia.
  - apply Forall_app. split; [exact Hall|]. constructor; [exact Hle | constructor].
Qed.

(** X7. In the tracker that [process] flattens, no set of a signature group
    is stronger than the first set of the group: among the sets of one
    total tier and one signature, the result names one of the highest
    power first. *)
Theorem process_puts_a_strongest_set_first
  (filteredItems : ProcessItemsByBucket) (modStatTotals : StatMap Z)
  (lockedModMap : list (Z * list (ProcessMod E))) (assumeMasterwork : bool)
  (statOrder : list StatTypes) (statFilters : StatMap MinMaxIgnored) :
  exists r,
    processRun E filteredItems modStatTotals lockedModMap assumeMasterwork
               statOrder statFilters = Ok r
    /\ forall st, runFinal r = Some st ->
                  trackerGroups (fun _ _ sets0 => firstIsStrongest E sets0)
                                (setTracker st).
Proof.
  destruct (process_total E filteredItems modStatTotals lockedModMap
              assumeMasterwork statOrder statFilters) as [r [Er _]].
  exists r. split; [exact Er|]. intros st Ef.
  pose proof (processRun_final _ _ _ _ _ _ _ _ _ Er Ef) as Hloops.
  eapply enumerate_groups with (st := initialState statFilters);
    [| |apply Forall_nil|exact Hloops].
  - intros _ _ sets0. apply firstIsStrongest_removelast.
  - intros armor0 ranges acc _ _. split; [constructor|].
    intros sets0 sets'. apply firstIsStrongest_insert.
Qed.

(** ** Items only add to a stat *)

Lemma addItemStats_above itemStats :
  Forall (fun v => 0 <= v) itemStats ->
  forall order stats0 index k,
    getStat stats0 k <= getStat (addItemStats stats0 order itemStats index) k.
Proof.
  intros Hnonneg. induction order as [|statType rest IH];
    intros stats0 index k; [simpl; lia|].
  simpl. eapply Z.le_trans; [|apply IH].
  assert (Hnth : 0 <= nth index itemStats 0).
  { destruct (Nat.lt_ge_cases index (List.length itemStats)) as [Hlt|Hge].
    - rewrite Forall_forall in Hnonneg. apply Hnonneg. apply nth_In. exact Hlt.
    - rewrite nth_overflow; [lia | exact Hge]. }
  destruct (StatTypes_eq_dec statType k) as [<-|Hk].
  - rewrite getStat_setStat_same. lia.
  - rewrite (getStat_setStat_other _ _ _ _ Hk). lia.
Qed.

Lemma aggregateStats_above modStatTotals assumeMasterwork statOrder armor0 k :
  getStat modStatTotals k
  <= getStat (aggregateStats E modStatTotals assumeMasterwork statOrder armor0) k.
Proof.
  unfold aggregateStats. generalize modStatTotals as stats0.
  induction armor0 as [|item rest IH]; intros stats0; [simpl; lia|].
  simpl. eapply Z.le_trans; [|apply IH].
  apply addItemStats_above. apply getStatValuesWithMWProcess_nonneg.
Qed.

(** X8. No item lowers a stat: in every set that [process] returns, each of
    the six stats is at least the mod total of the stat, or at least 100
    where the mod total is more than that. *)
Theorem process_set_stats_not_below_mod_totals
  (filteredItems : ProcessItemsByBucket) (modStatTotals : StatMap Z)
  (lockedModMap : list (Z * list (ProcessMod E))) (assumeMasterwork : bool)
  (statOrder : list StatTypes) (statFilters : StatMap MinMaxIgnored) :
  exists out after,
    process E filteredItems modStatTotals lockedModMap assumeMasterwork
            statOrder statFilters = Ok (out, after)
    /\ forall s k,
         In s (sets out) ->
         Z.min (getStat modStatTotals k) 100 <= getStat (setStats s) k.
Proof.
  destruct (process_total E filteredItems modStatTotals lockedModMap
              assumeMasterwork statOrder statFilters) as [r [_ Hproc]].
  eexists _, _. split; [exact Hproc|]. intros s k Hs.
  destruct (process_sets_tracked _ _ _ _ _ _ _ _ s Hproc Hs)
    as [a [t [sm [-> [_ Htr]]]]].
  apply trackedAs_facts in Htr. destruct Htr as [_ [Hstats _]].
  simpl. rewrite Hstats. apply clampConsidered_above; [lia|].
  pose proof (aggregateStats_above modStatTotals assumeMasterwork statOrder
                (armor a) k).
  lia.
Qed.

(** ** What the stat resolver returns *)

Lemma addFlatMasterwork_count hs :
  forall bs h,
    addFlatMasterwork hs bs h = bs h + 2 * Z.of_nat (count_occ Z.eq_dec hs h).
Proof.
  unfold addFlatMasterwork.
  induction hs as [|x hs IH]; intros bs h; [simpl; lia|].
  cbn [fold_left]. rewrite IH. unfold setHash. cbn [count_occ].
  destruct (Z.eq_dec x h) as [->|Hne].
  - rewrite Z.eqb_refl. lia.
  - destruct (Z.eqb_spec h x); [congruence | lia].
Qed.

Lemma getStatValuesWithMWProcess_values
  (item : ProcessItem) (assumeMasterwork : bool) (orderedStatValues : list Z) :
  getStatValuesWithMWProcess E item assumeMasterwork orderedStatValues
  = map (fun statHash =>
           Z.max (baseStats item statHash
                  + match itemSockets item with
                    | Some _ =>
                        if truthyEnergy (energy item)
                        then 2 * Z.of_nat (count_occ Z.eq_dec orderedStatValues
                                                     statHash)
                        else 0
                    | None => 0
                    end) 0)
        orderedStatValues.
Proof.
  rewrite getStatValuesWithMWProcess_flat. unfold mwBranch.
  apply map_ext. intros h.
  destruct (itemSockets item); [|f_equal; lia].
  destruct (truthyEnergy (energy item)); [|f_equal; lia].
  rewrite orb_true_r, addFlatMasterwork_count. reflexivity.
Qed.

(** X9. The stat resolver returns one value for each stat hash it is asked
    for, in the order asked: the base stat, plus 2 for each time the hash
    is asked for when the item has sockets and a truthy energy, and 0 where
    that is negative. The plugs of the item do not enter it. *)
Theorem getStatValuesWithMWProcess_is_base_plus_flat_bonus
  (item : ProcessItem) (assumeMasterwork : bool) (orderedStatValues : list Z) :
  getStatValuesWithMWProcess E item assumeMasterwork orderedStatValues
  = map (fun statHash =>
           Z.max (baseStats item statHash
                  + match itemSockets item with
                    | Some _ =>
                        if truthyEnergy (energy item)
                        then 2 * Z.of_nat (count_occ Z.eq_dec orderedStatValues
                                                     statHash)
                        else 0
                    | None => 0
                    end) 0)
        orderedStatValues.
Proof. apply getStatValuesWithMWProcess_values. Qed.

(** ** The flag [assumeMasterwork] *)

Lemma getStatValuesWithMWProcess_flag item hs :
  getStatValuesWithMWProcess E item true hs
  = getStatValuesWithMWProcess E item false hs.
Proof.
  rewrite !getStatValuesWithMWProcess_values. reflexivity.
Qed.

Lemma aggregateStats_flag modStatTotals statOrder armor0 :
  aggregateStats E modStatTotals true statOrder armor0
  = aggregateStats E modStatTotals false statOrder armor0.
Proof.
  unfold aggregateStats. generalize modStatTotals as stats0.
  induction armor0 as [|item rest IH]; intros stats0; [reflexivity|].
  cbn [fold_left]. rewrite <- IH. unfold statsCache.
  rewrite getStatValuesWithMWProcess_flag. reflexivity.
Qed.

(** X10. The flag [assumeMasterwork] changes nothing: [process] returns the
    same object, and leaves the caller's arrays the same, with the flag set
    as with the flag cleared. *)
Theorem process_ignores_assumeMasterwork
  (filteredItems : ProcessItemsByBucket) (modStatTotals : StatMap Z)
  (lockedModMap : list (Z * list (ProcessMod E)))
  (statOrder : list StatTypes) (statFilters : StatMap MinMaxIgnored) :
  process E filteredItems modStatTotals lockedModMap true statOrder statFilters
  = process E filteredItems modStatTotals lockedModMap false statOrder
            statFilters.
Proof.
  unfold process, processRun.
  destruct (trimLoop E _ _) as [L| |]; cbn [bind]; try reflexivity.
  destruct (countCombos L =? 0); [reflexivity|].
  assert (Hloops :
    forall hasMods gp op rp st,
      enumerate E modStatTotals true statOrder statFilters hasMods gp op rp L st
      = enumerate E modStatTotals false statOrder statFilters hasMods gp op rp
                  L st).
  { intros hasMods gp op rp. unfold enumerate.
    apply forOf_ext. intros helm st. apply forOf_ext. intros gaunt st1.
    destruct (_ && _); [reflexivity|].
    apply forOf_ext. intros chest0 st2. destruct (_ && _); [reflexivity|].
    apply forOf_ext. intros leg0 st3. destruct (_ && _); [reflexivity|].
    apply forOf_ext. intros classItem st4.
    unfold considerCombination. rewrite aggregateStats_flag. reflexivity. }
  rewrite Hloops. reflexivity.
Qed.

(** ** The aggregate of a selection *)

Lemma addItemStats_map (g : StatTypes -> Z) order :
  forall pre stats0,
    addItemStats stats0 order (pre ++ map g order) (List.length pre)
    = fold_left (fun s k => setStat s k (getStat s k + g k)) order stats0.
Proof.
  induction order as [|k rest IH]; intros pre stats0; [reflexivity|].
  cbn [addItemStats map fold_left].
  rewrite app_nth2, Nat.sub_diag by lia. cbn [nth].
  specialize (IH (pre ++ [g k])
                 (setStat stats0 k (getStat stats0 k + g k))).
  rewrite <- app_assoc, length_app in IH. cbn [app List.length] in IH.
  rewrite Nat.add_1_r in IH. exact IH.
Qed.

Lemma fold_add_getStat (g : StatTypes -> Z) order :
  forall stats0 k,
    getStat (fold_left (fun s k0 => setStat s k0 (getStat s k0 + g k0))
                       order stats0) k
    = getStat stats0 k
      + Z.of_nat (count_occ StatTypes_eq_dec order k) * g k.
Proof.
  induction order as [|k0 rest IH]; intros stats0 k; [simpl; lia|].
  cbn [fold_left count_occ]. rewrite IH.
  destruct (StatTypes_eq_dec k0 k) as [->|Hne].
  - rewrite getStat_setStat_same. lia.
  - rewrite (getStat_setStat_other _ _ _ _ Hne). lia.
Qed.

(** X11. The aggregate stats of a selection, read per stat: the mod total
    of the stat plus, for each item of the selection, the value the stat
    resolver gives the item for the hash of that stat, once for each time
    the stat stands in the stat order (once, for a permutation of the six
    stats; a stat that is not in the order keeps its mod total). The
    positions in the resolved arrays match the positions in the order. *)
Theorem aggregateStats_sums_the_items
  (modStatTotals : StatMap Z) (assumeMasterwork : bool)
  (statOrder : list StatTypes) (armor0 : list ProcessItem) (k : StatTypes) :
  getStat (aggregateStats E modStatTotals assumeMasterwork statOrder armor0) k
  = getStat modStatTotals k
    + Z.of_nat (count_occ StatTypes_eq_dec statOrder k)
      * fold_right Z.add 0
          (map (fun item =>
                  Z.max (baseStats item (statHashes E k)
                         + match itemSockets item with
                           | Some _ =>
                               if truthyEnergy (energy item)
                               then 2 * Z.of_nat
                                          (count_occ Z.eq_dec
                                             (map (statHashes E) statOrder)
                                             (statHashes E k))
                               else 0
                           | None => 0
                           end) 0)
               armor0).
Proof.
  unfold aggregateStats. generalize modStatTotals as stats0.
  induction armor0 as [|item rest IH]; intros stats0; [simpl; lia|].
  cbn [fold_left map fold_right]. rewrite IH.
  unfold statsCache, orderedStatHashes.
  rewrite getStatValuesWithMWProcess_values, map_map.
  match goal with
  | |- context [addItemStats ?s ?o (map ?g ?o) 0%nat] =>
      rewrite (addItemStats_map g o [] s
               : addItemStats s o (map g o) 0%nat = _)
  end.
  rewrite fold_add_getStat. lia.
Qed.

(** ** The item comparator *)

Lemma sumBy_from {T : Type} (l : list T) (f : T -> Z) :
  forall acc, fold_left (fun a x => a + f x) l acc = acc + sumBy l f.
Proof.
  unfold sumBy. induction l as [|x l IH]; intros acc; cbn [fold_left]; [lia|].
  rewrite (IH (acc + f x)), (IH (0 + f x)). lia.
Qed.

Lemma sumBy_opp {T : Type} (l : list T) (f : T -> Z) :
  sumBy l (fun x => - f x) = - sumBy l f.
Proof.
  induction l as [|x l IH]; [reflexivity|].
  unfold sumBy in *. cbn [fold_left].
  rewrite (sumBy_from l (fun x => - f x)), (sumBy_from l f).
  unfold sumBy. lia.
Qed.

Lemma compareBy_compare {T : Type} (fn : T -> Z) a b :
  compareBy fn a b = (fn a ?= fn b).
Proof.
  unfold compareBy.
  destruct (Z.ltb_spec (fn a) (fn b)) as [Hlt|Hge].
  - symmetry. apply Z.compare_lt_iff. exact Hlt.
  - destruct (Z.gtb_spec (fn a) (fn b)) as [Hgt|Hle]; symmetry.
    + apply Z.compare_gt_iff. exact Hgt.
    + apply Z.compare_eq_iff. lia.
Qed.

Lemma chainComparator_trans {T : Type} (compares : list (Comparator T)) :
  (forall c, In c compares ->
             exists fn, forall a b, c a b = (fn a ?= fn b)) ->
  forall a b c,
    chainComparator compares a b = Lt ->
    chainComparator compares b c = Lt ->
    chainComparator compares a c = Lt.
Proof.
  induction compares as [|c0 cs IH]; intros Hkeys a b c Hab Hbc;
    [discriminate|].
  destruct (Hkeys c0 (or_introl eq_refl)) as [fn Hfn].
  assert (IH' := IH (fun c' Hc' => Hkeys c' (or_intror Hc')) a b c).
  cbn [chainComparator] in *.
  rewrite (Hfn a b) in Hab. rewrite (Hfn b c) in Hbc. rewrite (Hfn a c).
  destruct (Z.compare_spec (fn a) (fn b)) as [Eab|Eab|Eab]; try discriminate;
    destruct (Z.compare_spec (fn b) (fn c)) as [Ebc|Ebc|Ebc]; try discriminate;
    destruct (Z.compare_spec (fn a) (fn c)) as [Eac|Eac|Eac];
    try reflexivity; try (exfalso; clear - Eab Ebc Eac; lia).
  exact (IH' Hab Hbc).
Qed.

Lemma compareByStatOrder_keyed hashes c :
  In c ([compareBy (fun i : ProcessItem =>
                      sumBy hashes (fun h => - baseStats i h))]
          ++ map (fun h => compareBy (fun i : ProcessItem => - baseStats i h))
                 hashes
          ++ [compareBy (fun i : ProcessItem =>
                           - baseStats i (TOTAL_STAT_HASH E))]) ->
  exists fn, forall a b, c a b = (fn a ?= fn b).
Proof.
  intros Hc. apply in_app_or in Hc. destruct Hc as [[<-|[]]|Hc].
  - eexists. intros a b. apply compareBy_compare.
  - apply in_app_or in Hc. destruct Hc as [Hc|[<-|[]]].
    + apply in_map_iff in Hc. destruct Hc as [h [<- _]].
      eexists. intros a b. apply compareBy_compare.
    + eexists. intros a b. apply compareBy_compare.
Qed.

Lemma compareByStatOrder_sum_lt hashes a b :
  statSum hashes b < statSum hashes a ->
  compareByStatOrder E hashes a b = Lt.
Proof.
  intros Hsum.
  unfold compareByStatOrder. cbn [app chainComparator].
  rewrite compareBy_compare, !sumBy_opp.
  unfold statSum in Hsum.
  assert (Hlt : (- sumBy hashes (baseStats a)
                 ?= - sumBy hashes (baseStats b)) = Lt).
  { apply Z.compare_lt_iff. apply Z.opp_lt_mono in Hsum. exact Hsum. }
  rewrite Hlt. reflexivity.
Qed.

(** X12. An item whose considered stats sum to more comes first under the
    comparator of [compareByStatOrder], whatever the single stats and the
    total stat are. *)
Theorem compareByStatOrder_puts_higher_sum_first
  (orderedConsideredStatHashes : list Z) (a b : ProcessItem) :
  statSum orderedConsideredStatHashes b < statSum orderedConsideredStatHashes a ->
  compareByStatOrder E orderedConsideredStatHashes a b = Lt
  /\ compareByStatOrder E orderedConsideredStatHashes b a = Gt.
Proof.
  intros Hsum.
  pose proof (compareByStatOrder_sum_lt _ _ _ Hsum) as Hab.
  split; [exact Hab|].
  rewrite compareByStatOrder_antisym, Hab. reflexivity.
Qed.

(** X13. The comparator of [compareByStatOrder] is one that a sort can rely
    on: swapping the two items gives the opposite answer, and it is
    transitive. *)
Theorem compareByStatOrder_is_consistent
  (orderedConsideredStatHashes : list Z) :
  (forall a b,
      compareByStatOrder E orderedConsideredStatHashes b a
      = CompOpp (compareByStatOrder E orderedConsideredStatHashes a b))
  /\ (forall a b c,
         compareByStatOrder E orderedConsideredStatHashes a b = Lt ->
         compareByStatOrder E orderedConsideredStatHashes b c = Lt ->
         compareByStatOrder E orderedConsideredStatHashes a c = Lt).
Proof.
  split; [apply compareByStatOrder_antisym|].
  unfold compareByStatOrder. apply chainComparator_trans.
  apply compareByStatOrder_keyed.
Qed.

(** ** The caller's arrays after the call *)

Lemma notAfter_sums hashes x y :
  notAfter (compareByStatOrder E hashes) x y = true ->
  (statSum hashes y <=? statSum hashes x) = true.
Proof.
  intros H. apply Z.leb_le.
  destruct (Z.le_gt_cases (statSum hashes y) (statSum hashes x)) as [Hle|Hlt];
    [exact Hle|].
  exfalso. pose proof (compareByStatOrder_sum_lt _ _ _ Hlt) as Hyx.
  unfold notAfter in H. rewrite compareByStatOrder_antisym, Hyx in H.
  discriminate.
Qed.

Lemma descending_impl {K : Type} (gt gt' : K -> K -> bool) l :
  (forall x y, gt x y = true -> gt' x y = true) ->
  descending gt l -> descending gt' l.
Proof.
  intros Himpl. induction l as [|x l IH]; [intros; exact I|].
  intros [Hh Hd]. split; [|apply IH; exact Hd].
  destruct l; [exact I | apply Himpl; exact Hh].
Qed.

(** The sort leaves a list in the order of the comparator as it is. *)
Lemma sort_ordered {T : Type} (cmp : Comparator T) l :
  descending (notAfter cmp) l -> sort cmp l = l.
Proof.
  induction l as [|x l IH]; [reflexivity|].
  intros [Hh Hd]. unfold sort in *. cbn [fold_right]. rewrite (IH Hd).
  destruct l as [|y l]; [reflexivity|].
  cbn [insertSorted]. unfold headAbove, notAfter in Hh.
  destruct (cmp x y); [reflexivity | reflexivity | discriminate].
Qed.

Lemma trimLoop_under fuel L :
  countCombos L <= combosLimit -> trimLoop E fuel L = Ok L.
Proof.
  intros H.
  assert (Hc : (countCombos L >? combosLimit) = false).
  { rewrite Z.gtb_ltb. apply Z.ltb_ge. exact H. }
  destruct fuel; simpl; rewrite Hc; reflexivity.
Qed.

Lemma callerArrays_again filteredItems L :
  callerArrays (callerArrays filteredItems L) L = callerArrays filteredItems L.
Proof.
  unfold callerArrays. simpl.
  destruct (helmet filteredItems), (gauntlets filteredItems),
    (chest filteredItems), (leg filteredItems), (classitem filteredItems);
    reflexivity.
Qed.

Section Arrays.

Variable filteredItems : ProcessItemsByBucket.
Variable modStatTotals : StatMap Z.
Variable lockedModMap : list (Z * list (ProcessMod E)).
Variable assumeMasterwork : bool.
Variable statOrder : list StatTypes.
Variable statFilters : StatMap MinMaxIgnored.

Local Abbreviation hashes := (orderedConsideredStatHashes E statOrder statFilters).
Local Abbreviation itemComparator := (compareByStatOrder E hashes).
Local Abbreviation L0 := (sortedLists E filteredItems statOrder statFilters).

Lemma sortedLists_listsOf b :
  sortedLists E b statOrder statFilters
  = mkLists (sort itemComparator (helms (listsOf b)))
            (sort itemComparator (gaunts (listsOf b)))
            (sort itemComparator (chests (listsOf b)))
            (sort itemComparator (legs (listsOf b)))
            (sort itemComparator (classItems (listsOf b))).
Proof. reflexivity. Qed.

Lemma sortedLists_ordered :
  descending (notAfter itemComparator) (helms L0)
  /\ descending (notAfter itemComparator) (gaunts L0)
  /\ descending (notAfter itemComparator) (chests L0)
  /\ descending (notAfter itemComparator) (legs L0)
  /\ descending (notAfter itemComparator) (classItems L0).
Proof.
  repeat split; apply sort_in_order; apply compareByStatOrder_antisym.
Qed.

Lemma frontOf_ordered L :
  frontOf L L0 ->
  descending (notAfter itemComparator) (helms L)
  /\ descending (notAfter itemComparator) (gaunts L)
  /\ descending (notAfter itemComparator) (chests L)
  /\ descending (notAfter itemComparator) (legs L)
  /\ descending (notAfter itemComparator) (classItems L).
Proof.
  intros [[p1 H1] [[p2 H2] [[p3 H3] [[p4 H4] H5]]]].
  destruct sortedLists_ordered as [G1 [G2 [G3 [G4 G5]]]].
  rewrite H1 in G1. rewrite H2 in G2. rewrite H3 in G3. rewrite H4 in G4.
  rewrite H5 in G5.
  repeat split;
    first [eapply descending_app_l; eassumption | assumption].
Qed.

(** Sorting again the arrays that a call went through gives them back. *)
Lemma sortedLists_callerArrays L :
  frontOf L L0 ->
  sortedLists E (callerArrays filteredItems L) statOrder statFilters = L.
Proof.
  intros Hfront. rewrite sortedLists_listsOf.
  rewrite (listsOf_callerArrays E filteredItems statOrder statFilters L Hfront).
  destruct (frontOf_ordered L Hfront) as [G1 [G2 [G3 [G4 G5]]]].
  rewrite !sort_ordered by assumption.
  destruct L; reflexivity.
Qed.

Lemma processRun_lists r :
  processRun E filteredItems modStatTotals lockedModMap assumeMasterwork
             statOrder statFilters = Ok r ->
  trimLoop E (trimFuel L0) L0 = Ok (runLists r)
  /\ runCombos r = countCombos (runLists r)
  /\ runCombosWithoutCaps r = countCombos L0.
Proof.
  unfold processRun.
  destruct (trimLoop E (trimFuel L0) L0) as [L| |]; cbn [bind];
    try discriminate.
  destruct (countCombos L =? 0).
  - intros H. inversion H; subst. repeat split.
  - destruct (enumerate E _ _ _ _ _ _ _ _ L _) as [st| |]; cbn [bind];
      try discriminate.
    intros H. inversion H; subst. repeat split.
Qed.

(** X14. After the call every array of the caller is in the order of the
    item comparator: no item stands before one that the comparator puts
    first, and the sum of the considered stats never rises along an
    array. *)
Theorem process_leaves_arrays_in_comparator_order :
  exists out after,
    process E filteredItems modStatTotals lockedModMap assumeMasterwork
            statOrder statFilters = Ok (out, after)
    /\ forall l,
         In (Some l) [helmet after; gauntlets after; chest after; leg after;
                      classitem after] ->
         descending (notAfter itemComparator) l
         /\ descending (fun x y => statSum hashes y <=? statSum hashes x) l.
Proof.
  destruct (processRun_ok E filteredItems modStatTotals lockedModMap
              assumeMasterwork statOrder statFilters)
    as [r [Er [_ [_ [_ [Htrim _]]]]]].
  exists (outputOf r), (callerArrays filteredItems (runLists r)).
  split; [unfold process; rewrite Er; reflexivity|].
  destruct (frontOf_ordered _ (trimsTo_frontOf E _ _ Htrim))
    as [G1 [G2 [G3 [G4 G5]]]].
  assert (Hboth : forall l, descending (notAfter itemComparator) l ->
                            descending (notAfter itemComparator) l
                            /\ descending (fun x y => statSum hashes y
                                                      <=? statSum hashes x) l).
  { intros l Hl. split; [exact Hl|].
    apply (descending_impl (notAfter itemComparator)); [|exact Hl].
    intros x y. apply notAfter_sums. }
  intros l Hin. apply Hboth. unfold callerArrays, callerArray in Hin.
  cbn [helmet gauntlets chest leg classitem In] in Hin.
  destruct Hin as [H|[H|[H|[H|[H|[]]]]]].
  - destruct (helmet filteredItems); inversion H; subst; exact G1.
  - destruct (gauntlets filteredItems); inversion H; subst; exact G2.
  - destruct (chest filteredItems); inversion H; subst; exact G3.
  - destruct (leg filteredItems); inversion H; subst; exact G4.
  - destruct (classitem filteredItems); inversion H; subst; exact G5.
Qed.

Lemma callerArrays_sortedLists :
  callerArrays filteredItems L0
  = mkBuckets (option_map (sort itemComparator) (helmet filteredItems))
              (option_map (sort itemComparator) (gauntlets filteredItems))
              (option_map (sort itemComparator) (chest filteredItems))
              (option_map (sort itemComparator) (leg filteredItems))
              (option_map (sort itemComparator) (classitem filteredItems)).
Proof.
  unfold callerArrays, callerArray, sortedLists, sortedBucket. simpl.
  destruct (helmet filteredItems), (gauntlets filteredItems),
    (chest filteredItems), (leg filteredItems), (classitem filteredItems);
    reflexivity.
Qed.

Lemma processRun_within_the_limit :
  countCombos (listsOf filteredItems) <= combosLimit ->
  exists r,
    processRun E filteredItems modStatTotals lockedModMap assumeMasterwork
               statOrder statFilters = Ok r
    /\ runLists r = L0
    /\ runCombos r = countCombos (listsOf filteredItems)
    /\ runCombosWithoutCaps r = countCombos (listsOf filteredItems)
    /\ (countCombos (listsOf filteredItems) = 0 -> runFinal r = None)
    /\ (countCombos (listsOf filteredItems) <> 0 ->
        exists st, runFinal r = Some st).
Proof.
  intros Hcap.
  rewrite <- (countCombos_sortedLists E filteredItems statOrder statFilters)
    in *.
  destruct (processRun_ok E filteredItems modStatTotals lockedModMap
              assumeMasterwork statOrder statFilters)
    as [r [Er [_ [_ [_ [_ Hfinal]]]]]].
  destruct (processRun_lists r Er) as [Htrim [Hc Hw]].
  rewrite (trimLoop_under _ _ Hcap) in Htrim. inversion Htrim as [Hlists].
  exists r. split; [exact Er|]. split; [symmetry; exact Hlists|].
  rewrite Hc, Hw, <- Hlists. split; [reflexivity|]. split; [reflexivity|].
  rewrite <- Hlists in Hfinal.
  destruct (runFinal r) as [st|].
  - split; [intros Hz; destruct Hfinal as [Hnz _]; contradiction|].
    intros _. exists st. reflexivity.
  - split; [reflexivity|]. intros Hnz. contradiction.
Qed.

(** X15. When the product of the lengths of the five lists is within the
    limit of 2,000,000 and is not 0, [process] pops nothing: each array of
    the caller is the sorted array, the two counters are both the product,
    and the stat ranges are returned. *)
Theorem process_within_the_limit_only_sorts :
  countCombos (listsOf filteredItems) <= combosLimit ->
  countCombos (listsOf filteredItems) <> 0 ->
  exists out,
    process E filteredItems modStatTotals lockedModMap assumeMasterwork
            statOrder statFilters
    = Ok (out,
          mkBuckets
            (option_map (sort itemComparator) (helmet filteredItems))
            (option_map (sort itemComparator) (gauntlets filteredItems))
            (option_map (sort itemComparator) (chest filteredItems))
            (option_map (sort itemComparator) (leg filteredItems))
            (option_map (sort itemComparator) (classitem filteredItems)))
    /\ combos out = countCombos (listsOf filteredItems)
    /\ combosWithoutCaps out = countCombos (listsOf filteredItems)
    /\ outStatRanges out <> None.
Proof.
  intros Hcap Hnz.
  destruct (processRun_within_the_limit Hcap)
    as [r [Er [Hlists [Hc [Hw [_ Hsome]]]]]].
  destruct (Hsome Hnz) as [st Est].
  exists (outputOf r). unfold process. rewrite Er. cbn [bind].
  rewrite Hlists, callerArrays_sortedLists.
  split; [reflexivity|].
  unfold outputOf. rewrite Est. cbn [combos combosWithoutCaps outStatRanges].
  split; [exact Hc|]. split; [exact Hw | discriminate].
Qed.

(** X16. When a bucket is missing or empty, [process] sorts the arrays it
    was given and returns early: no sets, both counters 0 and no stat
    ranges. *)
Theorem process_returns_early_on_an_empty_list :
  countCombos (listsOf filteredItems) = 0 ->
  process E filteredItems modStatTotals lockedModMap assumeMasterwork
          statOrder statFilters
  = Ok (mkOutput [] 0 0 None,
        mkBuckets
          (option_map (sort itemComparator) (helmet filteredItems))
          (option_map (sort itemComparator) (gauntlets filteredItems))
          (option_map (sort itemComparator) (chest filteredItems))
          (option_map (sort itemComparator) (leg filteredItems))
          (option_map (sort itemComparator) (classitem filteredItems))).
Proof.
  intros Hz.
  assert (Hcap : countCombos (listsOf filteredItems) <= combosLimit)
    by (rewrite Hz; unfold combosLimit; lia).
  destruct (processRun_within_the_limit Hcap)
    as [r [Er [Hlists [_ [_ [Hnone _]]]]]].
  unfold process. rewrite Er. cbn [bind].
  rewrite Hlists, callerArrays_sortedLists.
  unfold outputOf. rewrite (Hnone Hz). reflexivity.
Qed.

Lemma processRun_again r :
  processRun E filteredItems modStatTotals lockedModMap assumeMasterwork
             statOrder statFilters = Ok r ->
  processRun E (callerArrays filteredItems (runLists r)) modStatTotals
             lockedModMap assumeMasterwork statOrder statFilters
  = Ok (mkRun (runLists r) (runCombos r) (runCombos r) (runFinal r)).
Proof.
  intros Er.
  destruct (processRun_ok E filteredItems modStatTotals lockedModMap
              assumeMasterwork statOrder statFilters)
    as [r' [Er' [_ [_ [Hcap [Htrim _]]]]]].
  rewrite Er in Er'. inversion Er'; subst r'. clear Er'.
  pose proof (sortedLists_callerArrays _ (trimsTo_frontOf E _ _ Htrim))
    as Hsorted.
  revert Er. unfold processRun. rewrite Hsorted.
  rewrite (trimLoop_under _ _ Hcap). cbn [bind].
  destruct (trimLoop E (trimFuel L0) L0) as [L| |]; cbn [bind];
    try discriminate.
  destruct (countCombos L =? 0) eqn:Ez.
  - intros H. inversion H; subst. cbn [runLists runCombos runFinal].
    rewrite Ez. reflexivity.
  - destruct (enumerate E _ _ _ _ _ _ _ _ L _) as [st| |] eqn:Est;
      cbn [bind]; try discriminate.
    intros H. inversion H; subst. cbn [runLists runCombos runFinal].
    rewrite Ez, Est. reflexivity.
Qed.

(** X17. A second call on the arrays that a first call has left changes
    them no more, and returns the same sets, the same number of
    combinations and the same stat ranges; its [combosWithoutCaps] is that
    number too, the items popped by the first call being gone. *)
Theorem process_again_leaves_the_arrays :
  exists out after out',
    process E filteredItems modStatTotals lockedModMap assumeMasterwork
            statOrder statFilters = Ok (out, after)
    /\ process E after modStatTotals lockedModMap assumeMasterwork
               statOrder statFilters = Ok (out', after)
    /\ sets out' = sets out
    /\ combos out' = combos out
    /\ outStatRanges out' = outStatRanges out
    /\ combosWithoutCaps out' = combos out.
Proof.
  destruct (process_total E filteredItems modStatTotals lockedModMap
              assumeMasterwork statOrder statFilters) as [r [Er Hproc]].
  eexists _, _, _. split; [exact Hproc|].
  split.
  - unfold process. rewrite (processRun_again r Er). cbn [bind runLists].
    rewrite callerArrays_again. reflexivity.
  - unfold outputOf. cbn [runFinal runCombos runCombosWithoutCaps].
    destruct (runFinal r); repeat split.
Qed.

End Arrays.

(** ** The locked mods *)

Lemma sortMods_from (lockedModMap : list (Z * list (ProcessMod E))) :
  forall acc,
    fold_left
      (fun m entry =>
         let pch := fst entry in
         let mods := snd entry in
         if pch =? generalPlugCategoryHash E then
           mkMods E (generalMods E m ++ mods) (otherMods E m) (raidMods E m)
         else if existsb (Z.eqb pch) (raidPlugCategoryHashes E) then
           mkMods E (generalMods E m) (otherMods E m) (raidMods E m ++ mods)
         else if negb (existsb (Z.eqb pch) (knownModPlugCategoryHashes E)) then
           mkMods E (generalMods E m) (otherMods E m ++ mods) (raidMods E m)
         else m)
      lockedModMap acc
    = mkMods E
        (generalMods E acc
         ++ flat_map snd
              (filter (fun e => fst e =? generalPlugCategoryHash E)
                      lockedModMap))
        (otherMods E acc
         ++ flat_map snd
              (filter (fun e =>
                         negb (fst e =? generalPlugCategoryHash E)
                         && negb (existsb (Z.eqb (fst e))
                                          (raidPlugCategoryHashes E))
                         && negb (existsb (Z.eqb (fst e))
                                          (knownModPlugCategoryHashes E)))
                      lockedModMap))
        (raidMods E acc
         ++ flat_map snd
              (filter (fun e =>
                         negb (fst e =? generalPlugCategoryHash E)
                         && existsb (Z.eqb (fst e))
                                    (raidPlugCategoryHashes E))
                      lockedModMap)).
Proof.
  induction lockedModMap as [|[pch mods] rest IH]; intros acc.
  - simpl. rewrite !app_nil_r. destruct acc; reflexivity.
  - cbn [fold_left filter fst snd]. rewrite IH.
    destruct (pch =? generalPlugCategoryHash E);
      [|destruct (existsb (Z.eqb pch) (raidPlugCategoryHashes E));
        [|destruct (existsb (Z.eqb pch) (knownModPlugCategoryHashes E))]];
      cbn [negb andb generalMods otherMods raidMods flat_map snd];
      rewrite <- ?app_assoc; reflexivity.
Qed.

(** X18. The loop over the locked mods files the mods of each entry by its
    plug category hash, in the order of the entries: under the general
    hash as general mods, else under a raid hash as raid mods, else under a
    hash that is not known as other mods; the mods of any other known
    category go to none of the three lists. *)
Theorem sortMods_files_by_category
  (lockedModMap : list (Z * list (ProcessMod E))) :
  let general e := fst e =? generalPlugCategoryHash E in
  let raid e := existsb (Z.eqb (fst e)) (raidPlugCategoryHashes E) in
  let known e := existsb (Z.eqb (fst e)) (knownModPlugCategoryHashes E) in
  generalMods E (sortMods E lockedModMap)
  = flat_map snd (filter general lockedModMap)
  /\ raidMods E (sortMods E lockedModMap)
     = flat_map snd (filter (fun e => negb (general e) && raid e)
                            lockedModMap)
  /\ otherMods E (sortMods E lockedModMap)
     = flat_map snd
         (filter (fun e => negb (general e) && negb (raid e) && negb (known e))
                 lockedModMap).
Proof.
  cbv zeta. unfold sortMods. rewrite sortMods_from.
  cbn [generalMods otherMods raidMods app]. repeat split.
Qed.

Lemma flat_map_filter_nil {A B : Type} (f : A -> list B) (p : A -> bool) l :
  (forall e, In e l -> f e = [] \/ p e = false) ->
  flat_map f (filter p l) = [].
Proof.
  induction l as [|x l IH]; intros H; [reflexivity|].
  simpl. destruct (p x) eqn:Ep.
  - simpl. destruct (H x (or_introl eq_refl)) as [Hx|Hx]; [|congruence].
    rewrite Hx. apply IH. intros e He. apply H. right. exact He.
  - apply IH. intros e He. apply H. right. exact He.
Qed.

Lemma sortMods_none (lockedModMap : list (Z * list (ProcessMod E))) :
  (forall e, In e lockedModMap ->
             snd e = []
             \/ ((fst e =? generalPlugCategoryHash E) = false
                 /\ existsb (Z.eqb (fst e)) (raidPlugCategoryHashes E) = false
                 /\ existsb (Z.eqb (fst e)) (knownModPlugCategoryHashes E)
                    = true)) ->
  sortMods E lockedModMap = sortMods E [].
Proof.
  intros H. unfold sortMods. rewrite sortMods_from.
  cbn [generalMods otherMods raidMods app fold_left].
  rewrite !flat_map_filter_nil; [reflexivity| | |];
    intros e He; destruct (H e He) as [Hnil|[Hg [Hr Hk]]];
    try (left; exact Hnil); right; rewrite ?Hg, ?Hr, ?Hk; reflexivity.
Qed.

(** X19. Mods locked under a known plug category that is neither the
    general one nor a raid one count for nothing, as do entries without
    mods: with such entries only, [process] does what it does with no
    locked mods at all. *)
Theorem process_disregards_other_known_categories
  (filteredItems : ProcessItemsByBucket) (modStatTotals : StatMap Z)
  (lockedModMap : list (Z * list (ProcessMod E))) (assumeMasterwork : bool)
  (statOrder : list StatTypes) (statFilters : StatMap MinMaxIgnored) :
  (forall e, In e lockedModMap ->
             snd e = []
             \/ ((fst e =? generalPlugCategoryHash E) = false
                 /\ existsb (Z.eqb (fst e)) (raidPlugCategoryHashes E) = false
                 /\ existsb (Z.eqb (fst e)) (knownModPlugCategoryHashes E)
                    = true)) ->
  process E filteredItems modStatTotals lockedModMap assumeMasterwork
          statOrder statFilters
  = process E filteredItems modStatTotals [] assumeMasterwork
            statOrder statFilters.
Proof.
  intros H. unfold process, processRun.
  rewrite (sortMods_none lockedModMap H). reflexivity.
Qed.

(** ** Dropping the worst set *)

Lemma mixes_none_empty mixes :
  mixesWellFormed mixes -> flat_map armorSets mixes = [] -> mixes = [].
Proof.
  intros Hwf Hflat. destruct mixes as [|m rest]; [reflexivity|].
  apply Forall_inv in Hwf. simpl in Hflat.
  apply app_eq_nil in Hflat. destruct Hflat as [Hm _]. contradiction.
Qed.

Lemma tracker_none_empty tracker :
  trackerWellFormed tracker -> finalSets tracker = [] -> tracker = [].
Proof.
  intros Hwf Hflat. destruct tracker as [|t rest]; [reflexivity|].
  apply Forall_inv in Hwf. destruct Hwf as [Hne Hmixes].
  rewrite finalSets_cons in Hflat.
  apply app_eq_nil in Hflat. destruct Hflat as [Ht _].
  apply (mixes_none_empty _ Hmixes) in Ht. contradiction.
Qed.

Lemma dropWorstSet_lowest tracker lowest tracker' lowest' :
  dropWorstSet tracker lowest = Ok (tracker', lowest') ->
  lowest' = lowest
  \/ (tracker' = removelast tracker
      /\ exists t, lastItem tracker' = Some t /\ lowest' = tier t).
Proof.
  unfold dropWorstSet.
  destruct (lastItem tracker) as [lowestTierSet|]; [|discriminate].
  destruct (lastItem (statMixes lowestTierSet)) as [worstMix|];
    [|discriminate].
  destruct (len (removelast (armorSets worstMix)) =? 0).
  - destruct (len (removelast (statMixes lowestTierSet)) =? 0).
    + destruct (lastItem (removelast tracker)) as [t|] eqn:Et;
        [|discriminate].
      intros H. inversion H; subst. right. split; [reflexivity|].
      exists t. split; [exact Et | reflexivity].
    + intros H. inversion H; subst. left. reflexivity.
  - intros H. inversion H; subst. left. reflexivity.
Qed.

Lemma dropWorstSet_single tracker lowest :
  trackerWellFormed tracker ->
  len (finalSets tracker) <= 1 ->
  dropWorstSet tracker lowest = TypeError.
Proof.
  intros Hwf Hlen. unfold dropWorstSet.
  destruct (lastItem tracker) as [lowestTierSet|] eqn:Elast; [|reflexivity].
  apply lastItem_some in Elast.
  set (init := removelast tracker) in *.
  assert (Hwf' : trackerWellFormed init
                 /\ trackerWellFormed [lowestTierSet]).
  { apply trackerWellFormed_app. rewrite <- Elast. exact Hwf. }
  destruct Hwf' as [Hinit Hlt]. apply Forall_inv in Hlt.
  destruct Hlt as [Hne Hmixes].
  destruct (lastItem (statMixes lowestTierSet)) as [worstMix|] eqn:Emix;
    [|reflexivity].
  apply lastItem_some in Emix.
  set (minit := removelast (statMixes lowestTierSet)) in *.
  assert (Hm : mixesWellFormed minit /\ mixesWellFormed [worstMix]).
  { apply Forall_app. rewrite <- Emix. exact Hmixes. }
  destruct Hm as [Hminit Hworst]. apply Forall_inv in Hworst.
  destruct (exists_last Hworst) as [sinit [worst Esets]].
  assert (Hfinal : finalSets tracker
                   = (finalSets init ++ flat_map armorSets minit ++ sinit)
                       ++ [worst]).
  { rewrite Elast at 1. rewrite finalSets_app. simpl. rewrite app_nil_r.
    rewrite Emix at 1. rewrite flat_map_app. simpl. rewrite app_nil_r.
    rewrite Esets. rewrite <- !app_assoc. reflexivity. }
  assert (Hnil : finalSets init ++ flat_map armorSets minit ++ sinit = []).
  { rewrite Hfinal in Hlen. unfold len in Hlen.
    rewrite length_app in Hlen. simpl in Hlen.
    apply length_zero_iff_nil. clear - Hlen. lia. }
  apply app_eq_nil in Hnil. destruct Hnil as [Hi Hrest].
  apply app_eq_nil in Hrest. destruct Hrest as [Hmi Hsi].
  apply (tracker_none_empty _ Hinit) in Hi.
  apply (mixes_none_empty _ Hminit) in Hmi.
  rewrite Esets, removelast_last, Hsi, Hmi, Hi. reflexivity.
Qed.

(** X20. The block that drops the worst set, on a tracker without empty
    groups: with two sets or more it drops the last set of the last group,
    leaves no empty group behind and throws nothing, and [lowestTier]
    changes only when the last tier group goes, to the tier of the group
    that is then last; with one set or none it throws a [TypeError]. *)
Theorem dropWorstSet_drops_the_last_set
  (tracker : SetTracker) (lowestTier0 : Z) :
  trackerWellFormed tracker ->
  (2 <= len (finalSets tracker) ->
   exists tracker' lowestTier1 worst,
     dropWorstSet tracker lowestTier0 = Ok (tracker', lowestTier1)
     /\ finalSets tracker = finalSets tracker' ++ [worst]
     /\ trackerWellFormed tracker'
     /\ (lowestTier1 = lowestTier0
         \/ (tracker' = removelast tracker
             /\ exists t, lastItem tracker' = Some t
                          /\ lowestTier1 = tier t)))
  /\ (len (finalSets tracker) <= 1 ->
      dropWorstSet tracker lowestTier0 = TypeError).
Proof.
  intros Hwf. split.
  - intros Hlen.
    destruct (dropWorstSet_last tracker lowestTier0 Hwf Hlen)
      as [tracker' [lowest' [worst [Hdrop [Hfinal Hwf']]]]].
    exists tracker', lowest', worst.
    split; [exact Hdrop|]. split; [exact Hfinal|]. split; [exact Hwf'|].
    exact (dropWorstSet_lowest _ _ _ _ Hdrop).
  - apply dropWorstSet_single. exact Hwf.
Qed.

End Coverage.

(** ** The properties with a premise, on concrete inputs *)

(** X3 on a tracker of two tier groups, for a new signature of the lower
    tier. *)
Lemma insertIntoSetTracker_keeps_groups_in_order_witness :
  trackerOrdered twoTiers
  /\ trackerOrdered (insertIntoSetTracker imports 24 "45" plainSet twoTiers).
Proof.
  assert (H : trackerOrdered twoTiers).
  { unfold trackerOrdered, trackerWellFormed, trackerSorted, mixesWellFormed,
      twoTiers.
    simpl. repeat split; repeat constructor; simpl; try discriminate;
      repeat split; repeat constructor; try discriminate. }
  split; [exact H|].
  apply (insertIntoSetTracker_keeps_groups_in_order imports 24 "45" plainSet
           twoTiers H).
Defined.

(** X12 on an item with all stats 10 against one with all stats 0, for the
    considered stats 1 and 2. *)
Lemma compareByStatOrder_puts_higher_sum_first_witness :
  statSum [1; 2] weakHelmet < statSum [1; 2] (plainItem "strong" 0 10)
  /\ compareByStatOrder imports [1; 2] (plainItem "strong" 0 10) weakHelmet
     = Lt
  /\ compareByStatOrder imports [1; 2] weakHelmet (plainItem "strong" 0 10)
     = Gt.
Proof.
  assert (H : statSum [1; 2] weakHelmet
              < statSum [1; 2] (plainItem "strong" 0 10))
    by (vm_compute; reflexivity).
  split; [exact H|].
  apply (compareByStatOrder_puts_higher_sum_first imports [1; 2]
           (plainItem "strong" 0 10) weakHelmet H).
Defined.

(** X15 on two helmets and one item for each other slot. *)
Lemma process_within_the_limit_only_sorts_witness :
  countCombos (listsOf unsorted) <= combosLimit
  /\ countCombos (listsOf unsorted) <> 0
  /\ exists out,
       process imports unsorted noMods [] false allStats noFilters
       = Ok (out,
             mkBuckets
               (option_map
                  (sort (compareByStatOrder imports
                           (orderedConsideredStatHashes imports allStats
                                                        noFilters)))
                  (helmet unsorted))
               (option_map
                  (sort (compareByStatOrder imports
                           (orderedConsideredStatHashes imports allStats
                                                        noFilters)))
                  (gauntlets unsorted))
               (option_map
                  (sort (compareByStatOrder imports
                           (orderedConsideredStatHashes imports allStats
                                                        noFilters)))
                  (chest unsorted))
               (option_map
                  (sort (compareByStatOrder imports
                           (orderedConsideredStatHashes imports allStats
                                                        noFilters)))
                  (leg unsorted))
               (option_map
                  (sort (compareByStatOrder imports
                           (orderedConsideredStatHashes imports allStats
                                                        noFilters)))
                  (classitem unsorted)))
       /\ combos out = countCombos (listsOf unsorted)
       /\ combosWithoutCaps out = countCombos (listsOf unsorted)
       /\ outStatRanges out <> None.
Proof.
  assert (H1 : countCombos (listsOf unsorted) <= combosLimit)
    by (vm_compute; discriminate).
  assert (H2 : countCombos (listsOf unsorted) <> 0)
    by (vm_compute; discriminate).
  split; [exact H1|]. split; [exact H2|].
  apply (process_within_the_limit_only_sorts imports unsorted noMods [] false
           allStats noFilters H1 H2).
Defined.

(** X16 without a helmet bucket. *)
Lemma process_returns_early_on_an_empty_list_witness :
  countCombos (listsOf noHelmets) = 0
  /\ process imports noHelmets noMods [] false allStats noFilters
     = Ok (mkOutput [] 0 0 None,
           mkBuckets
             (option_map
                (sort (compareByStatOrder imports
                         (orderedConsideredStatHashes imports allStats
                                                      noFilters)))
                (helmet noHelmets))
             (option_map
                (sort (compareByStatOrder imports
                         (orderedConsideredStatHashes imports allStats
                                                      noFilters)))
                (gauntlets noHelmets))
             (option_map
                (sort (compareByStatOrder imports
                         (orderedConsideredStatHashes imports allStats
                                                      noFilters)))
                (chest noHelmets))
             (option_map
                (sort (compareByStatOrder imports
                         (orderedConsideredStatHashes imports allStats
                                                      noFilters)))
                (leg noHelmets))
             (option_map
                (sort (compareByStatOrder imports
                         (orderedConsideredStatHashes imports allStats
                                                      noFilters)))
                (classitem noHelmets))).
Proof.
  assert (H : countCombos (listsOf noHelmets) = 0) by (vm_compute; reflexivity).
  split; [exact H|].
  apply (process_returns_early_on_an_empty_list imports noHelmets noMods []
           false allStats noFilters H).
Defined.

(** X19 on two mods of the known category 53 and an entry without mods. *)
Lemma process_disregards_other_known_categories_witness :
  (forall e, In e knownCategoryOnly ->
             snd e = []
             \/ ((fst e =? generalPlugCategoryHash imports) = false
                 /\ existsb (Z.eqb (fst e)) (raidPlugCategoryHashes imports)
                    = false
                 /\ existsb (Z.eqb (fst e))
                            (knownModPlugCategoryHashes imports) = true))
  /\ process imports unsorted noMods knownCategoryOnly false allStats
             noFilters
     = process imports unsorted noMods [] false allStats noFilters.
Proof.
  assert (H : forall e, In e knownCategoryOnly ->
                snd e = []
                \/ ((fst e =? generalPlugCategoryHash imports) = false
                    /\ existsb (Z.eqb (fst e)) (raidPlugCategoryHashes imports)
                       = false
                    /\ existsb (Z.eqb (fst e))
                               (knownModPlugCategoryHashes imports) = true)).
  { intros e [<-|[<-|[]]].
    - right. repeat split; reflexivity.
    - left. reflexivity. }
  split; [exact H|].
  apply (process_disregards_other_known_categories imports unsorted noMods
           knownCategoryOnly false allStats noFilters H).
Defined.

(** X20 on a tracker of two tier groups that holds three sets. *)
Lemma dropWorstSet_drops_the_last_set_witness :
  trackerWellFormed twoTiers
  /\ (2 <= len (finalSets twoTiers) ->
      exists tracker' lowestTier1 worst,
        dropWorstSet twoTiers 24 = Ok (tracker', lowestTier1)
        /\ finalSets twoTiers = finalSets tracker' ++ [worst]
        /\ trackerWellFormed tracker'
        /\ (lowestTier1 = 24
            \/ (tracker' = removelast twoTiers
                /\ exists t, lastItem tracker' = Some t
                             /\ lowestTier1 = tier t)))
  /\ (len (finalSets twoTiers) <= 1 ->
      dropWorstSet twoTiers 24 = TypeError).
Proof.
  assert (H : trackerWellFormed twoTiers).
  { unfold trackerWellFormed, mixesWellFormed, twoTiers.
    repeat constructor; simpl; discriminate. }
  split; [exact H|].
  apply (dropWorstSet_drops_the_last_set twoTiers 24 H).
Defined.
